(** * Console styling toolkit: formatter, style stack, table layout, progress bar

    A shallow embedding of the TypeScript sources
    - [src/Formatter/OutputFormatterStyle.ts]
    - [src/Formatter/OutputFormatterStyleStack.ts]
    - [src/Formatter/OutputFormatter.ts]
    - [src/Helper/Helper.ts]   (regex and string helpers)
    - [src/Helper/Table.ts]
    - [src/Helper/ProgressBar.ts]

    Conventions.
    - A JavaScript string is a sequence of UTF-16 code units; the model
      uses [string], i.e. code units below 256.  Every regular expression
      of the sources is compiled without the [u] flag and works on code
      units, and the only characters they single out are ASCII.
    - An object literal used as a dictionary is a [gmap string _] (or an
      association list when it is a fixed table).
    - A [throw] is the [Throw] outcome of a computation; for code that
      mutates the formatter, the state reached at the moment of the throw
      is kept, since the caller can observe it afterwards.
    - JavaScript numbers that count things (steps, columns, widths) are
      integers here; the one place where a quotient is formed keeps it as
      an exact rational. *)

From Stdlib Require Import ZArith QArith Qround String Ascii List Lia DecimalString.
From stdpp Require Import base option list strings gmap.

Local Open Scope string_scope.
Local Open Scope nat_scope.

(** ** Errors *)

Inductive Error : Type :=
| ReferenceError
| SyntaxError
| TypeError
| RangeError
| PlainError    (* new Error(...) *)
| Unmodelled.   (* no error of the program: the run left what the
                   embedding covers (a number that is not finite, an
                   inherited property read where a style or a code
                   pair is expected) *)

Inductive result (A : Type) : Type :=
| Ok (a : A)
| Throw (e : Error).
Arguments Ok {A} a.
Arguments Throw {A} e.

Definition rbind {A B : Type} (r : result A) (k : A -> result B) : result B :=
  match r with
  | Ok a => k a
  | Throw e => Throw e
  end.

(** Code that mutates an object of type [S] and may throw: the outcome
    and the object as it is left. *)
Definition M (S A : Type) : Type := S -> result A * S.

Definition ret {S A : Type} (a : A) : M S A := fun s => (Ok a, s).

Definition throw {S A : Type} (e : Error) : M S A := fun s => (Throw e, s).

Definition bind {S A B : Type} (m : M S A) (k : A -> M S B) : M S B :=
  fun s =>
    match m s with
    | (Ok a, s') => k a s'
    | (Throw e, s') => (Throw e, s')
    end.

Definition get {S : Type} : M S S := fun s => (Ok s, s).

Definition modify {S : Type} (f : S -> S) : M S unit := fun s => (Ok tt, f s).

(** A pure computation that may throw, run inside [M]. *)
Definition lift {S A : Type} (r : result A) : M S A := fun s => (r, s).

Notation "x <- m ;; k" := (bind m (fun x => k))
  (at level 100, m at next level, right associativity).
Notation "m ;;; k" := (bind m (fun _ => k))
  (at level 100, right associativity).

(** [for (const x of l) body(x)], threading an accumulator. *)
Fixpoint foldM {S A B : Type} (body : B -> A -> M S A) (l : list B) (a : A) : M S A :=
  match l with
  | [] => ret a
  | x :: l' => a' <- body x a ;; foldM body l' a'
  end.

(** ** String primitives of the host language *)

Module Js.

Definition backslash : ascii := "\"%char.
Definition lt : ascii := "<"%char.
Definition gt : ascii := ">"%char.
Definition slash : ascii := "/"%char.
Definition esc : ascii := "027"%char.
Definition newline : ascii := "010"%char.

Definition str1 (c : ascii) : string := String c "".

Definition between (lo hi c : ascii) : bool :=
  (Ascii.leb lo c && Ascii.leb c hi)%bool.

(** [s.repeat(n)] *)
Fixpoint repeat (s : string) (n : nat) : string :=
  match n with
  | O => ""
  | S k => s ++ repeat s k
  end.

(** [s.slice(n)] for [0 <= n] *)
Fixpoint sliceFrom (n : nat) (s : string) : string :=
  match n, s with
  | O, _ => s
  | S k, String _ s' => sliceFrom k s'
  | S _, EmptyString => ""
  end.

(** [s.slice(0, n)] for [0 <= n] *)
Fixpoint sliceTo (n : nat) (s : string) : string :=
  match n, s with
  | S k, String c s' => String c (sliceTo k s')
  | _, _ => ""
  end.

(** [s.substr(start, len)] for [0 <= start], [0 <= len] *)
Definition substr (s : string) (start len : nat) : string :=
  sliceTo len (sliceFrom start s).

(** [s[i]]: [None] is [undefined] *)
Definition charAt (s : string) (i : nat) : option ascii := String.get i s.

(** [s.slice(-1)]: the last code unit, or the empty string *)
Fixpoint lastChar (s : string) : option ascii :=
  match s with
  | "" => None
  | String c "" => Some c
  | String _ s' => lastChar s'
  end.

Fixpoint startsWith (p s : string) : bool :=
  match p, s with
  | "", _ => true
  | String a p', String b s' => (Ascii.eqb a b && startsWith p' s')%bool
  | String _ _, "" => false
  end.

(** [s.includes(p)] / [-1 !== s.indexOf(p)] *)
Fixpoint includes (p s : string) : bool :=
  match s with
  | "" => startsWith p ""
  | String _ s' => (startsWith p s || includes p s')%bool
  end.

(** [s.replace(/p/g, by)] for a pattern [p] that matches exactly the
    non-empty literal [pat]: the matches are taken leftmost first and do
    not overlap; [skip] counts the code units of the current match still
    to be consumed. *)
Fixpoint replaceAllFrom (pat by_ : string) (skip : nat) (s : string) : string :=
  match s with
  | "" => ""
  | String c s' =>
      match skip with
      | S k => replaceAllFrom pat by_ k s'
      | O =>
          if startsWith pat s
          then by_ ++ replaceAllFrom pat by_ (String.length pat - 1) s'
          else String c (replaceAllFrom pat by_ O s')
      end
  end.

Definition replaceAll (pat by_ s : string) : string := replaceAllFrom pat by_ 0 s.

(** [s.split(sep)] for a one code unit separator *)
Fixpoint split (sep : ascii) (s : string) : list string :=
  match s with
  | "" => [""]
  | String c s' =>
      if Ascii.eqb c sep then "" :: split sep s'
      else match split sep s' with
           | l :: ls => String c l :: ls
           | [] => [String c ""]
           end
  end.

(** [codes.join(sep)] *)
Fixpoint join (sep : string) (l : list string) : string :=
  match l with
  | [] => ""
  | [x] => x
  | x :: l' => x ++ sep ++ join sep l'
  end.

(** [String(n)] for a natural number *)
Definition ofNat (n : nat) : string := NilZero.string_of_uint (Nat.to_uint n).

(** [c.toLowerCase()] on a code unit below 256: the ASCII capitals and
    the Latin-1 capitals U+00C0..U+00DE, the sign U+00D7 apart. *)
Definition lowerChar (c : ascii) : ascii :=
  let n := nat_of_ascii c in
  if ((65 <=? n) && (n <=? 90))%bool then ascii_of_nat (n + 32)
  else if ((192 <=? n) && (n <=? 222) && negb (n =? 215))%bool then ascii_of_nat (n + 32)
  else c.

Fixpoint toLowerCase (s : string) : string :=
  match s with
  | "" => ""
  | String c s' => String (lowerChar c) (toLowerCase s')
  end.

(** The property names that an object literal inherits from
    [Object.prototype].  Read from an object without an own property of
    that name, each gives a function (the prototype itself for
    [__proto__]): a truthy value. *)
Definition inheritedNames : list string :=
  [ "constructor"; "__defineGetter__"; "__defineSetter__"; "hasOwnProperty";
    "__lookupGetter__"; "__lookupSetter__"; "isPrototypeOf";
    "propertyIsEnumerable"; "toString"; "valueOf"; "__proto__"; "toLocaleString" ].

Definition inherited (k : string) : bool := existsb (String.eqb k) inheritedNames.

End Js.

(** ** [OutputFormatterStyle] *)

Module OutputFormatterStyle.

Record AnsiCodeConfig : Type := { set : nat; unset : nat }.

Definition AnsiCodeConfig_eqb (a b : AnsiCodeConfig) : bool :=
  ((set a =? set b) && (unset a =? unset b))%bool.

(** The own properties of a fixed table keyed by name. *)
Fixpoint lookupName {A : Type} (tbl : list (string * A)) (k : string) : option A :=
  match tbl with
  | [] => None
  | (k', v) :: tbl' => if String.eqb k' k then Some v else lookupName tbl' k
  end.

(** [table[name]]: an entry of the table, or [undefined], or, for an
    unlisted name that the object literal inherits, a truthy value that
    is no entry of the table. *)
Inductive Property (A : Type) : Type :=
| Entry (a : A)
| Inherited
| Missing.
Arguments Entry {A} a.
Arguments Inherited {A}.
Arguments Missing {A}.

Definition readName {A : Type} (tbl : list (string * A)) (k : string) : Property A :=
  match lookupName tbl k with
  | Some v => Entry v
  | None => if Js.inherited k then Inherited else Missing
  end.

Definition availableForegroundColors : list (string * AnsiCodeConfig) :=
  [ ("black", {| set := 30; unset := 39 |});
    ("red", {| set := 31; unset := 39 |});
    ("green", {| set := 32; unset := 39 |});
    ("yellow", {| set := 33; unset := 39 |});
    ("blue", {| set := 34; unset := 39 |});
    ("magenta", {| set := 35; unset := 39 |});
    ("cyan", {| set := 36; unset := 39 |});
    ("white", {| set := 37; unset := 39 |});
    ("default", {| set := 39; unset := 39 |}) ].

Definition availableBackgroundColors : list (string * AnsiCodeConfig) :=
  [ ("black", {| set := 40; unset := 49 |});
    ("red", {| set := 41; unset := 49 |});
    ("green", {| set := 42; unset := 49 |});
    ("yellow", {| set := 43; unset := 49 |});
    ("blue", {| set := 44; unset := 49 |});
    ("magenta", {| set := 45; unset := 49 |});
    ("cyan", {| set := 46; unset := 49 |});
    ("white", {| set := 47; unset := 49 |});
    ("default", {| set := 49; unset := 49 |}) ].

Definition availableOptions : list (string * AnsiCodeConfig) :=
  [ ("bold", {| set := 1; unset := 22 |});
    ("underscore", {| set := 4; unset := 24 |});
    ("blink", {| set := 5; unset := 25 |});
    ("reverse", {| set := 7; unset := 27 |});
    ("dim", {| set := 2; unset := 22 |});
    ("conceal", {| set := 8; unset := 28 |}) ].

Record t : Type := {
  foreground : option AnsiCodeConfig;
  background : option AnsiCodeConfig;
  options : list AnsiCodeConfig
}.

(** A style object before its constructor body runs. *)
Definition blank : t :=
  {| foreground := None; background := None; options := [] |}.

Definition setForeground (color : option string) (s : t) : result t :=
  match color with
  | None => Ok {| foreground := None; background := background s; options := options s |}
  | Some c =>
      match readName availableForegroundColors c with
      | Missing => Throw ReferenceError
      | Entry cfg =>
          Ok {| foreground := Some cfg; background := background s; options := options s |}
      | Inherited => Throw Unmodelled (* the guard passes; no code pair is stored *)
      end
  end.

Definition setBackground (color : option string) (s : t) : result t :=
  match color with
  | None => Ok {| foreground := foreground s; background := None; options := options s |}
  | Some c =>
      match readName availableBackgroundColors c with
      | Missing => Throw ReferenceError
      | Entry cfg =>
          Ok {| foreground := foreground s; background := Some cfg; options := options s |}
      | Inherited => Throw Unmodelled (* the guard passes; no code pair is stored *)
      end
  end.

(** [arrContains]: the entries of [availableOptions] are distinct
    objects with distinct [set] codes, so identity is decided on the
    codes. *)
Definition arrContains (arr : list AnsiCodeConfig) (item : AnsiCodeConfig) : bool :=
  existsb (AnsiCodeConfig_eqb item) arr.

Definition setOption (option : string) (s : t) : result t :=
  match readName availableOptions option with
  | Missing => Throw ReferenceError
  | Entry cfg =>
      if arrContains (options s) cfg then Ok s
      else Ok {| foreground := foreground s; background := background s;
                 options := options s ++ [cfg] |}
  | Inherited => Throw Unmodelled (* the guard passes; no code pair is pushed *)
  end.

Definition unsetOption (option : string) (s : t) : result t :=
  match readName availableOptions option with
  | Missing => Throw ReferenceError
  | Entry cfg =>
      Ok {| foreground := foreground s; background := background s;
            options := List.filter (fun o => negb (AnsiCodeConfig_eqb o cfg)) (options s) |}
  | Inherited => Ok s (* no option set is that inherited value *)
  end.

Fixpoint setOptionsLoop (opts : list string) (s : t) : result t :=
  match opts with
  | [] => Ok s
  | o :: opts' => rbind (setOption o s) (setOptionsLoop opts')
  end.

Definition setOptions (opts : list string) (s : t) : result t :=
  setOptionsLoop opts
    {| foreground := foreground s; background := background s; options := [] |}.

(** [new OutputFormatterStyle(foreground, background, options)] *)
Definition new (fg bg : option string) (opts : list string) : result t :=
  rbind (match fg with Some _ => setForeground fg blank | None => Ok blank end) (fun s1 =>
  rbind (match bg with Some _ => setBackground bg s1 | None => Ok s1 end) (fun s2 =>
  match opts with
  | [] => Ok s2
  | _ => setOptions opts s2
  end)).

Definition setCodes (s : t) : list nat :=
  match foreground s with Some c => [set c] | None => [] end ++
  match background s with Some c => [set c] | None => [] end ++
  List.map set (options s).

Definition unsetCodes (s : t) : list nat :=
  match foreground s with Some c => [unset c] | None => [] end ++
  match background s with Some c => [unset c] | None => [] end ++
  List.map unset (options s).

Definition apply (s : t) (text : string) : string :=
  match setCodes s with
  | [] => text
  | _ =>
      Js.str1 Js.esc ++ "[" ++ Js.join ";" (List.map Js.ofNat (setCodes s)) ++ "m"
      ++ text
      ++ Js.str1 Js.esc ++ "[" ++ Js.join ";" (List.map Js.ofNat (unsetCodes s)) ++ "m"
  end.

End OutputFormatterStyle.

(** ** [OutputFormatterStyleStack] *)

Module OutputFormatterStyleStack.

(** [styles] is the array of the source: the bottom of the stack first,
    the top last. *)
Record t : Type := {
  styles : list OutputFormatterStyle.t;
  emptyStyle : OutputFormatterStyle.t
}.

Definition new (emptyStyle : option OutputFormatterStyle.t) : t :=
  {| styles := [];
     emptyStyle := match emptyStyle with
                   | Some s => s
                   | None => OutputFormatterStyle.blank
                   end |}.

Definition reset (st : t) : t :=
  {| styles := []; emptyStyle := emptyStyle st |}.

Definition push (style : OutputFormatterStyle.t) (st : t) : t :=
  {| styles := styles st ++ [style]; emptyStyle := emptyStyle st |}.

(** The loop [for (index = length - 1; index >= 0; index--)]: [n] is
    [index + 1]. *)
Fixpoint popSearch (style : OutputFormatterStyle.t)
    (arr : list OutputFormatterStyle.t) (n : nat)
  : option (nat * OutputFormatterStyle.t) :=
  match n with
  | O => None
  | S index =>
      match arr !! index with
      | Some stackedStyle =>
          if String.eqb (OutputFormatterStyle.apply style "")
                        (OutputFormatterStyle.apply stackedStyle "")
          then Some (index, stackedStyle)
          else popSearch style arr index
      | None => popSearch style arr index
      end
  end.

(** [pop(style = null)]: the popped style and the stack left. *)
Definition pop (style : option OutputFormatterStyle.t) (st : t)
  : result (OutputFormatterStyle.t * t) :=
  match styles st with
  | [] => Ok (emptyStyle st, st)
  | _ =>
      match style with
      | None =>
          Ok (List.last (styles st) (emptyStyle st),
              {| styles := List.removelast (styles st); emptyStyle := emptyStyle st |})
      | Some style =>
          match popSearch style (styles st) (length (styles st)) with
          | Some (index, stackedStyle) =>
              Ok (stackedStyle, {| styles := take index (styles st);
                                   emptyStyle := emptyStyle st |})
          | None => Throw SyntaxError
          end
      end
  end.

Definition getCurrent (st : t) : OutputFormatterStyle.t :=
  match styles st with
  | [] => emptyStyle st
  | _ =>
      match styles st !! (length (styles st) - 1) with
      | Some s => s
      | None => emptyStyle st
      end
  end.

Definition setEmptyStyle (emptyStyle : OutputFormatterStyle.t) (st : t) : t :=
  {| styles := styles st; emptyStyle := emptyStyle |}.

Definition getEmptyStyle (st : t) : OutputFormatterStyle.t := emptyStyle st.

End OutputFormatterStyleStack.

(** ** [OutputFormatter] *)

Module OutputFormatter.

(** [styles] holds the own properties of the object literal
    [this.styles]; [prototype] is the style that an assignment to the
    key [__proto__] has made the prototype of that object, if any. *)
Record t : Type := {
  decorated : bool;
  styles : gmap string OutputFormatterStyle.t;
  prototype : option OutputFormatterStyle.t;
  styleStack : OutputFormatterStyleStack.t
}.

Definition setDecorated (d : bool) (f : t) : t :=
  {| decorated := d; styles := styles f; prototype := prototype f;
     styleStack := styleStack f |}.

Definition isDecorated (f : t) : bool := decorated f.

(** [this.styles[key] = style]: without an own property of that name,
    the key [__proto__] reaches the setter that every object literal
    inherits, and the style becomes the prototype of [this.styles]. *)
Definition assignStyle (key : string) (style : OutputFormatterStyle.t) (f : t) : t :=
  match styles f !! key with
  | None =>
      if String.eqb key "__proto__"
      then {| decorated := decorated f; styles := styles f; prototype := Some style;
              styleStack := styleStack f |}
      else {| decorated := decorated f; styles := <[key := style]> (styles f);
              prototype := prototype f; styleStack := styleStack f |}
  | Some _ =>
      {| decorated := decorated f; styles := <[key := style]> (styles f);
         prototype := prototype f; styleStack := styleStack f |}
  end.

Definition setStyle (name : string) (style : OutputFormatterStyle.t) (f : t) : t :=
  assignStyle (Js.toLowerCase name) style f.

(** What [this.styles[key]] gives: a style, a truthy value that is no
    style, or a falsy value ([undefined], [null]). *)
Inductive Registered : Type :=
| Style (s : OutputFormatterStyle.t)
| Foreign
| Absent.

(** The methods of a style object *)
Definition styleMethods : list string :=
  [ "constructor"; "setForeground"; "setBackground"; "setOption"; "unsetOption";
    "setOptions"; "apply" ].

(** A key that is no own property of [this.styles], read through its
    prototype chain: the style made its prototype (its fields, then its
    methods), then what every object literal inherits. *)
Definition readInherited (proto : option OutputFormatterStyle.t) (key : string)
  : Registered :=
  match proto with
  | None => if Js.inherited key then Foreign else Absent
  | Some s =>
      if String.eqb key "__proto__" then Style s
      else if String.eqb key "foreground" then
        match OutputFormatterStyle.foreground s with Some _ => Foreign | None => Absent end
      else if String.eqb key "background" then
        match OutputFormatterStyle.background s with Some _ => Foreign | None => Absent end
      else if String.eqb key "options" then Foreign
      else if (existsb (String.eqb key) styleMethods || Js.inherited key)%bool then Foreign
      else Absent
  end.

(** [this.styles[key]] *)
Definition readStyle (key : string) (f : t) : Registered :=
  match styles f !! key with
  | Some s => Style s
  | None => readInherited (prototype f) key
  end.

(** [!!this.styles[name.toLowerCase()]] *)
Definition hasStyle (name : string) (f : t) : bool :=
  match readStyle (Js.toLowerCase name) f with
  | Style _ | Foreign => true
  | Absent => false
  end.

Definition getStyle (name : string) (f : t) : result OutputFormatterStyle.t :=
  if negb (hasStyle name f) then Throw ReferenceError
  else match readStyle (Js.toLowerCase name) f with
       | Style s => Ok s
       | Foreign => Throw Unmodelled (* what is returned is no style *)
       | Absent => Throw ReferenceError
       end.

Definition styleOf (r : result OutputFormatterStyle.t) : OutputFormatterStyle.t :=
  match r with
  | Ok s => s
  | Throw _ => OutputFormatterStyle.blank
  end.

(** [new OutputFormatter(decorated, styles)]; [styles] lists the own
    keys of the argument in their enumeration order. *)
Definition new (decorated : bool) (styles : list (string * OutputFormatterStyle.t)) : t :=
  let f0 := {| decorated := decorated; styles := ∅; prototype := None;
               styleStack := OutputFormatterStyleStack.new None |} in
  let f1 := setStyle "error" (styleOf (OutputFormatterStyle.new (Some "white") (Some "red") [])) f0 in
  let f2 := setStyle "info" (styleOf (OutputFormatterStyle.new (Some "green") None [])) f1 in
  let f3 := setStyle "comment" (styleOf (OutputFormatterStyle.new (Some "yellow") None [])) f2 in
  let f4 := setStyle "question" (styleOf (OutputFormatterStyle.new (Some "black") (Some "cyan") [])) f3 in
  List.fold_left (fun f '(name, style) => setStyle name style f) styles f4.

(** *** [escape] and [escapeTrailingBackslash] *)

(** [text.replace(/([^\\]?)</g, '$1\\<')]: at a position, the regex
    first tries one code unit other than a backslash followed by [<],
    and only then a bare [<]. *)
Fixpoint escapeLt (text : string) : string :=
  match text with
  | "" => ""
  | String c (String d rest as text') =>
      if (negb (Ascii.eqb c Js.backslash) && Ascii.eqb d Js.lt)%bool
      then String c (String Js.backslash (String Js.lt (escapeLt rest)))
      else if Ascii.eqb c Js.lt
      then String Js.backslash (String Js.lt (escapeLt text'))
      else String c (escapeLt text')
  | String c "" =>
      if Ascii.eqb c Js.lt then String Js.backslash (String Js.lt "") else String c ""
  end.

(** [trimEnd(str, charlist)] for a [charlist] of plain characters: the
    built regex is the class of these characters, one or more times, at
    the end of the input. *)
Fixpoint trimEnd (str charlist : string) : string :=
  match str with
  | "" => ""
  | String c str' =>
      match trimEnd str' charlist with
      | "" => if Js.includes (Js.str1 c) charlist then "" else String c ""
      | kept => String c kept
      end
  end.

Definition escapeTrailingBackslash (text : string) : string :=
  match Js.lastChar text with
  | Some c =>
      if Ascii.eqb c Js.backslash then
        let len := String.length text in
        let text' := trimEnd text (Js.str1 Js.backslash) in
        text' ++ Js.repeat "<<" (len - String.length text')
      else text
  | None => text
  end.

Definition escape (text : string) : string :=
  escapeTrailingBackslash (escapeLt text).

(** *** The tag regex of [format]

    With [tagRegex] the class [[a-z]] followed by any number of
    [[a-z0-9,_=;-]], the regex is [<((tagRegex)|\/(tagRegex)?)>] with the
    flags [gi].  Without the [u] flag the case-insensitive classes match the
    ASCII letters of both cases and nothing beyond ASCII. *)

Definition isTagStart (c : ascii) : bool :=
  (Js.between "a" "z" c || Js.between "A" "Z" c)%bool.

Definition isTagChar (c : ascii) : bool :=
  (isTagStart c || Js.between "0" "9" c
   || Ascii.eqb c "," || Ascii.eqb c "_" || Ascii.eqb c "="
   || Ascii.eqb c ";" || Ascii.eqb c "-")%bool.

(** The longest run of tag characters at the start of [s], and what
    follows it. *)
Fixpoint spanTagChars (s : string) : string * string :=
  match s with
  | String c s' =>
      if isTagChar c
      then let '(run, rest) := spanTagChars s' in (String c run, rest)
      else ("", s)
  | "" => ("", "")
  end.

Record TagMatch : Type := {
  index : nat;              (* match.index *)
  text : string;            (* match[0] *)
  group1 : string;          (* match[1] *)
  group3 : option string    (* match[3], None when undefined *)
}.

(** A match of the tag regex at the very start of [s]. *)
Definition tagAt (pos : nat) (s : string) : option TagMatch :=
  match s with
  | String "<" (String c r) =>
      if isTagStart c then
        let '(run, rest) := spanTagChars r in
        if Js.startsWith ">" rest
        then Some {| index := pos; text := "<" ++ String c run ++ ">";
                     group1 := String c run; group3 := None |}
        else None
      else if Ascii.eqb c Js.slash then
        match r with
        | String d r' =>
            if isTagStart d then
              let '(run, rest) := spanTagChars r' in
              if Js.startsWith ">" rest
              then Some {| index := pos; text := "</" ++ String d run ++ ">";
                           group1 := "/" ++ String d run;
                           group3 := Some (String d run) |}
              else None
            else if Ascii.eqb d Js.gt
            then Some {| index := pos; text := "</>"; group1 := "/"; group3 := None |}
            else None
        | "" => None
        end
      else None
  | _ => None
  end.

(** The successive results of [tagsRegex.exec(message)]: leftmost
    first, each search resuming where the previous match ended. *)
Fixpoint tagMatchesFrom (pos skip : nat) (s : string) : list TagMatch :=
  match s with
  | "" => []
  | String _ s' =>
      match skip with
      | S k => tagMatchesFrom (S pos) k s'
      | O =>
          match tagAt pos s with
          | Some m => m :: tagMatchesFrom (S pos) (String.length (text m) - 1) s'
          | None => tagMatchesFrom (S pos) 0 s'
          end
      end
  end.

Definition tagMatches (message : string) : list TagMatch :=
  tagMatchesFrom 0 0 message.

(** *** [createStyleFromString] *)

(** The longest prefix of [s] without [c], and the rest. *)
Fixpoint spanNot (c : ascii) (s : string) : string * string :=
  match s with
  | String d s' =>
      if Ascii.eqb d c then ("", s)
      else let '(run, rest) := spanNot c s' in (String d run, rest)
  | "" => ("", "")
  end.

(** A match of [/([^=]+)=([^;]+)(;|$)/] at the very start of [s]:
    groups 1 and 2 and the length of the match. *)
Definition styleClauseAt (s : string) : option (string * string * nat) :=
  let '(g1, r1) := spanNot "=" s in
  match g1, r1 with
  | String _ _, String _ r2 =>
      let '(g2, r3) := spanNot ";" r2 in
      match g2 with
      | "" => None
      | _ =>
          Some (g1, g2,
                String.length g1 + 1 + String.length g2
                + match r3 with "" => 0 | _ => 1 end)
      end
  | _, _ => None
  end.

(** The successive results of [styleRegex.exec(str)]. *)
Fixpoint styleClausesFrom (skip : nat) (s : string) : list (string * string) :=
  match s with
  | "" => []
  | String _ s' =>
      match skip with
      | S k => styleClausesFrom k s'
      | O =>
          match styleClauseAt s with
          | Some (g1, g2, len) => (g1, g2) :: styleClausesFrom (len - 1) s'
          | None => styleClausesFrom 0 s'
          end
      end
  end.

Definition styleClauses (str : string) : list (string * string) :=
  styleClausesFrom 0 str.

(** [v.match(/([^,;]+)/g)]: the maximal runs without [,] and [;];
    the empty list stands for the [null] of a search without match. *)
Fixpoint optionNamesAcc (cur : string) (s : string) : list string :=
  match s with
  | "" => match cur with "" => [] | _ => [cur] end
  | String c s' =>
      if (Ascii.eqb c "," || Ascii.eqb c ";")%bool
      then match cur with
           | "" => optionNamesAcc "" s'
           | _ => cur :: optionNamesAcc "" s'
           end
      else optionNamesAcc (cur ++ Js.str1 c) s'
  end.

Definition optionNames (v : string) : list string := optionNamesAcc "" v.

(** The loop over the option names, with its [try]/[catch]: [Ok None]
    is the [return false] of the handler, which catches whatever
    [setOption] throws. *)
Fixpoint setEachOption (opts : list string) (style : OutputFormatterStyle.t)
  : result (option OutputFormatterStyle.t) :=
  match opts with
  | [] => Ok (Some style)
  | o :: opts' =>
      match OutputFormatterStyle.setOption o style with
      | Ok style' => setEachOption opts' style'
      | Throw Unmodelled => Throw Unmodelled
      | Throw _ => Ok None
      end
  end.

(** The body of the [while] loop over the clauses; [Ok None] is
    [return false]. *)
Fixpoint applyClauses (clauses : list (string * string)) (style : OutputFormatterStyle.t)
  : result (option OutputFormatterStyle.t) :=
  match clauses with
  | [] => Ok (Some style)
  | (k, v) :: clauses' =>
      if String.eqb "fg" k then
        rbind (OutputFormatterStyle.setForeground (Some v) style) (applyClauses clauses')
      else if String.eqb "bg" k then
        rbind (OutputFormatterStyle.setBackground (Some v) style) (applyClauses clauses')
      else if String.eqb "options" k then
        match optionNames v with
        | [] => Throw TypeError (* Array.from(null) *)
        | opts =>
            rbind (setEachOption opts style) (fun set =>
            match set with
            | Some style' => applyClauses clauses' style'
            | None => Ok None
            end)
        end
      else Ok None
  end.

Definition createStyleFromString (str : string) (f : t)
  : result (option OutputFormatterStyle.t) :=
  match readStyle str f with
  | Style s => Ok (Some s)
  | Foreign => Throw Unmodelled (* what is returned is no style *)
  | Absent =>
      match styleClauses str with
      | [] => Ok None
      | clauses => applyClauses clauses OutputFormatterStyle.blank
      end
  end.

(** *** [format] *)

Definition applyCurrentStyle (text : string) (f : t) : string :=
  if (isDecorated f && (0 <? String.length text))%bool
  then OutputFormatterStyle.apply (OutputFormatterStyleStack.getCurrent (styleStack f)) text
  else text.

Definition setStyleStack (st : OutputFormatterStyleStack.t) (f : t) : t :=
  {| decorated := decorated f; styles := styles f; prototype := prototype f;
     styleStack := st |}.

Definition stackPush (style : OutputFormatterStyle.t) : M t unit :=
  modify (fun f => setStyleStack (OutputFormatterStyleStack.push style (styleStack f)) f).

Definition stackPop (style : option OutputFormatterStyle.t) : M t unit :=
  fun f =>
    match OutputFormatterStyleStack.pop style (styleStack f) with
    | Ok (_, st) => (Ok tt, setStyleStack st f)
    | Throw e => (Throw e, f)
    end.

(** The local variables of [format] that the loop updates. *)
Record Loop : Type := { offset : nat; output : string }.

Definition escaped (message : string) (pos : nat) : bool :=
  (negb (pos =? 0)
   && match Js.charAt message (pos - 1) with
      | Some c => Ascii.eqb c Js.backslash
      | None => false
      end)%bool.

(** ['/' !== text[1]] *)
Definition opening (text : string) : bool :=
  negb (match Js.charAt text 1 with
        | Some c => Ascii.eqb c Js.slash
        | None => false
        end).

(** One iteration of the [while] loop, for the match [m]. *)
Definition formatStep (message : string) (m : TagMatch) (l : Loop) : M t Loop :=
  let pos := index m in
  if escaped message pos then ret l
  else
    f <- get ;;
    let output1 :=
      output l ++ applyCurrentStyle (Js.substr message (offset l) (pos - offset l)) f in
    let offset1 := pos + String.length (text m) in
    let open := opening (text m) in
    let tag := if open then group1 m
               else match group3 m with Some g => g | None => "" end in
    style <- lift (createStyleFromString (Js.toLowerCase tag) f) ;;
    if (negb open && (String.length tag =? 0))%bool then
      stackPop None ;;; ret {| offset := offset1; output := output1 |}
    else
      match style with
      | None =>
          ret {| offset := offset1; output := output1 ++ applyCurrentStyle (text m) f |}
      | Some style =>
          if open
          then stackPush style ;;; ret {| offset := offset1; output := output1 |}
          else stackPop (Some style) ;;; ret {| offset := offset1; output := output1 |}
      end.

(** [new RegExp(key, 'g')] for a key made of literal characters and
    identity escapes: the literal it matches.  A backslash makes the
    next character literal, so the key [\<] matches a bare [<]. *)
Fixpoint regexLiteral (key : string) : string :=
  match key with
  | "" => ""
  | String c (String d rest as key') =>
      if Ascii.eqb c Js.backslash then String d (regexLiteral rest)
      else String c (regexLiteral key')
  | String c "" => String c ""
  end.

(** [safeReplace]: the pairs are applied one after the other, in the
    enumeration order of the keys. *)
Definition safeReplace (str : string) (replacePairs : list (string * string)) : string :=
  List.fold_left (fun s '(key, by_) => Js.replaceAll (regexLiteral key) by_ s)
                 replacePairs str.

Definition unescape (output : string) : string :=
  if Js.includes "<<" output
  then safeReplace output
         [ (String Js.backslash "<", "<"); ("<<", Js.str1 Js.backslash) ]
  else Js.replaceAll (String Js.backslash "<") "<" output.

Definition format (message : string) : M t string :=
  l <- foldM (formatStep message) (tagMatches message) {| offset := 0; output := "" |} ;;
  f <- get ;;
  ret (unescape (output l ++ applyCurrentStyle (Js.sliceFrom (offset l) message) f)).

End OutputFormatter.

(** ** [Helper]: decoration removal *)

Module Helper.

(** [str.replace(/\033\[[^m]*m/g, '')]: [dropping] says that the
    scan is inside a match, before its closing [m]. *)
Fixpoint stripAnsiFrom (dropping : bool) (s : string) : string :=
  match s with
  | "" => ""
  | String c s' =>
      if dropping then
        if Ascii.eqb c "m" then stripAnsiFrom false s' else stripAnsiFrom true s'
      else if (Ascii.eqb c Js.esc && Js.startsWith "[" s'
               && Js.includes "m" (Js.sliceFrom 1 s'))%bool
      then stripAnsiFrom true s'
      else String c (stripAnsiFrom false s')
  end.

Definition stripAnsi (s : string) : string := stripAnsiFrom false s.

Definition removeDecoration (str : string) : M OutputFormatter.t string :=
  f <- get ;;
  let isDecorated := OutputFormatter.isDecorated f in
  modify (OutputFormatter.setDecorated false) ;;;
  str1 <- OutputFormatter.format str ;;
  let str2 := stripAnsi str1 in
  modify (OutputFormatter.setDecorated isDecorated) ;;;
  ret str2.

Definition lengthWithoutDecoration (str : string) : M OutputFormatter.t nat :=
  str' <- removeDecoration str ;;
  ret (String.length str').

(** [range(from, to)] on integers: ascending when [from < to];
    otherwise the downward loop from [to] runs while [i >= from]. *)
Definition range (from to : Z) : list Z :=
  if (from <? to)%Z then seqZ from (to - from + 1)
  else if (from <=? to)%Z then [to]
  else [].

(** [countOccurences(haystack, needle)] with the default offset and
    length: [None] is [false]. *)
Fixpoint countFrom (needle s : string) : nat :=
  match s with
  | "" => 0
  | String _ s' => (if Js.startsWith needle s then 1 else 0) + countFrom needle s'
  end.

Definition countOccurences (haystack needle : string) : option nat :=
  match needle with
  | "" => None
  | _ => Some (countFrom needle haystack)
  end.

(** [chunkString(string, splitLength)] for [1 <= splitLength]: [room]
    is what the chunk being filled can still take. *)
Fixpoint chunkFrom (size room : nat) (cur s : string) : list string :=
  match s with
  | "" => match cur with "" => [] | _ => [cur] end
  | String c s' =>
      match room with
      | S (S r) => chunkFrom size (S r) (cur ++ Js.str1 c) s'
      | _ => (cur ++ Js.str1 c) :: chunkFrom size size "" s'
      end
  end.

Definition chunkString (s : string) (splitLength : Z) : option (list string) :=
  if (splitLength <? 1)%Z then None
  else Some (chunkFrom (Z.to_nat splitLength) (Z.to_nat splitLength) "" s).

(** [sprintf(format, ...args)] for the templates whose percent signs
    all belong to a plain [%s] or to [%%]: each [%s] takes the next
    argument as it is, and [%%] is a percent sign.  Any other template
    is left to the full function. *)
Fixpoint sprintfS (format : string) (args : list string) : result string :=
  match format with
  | "" => Ok ""
  | String "%" (String "s" rest) =>
      match args with
      | a :: args' => rbind (sprintfS rest args') (fun out => Ok (a ++ out))
      | [] => Throw TypeError
      end
  | String "%" (String "%" rest) =>
      rbind (sprintfS rest args) (fun out => Ok (String "%" out))
  | String "%" _ => Throw Unmodelled
  | String c rest => rbind (sprintfS rest args) (fun out => Ok (String c out))
  end.

(** [_strPadRepeater(s, len)] for a non-empty [s] (with an empty [s]
    and a positive [len] the loop of the source does not end). *)
Definition strPadRepeater (s : string) (len : nat) : string :=
  Js.sliceTo len (Js.repeat s len).

Inductive PAD_TYPE : Type := STR_PAD_LEFT | STR_PAD_RIGHT | STR_PAD_BOTH.

(** [strPad(input, padLength, padString, padType)]; [padLength] is
    [None] for a length that is not a number. *)
Definition strPad (input : string) (padLength : option Z) (padString : string)
    (padType : PAD_TYPE) : string :=
  match padLength with
  | None => input
  | Some padLength =>
      let padToGo := (padLength - Z.of_nat (String.length input))%Z in
      if (0 <? padToGo)%Z then
        match padType with
        | STR_PAD_LEFT => strPadRepeater padString (Z.to_nat padToGo) ++ input
        | STR_PAD_RIGHT => input ++ strPadRepeater padString (Z.to_nat padToGo)
        | STR_PAD_BOTH =>
            let half := strPadRepeater padString (Z.to_nat ((padToGo + 1) / 2)) in
            Js.sliceTo (Z.to_nat padLength) (half ++ input ++ half)
        end
      else input
  end.

(** The table of [formatTime]: the least number of seconds of a
    bracket, its label, and, for a label that takes a number, the
    seconds in its unit. *)
Definition timeFormats : list (Z * string * option Z) :=
  [ (0, "< 1 sec", None); (1, "1 sec", None); (2, "secs", Some 1);
    (60, "1 min", None); (120, "mins", Some 60);
    (3600, "1 hr", None); (7200, "hrs", Some 3600);
    (86400, "1 day", None); (172800, "days", Some 86400) ]%Z.

(** The loop of [formatTime] over the table, from an entry on; [None]
    is the [undefined] of a loop that ends without [return]. *)
Fixpoint formatTimeFrom (secs : Z) (formats : list (Z * string * option Z))
  : option string :=
  match formats with
  | [] => None
  | (from, label, unit) :: rest =>
      if ((from <=? secs)%Z
          && match rest with
             | (next, _, _) :: _ => (secs <? next)%Z
             | [] => true
             end)%bool
      then Some (match unit with
                 | None => label
                 | Some u => Js.ofNat (Z.to_nat (secs / u)) ++ " " ++ label
                 end)
      else formatTimeFrom secs rest
  end.

(** [formatTime(secs)] for a whole number of seconds that a number
    holds exactly (up to 2^53); past that, the quotient and its decimal
    form are not those of the integers. *)
Definition formatTime (secs : Z) : result (option string) :=
  if (2 ^ 53 <? Z.abs secs)%Z then Throw Unmodelled
  else Ok (formatTimeFrom secs timeFormats).

End Helper.


(** ** Sample objects *)

Module Samples.

(** The four styles every formatter registers. *)
Definition error : OutputFormatterStyle.t :=
  OutputFormatter.styleOf (OutputFormatterStyle.new (Some "white") (Some "red") []).
Definition info : OutputFormatterStyle.t :=
  OutputFormatter.styleOf (OutputFormatterStyle.new (Some "green") None []).
Definition comment : OutputFormatterStyle.t :=
  OutputFormatter.styleOf (OutputFormatterStyle.new (Some "yellow") None []).
Definition question : OutputFormatterStyle.t :=
  OutputFormatter.styleOf (OutputFormatterStyle.new (Some "black") (Some "cyan") []).

(** [new OutputFormatter(false)] and [new OutputFormatter(true)] *)
Definition plain : OutputFormatter.t := OutputFormatter.new false [].
Definition colored : OutputFormatter.t := OutputFormatter.new true [].


End Samples.

(** ** [ProgressBar] *)

Module ProgressBar.

(** The fields that [setProgress] reads or assigns.  [redraws] counts
    the calls of [display()]: that method builds the line and writes it
    to the output; it assigns none of the other fields kept here, and it
    can throw (a placeholder that cannot be rendered, a message that
    cannot be formatted). *)
Record t : Type := {
  step : Z;
  max : Z;
  redrawFreq : Q;
  percent : Q;
  stepWidth : nat;
  shouldOverwrite : bool;
  startTime : Z;
  redraws : nat
}.

(** [Math.round]: to the nearest integer, halves upwards. *)
Definition round (q : Q) : Z := Qfloor (q + (1 # 2)).

(** [display()]; [thrown] is what the rendering throws, if anything:
    it depends on the format, the messages and the output, which are
    not kept here. *)
Definition display (thrown : option Error) : M t unit :=
  fun b =>
    (match thrown with Some e => Throw e | None => Ok tt end,
     {| step := step b; max := max b; redrawFreq := redrawFreq b; percent := percent b;
        stepWidth := stepWidth b; shouldOverwrite := shouldOverwrite b;
        startTime := startTime b; redraws := S (redraws b) |}).

Definition setRedrawFrequency (freq : Q) (b : t) : t :=
  {| step := step b; max := max b;
     redrawFreq := if Qle_bool freq 1 then 1%Q else freq;
     percent := percent b; stepWidth := stepWidth b;
     shouldOverwrite := shouldOverwrite b; startTime := startTime b;
     redraws := redraws b |}.

Definition setOverwrite (overwrite : bool) (b : t) : t :=
  {| step := step b; max := max b; redrawFreq := redrawFreq b; percent := percent b;
     stepWidth := stepWidth b; shouldOverwrite := overwrite;
     startTime := startTime b; redraws := redraws b |}.

Definition setMaxSteps (m : Z) (b : t) : t :=
  let max' := Z.max 0 m in
  {| step := step b; max := max'; redrawFreq := redrawFreq b; percent := percent b;
     stepWidth := if (max' =? 0)%Z then 4 else String.length (Js.ofNat (Z.to_nat max'));
     shouldOverwrite := shouldOverwrite b; startTime := startTime b;
     redraws := redraws b |}.

(** [new ProgressBar(output, max)]: [decorated] is
    [output.isDecorated()], [now] the clock. *)
Definition new (decorated : bool) (m : Z) (now : Z) : t :=
  let b0 := {| step := 0; max := 0; redrawFreq := 1; percent := 0; stepWidth := 4;
               shouldOverwrite := true; startTime := now; redraws := 0 |} in
  let b1 := setMaxSteps m b0 in
  if decorated then b1
  else setRedrawFrequency (inject_Z m / 10) (setOverwrite false b1).

Definition setProgress (s : Z) (thrown : option Error) : M t unit :=
  fun b =>
    let '(max', s') :=
      if (negb (max b =? 0) && (max b <? s))%Z%bool then (s, s)
      else if (s <? 0)%Z then (max b, 0%Z)
      else (max b, s) in
    let prevPeriod := round (inject_Z (step b) / redrawFreq b) in
    let currPeriod := round (inject_Z s' / redrawFreq b) in
    let b' := {| step := s'; max := max';
                 redrawFreq := redrawFreq b;
                 percent := if (max' =? 0)%Z then 0%Q else (inject_Z s' / inject_Z max')%Q;
                 stepWidth := stepWidth b; shouldOverwrite := shouldOverwrite b;
                 startTime := startTime b; redraws := redraws b |} in
    if (negb (prevPeriod =? currPeriod) || (max' =? s'))%Z%bool
    then display thrown b'
    else (Ok tt, b').

Definition advance (s : Z) (thrown : option Error) : M t unit :=
  fun b => setProgress (step b + s) thrown b.

(** [start(max)]: [None] is the default [null]. *)
Definition start (m : option Z) (now : Z) (thrown : option Error) : M t unit :=
  fun b =>
    let b1 := {| step := 0; max := max b; redrawFreq := redrawFreq b; percent := 0;
                 stepWidth := stepWidth b; shouldOverwrite := shouldOverwrite b;
                 startTime := now; redraws := redraws b |} in
    display thrown (match m with Some m' => setMaxSteps m' b1 | None => b1 end).

Definition finish (thrown : option Error) : M t unit :=
  fun b =>
    let b1 := if (max b =? 0)%Z
              then {| step := step b; max := step b; redrawFreq := redrawFreq b;
                      percent := percent b; stepWidth := stepWidth b;
                      shouldOverwrite := shouldOverwrite b; startTime := startTime b;
                      redraws := redraws b |}
              else b in
    if ((step b1 =? max b1)%Z && negb (shouldOverwrite b1))%bool then (Ok tt, b1)
    else setProgress (max b1) thrown b1.

(** The bars a program can hold: built by the constructor and driven
    through the public methods, whether a call returns or throws. *)
Inductive reachable : t -> Prop :=
| reachable_new (decorated : bool) (m now : Z) : reachable (new decorated m now)
| reachable_start (b : t) (m : option Z) (now : Z) (thrown : option Error) :
    reachable b -> reachable (snd (start m now thrown b))
| reachable_advance (b : t) (s : Z) (thrown : option Error) :
    reachable b -> reachable (snd (advance s thrown b))
| reachable_setProgress (b : t) (s : Z) (thrown : option Error) :
    reachable b -> reachable (snd (setProgress s thrown b))
| reachable_finish (b : t) (thrown : option Error) :
    reachable b -> reachable (snd (finish thrown b))
| reachable_display (b : t) (thrown : option Error) :
    reachable b -> reachable (snd (display thrown b))
| reachable_setRedrawFrequency (b : t) (freq : Q) :
    reachable b -> reachable (setRedrawFrequency freq b)
| reachable_setOverwrite (b : t) (o : bool) : reachable b -> reachable (setOverwrite o b).

(** The fields of a bar that only its rendering reads. *)
Record Look : Type := {
  barWidth : Z;
  barChar : option string;   (* [None] until [setBarCharacter] is called *)
  emptyBarChar : string;
  progressChar : string
}.

(** The look of a new bar *)
Definition defaultLook : Look :=
  {| barWidth := 28; barChar := None; emptyBarChar := "-"; progressChar := ">" |}.

Definition setBarWidth (size : Z) (k : Look) : Look :=
  {| barWidth := Z.max 1 size; barChar := barChar k;
     emptyBarChar := emptyBarChar k; progressChar := progressChar k |}.

Definition getBarCharacter (b : t) (k : Look) : string :=
  match barChar k with
  | None => if (max b =? 0)%Z then emptyBarChar k else "="
  | Some c => c
  end.

(** [s.repeat(count)] for a whole count: a negative one is a range
    error. *)
Definition repeated (s : string) (count : Z) : result string :=
  if (count <? 0)%Z then Throw RangeError else Ok (Js.repeat s (Z.to_nat count)).

Section Bar.

(** [scale p w] is [Math.floor(p * w)] for the progress [p] and the bar
    width [w]. The code multiplies doubles, and the product of the
    double nearest to [p] with [w] is rounded once more before the
    floor is taken (57/100 times 100 gives 56), so the function is left
    open here. *)
Variable scale : Q -> Z -> Z.

(** The formatter of the placeholder [bar]; the state is the formatter
    of the output. *)
Definition barPlaceholder (b : t) (k : Look) : M OutputFormatter.t string :=
  let completeBars :=
    if (0 <? max b)%Z then scale (percent b) (barWidth k)
    else Z.rem (step b) (barWidth k) in
  display <- lift (repeated (getBarCharacter b k) completeBars) ;;
  if (completeBars <? barWidth k)%Z then
    len <- Helper.lengthWithoutDecoration (progressChar k) ;;
    empties <- lift (repeated (emptyBarChar k)
                       (barWidth k - completeBars - Z.of_nat len)) ;;
    ret (display ++ progressChar k ++ empties)
  else ret display.

End Bar.

(** The floor of the product, without the rounding of doubles *)
Definition exactScale (p : Q) (w : Z) : Z := Qfloor (p * inject_Z w).

End ProgressBar.

(** ** [TableStyle] *)

Module TableStyle.

Record t : Type := {
  paddingChar : string;
  horizontalBorderChar : string;
  verticalBorderChar : string;
  crossingChar : string;
  cellHeaderFormat : string;
  cellRowFormat : string;
  cellRowContentFormat : string;
  borderFormat : string;
  padType : Helper.PAD_TYPE
}.

(** [new TableStyle()] *)
Definition new : t :=
  {| paddingChar := " ";
     horizontalBorderChar := "-";
     verticalBorderChar := "|";
     crossingChar := "+";
     cellHeaderFormat := "<info>%s</info>";
     cellRowFormat := "%s";
     cellRowContentFormat := " %s ";
     borderFormat := "%s";
     padType := Helper.STR_PAD_RIGHT |}.

Definition setPaddingChar (c : string) (s : t) : result t :=
  match c with
  | "" => Throw PlainError
  | _ => Ok {| paddingChar := c;
               horizontalBorderChar := horizontalBorderChar s;
               verticalBorderChar := verticalBorderChar s;
               crossingChar := crossingChar s;
               cellHeaderFormat := cellHeaderFormat s;
               cellRowFormat := cellRowFormat s;
               cellRowContentFormat := cellRowContentFormat s;
               borderFormat := borderFormat s;
               padType := padType s |}
  end.

Definition setHorizontalBorderChar (c : string) (s : t) : t :=
  {| paddingChar := paddingChar s; horizontalBorderChar := c;
     verticalBorderChar := verticalBorderChar s; crossingChar := crossingChar s;
     cellHeaderFormat := cellHeaderFormat s; cellRowFormat := cellRowFormat s;
     cellRowContentFormat := cellRowContentFormat s; borderFormat := borderFormat s;
     padType := padType s |}.

Definition setVerticalBorderChar (c : string) (s : t) : t :=
  {| paddingChar := paddingChar s; horizontalBorderChar := horizontalBorderChar s;
     verticalBorderChar := c; crossingChar := crossingChar s;
     cellHeaderFormat := cellHeaderFormat s; cellRowFormat := cellRowFormat s;
     cellRowContentFormat := cellRowContentFormat s; borderFormat := borderFormat s;
     padType := padType s |}.

Definition setCrossingChar (c : string) (s : t) : t :=
  {| paddingChar := paddingChar s; horizontalBorderChar := horizontalBorderChar s;
     verticalBorderChar := verticalBorderChar s; crossingChar := c;
     cellHeaderFormat := cellHeaderFormat s; cellRowFormat := cellRowFormat s;
     cellRowContentFormat := cellRowContentFormat s; borderFormat := borderFormat s;
     padType := padType s |}.

Definition setCellHeaderFormat (fmt : string) (s : t) : t :=
  {| paddingChar := paddingChar s; horizontalBorderChar := horizontalBorderChar s;
     verticalBorderChar := verticalBorderChar s; crossingChar := crossingChar s;
     cellHeaderFormat := fmt; cellRowFormat := cellRowFormat s;
     cellRowContentFormat := cellRowContentFormat s; borderFormat := borderFormat s;
     padType := padType s |}.

Definition setCellRowContentFormat (fmt : string) (s : t) : t :=
  {| paddingChar := paddingChar s; horizontalBorderChar := horizontalBorderChar s;
     verticalBorderChar := verticalBorderChar s; crossingChar := crossingChar s;
     cellHeaderFormat := cellHeaderFormat s; cellRowFormat := cellRowFormat s;
     cellRowContentFormat := fmt; borderFormat := borderFormat s;
     padType := padType s |}.

(** The styles of [Table.initStyles]. *)
Definition default : t := new.

Definition borderless : t :=
  setCrossingChar " " (setVerticalBorderChar " " (setHorizontalBorderChar "=" new)).

Definition compact : t :=
  setCellRowContentFormat "%s"
    (setCrossingChar "" (setVerticalBorderChar " " (setHorizontalBorderChar "" new))).

Definition styleGuide : t :=
  setCellHeaderFormat "%s"
    (setCrossingChar " " (setVerticalBorderChar " " (setHorizontalBorderChar "-" new))).

End TableStyle.

(** ** [Output] *)

Module Output.

Definition VERBOSITY_QUIET : Z := 16.
Definition VERBOSITY_NORMAL : Z := 32.
Definition VERBOSITY_VERBOSE : Z := 64.
Definition VERBOSITY_VERY_VERBOSE : Z := 128.
Definition VERBOSITY_DEBUG : Z := 256.

(** A label of the model, kept with each written line: the method of
    the table that asked for it.  The program does not read it. *)
Inductive Origin : Type := Border | Content.

(** [written] is the sequence of the calls [doWrite(message, newline)]. *)
Record t : Type := {
  formatter : OutputFormatter.t;
  verbosity : Z;
  written : list (Origin * string * bool)
}.

Definition new (verbosity : Z) (decorated : bool) : t :=
  {| formatter := OutputFormatter.setDecorated decorated (OutputFormatter.new false []);
     verbosity := verbosity;
     written := [] |}.

Definition getFormatter (o : t) : OutputFormatter.t := formatter o.

(** [write(message, newline)] for one message and the default options
    [OUTPUT_NORMAL]: the verbosity asked for is [VERBOSITY_NORMAL]. *)
Definition write (origin : Origin) (message : string) (newline : bool) : M t unit :=
  fun o =>
    if (verbosity o <? VERBOSITY_NORMAL)%Z then (Ok tt, o)
    else
      match OutputFormatter.format message (formatter o) with
      | (Ok message', f') =>
          (Ok tt, {| formatter := f'; verbosity := verbosity o;
                     written := written o ++ [(origin, message', newline)] |})
      | (Throw e, f') =>
          (Throw e, {| formatter := f'; verbosity := verbosity o;
                       written := written o |})
      end.

Definition writeln (origin : Origin) (message : string) : M t unit :=
  write origin message true.

End Output.

(** ** [Table] *)

Module Table.

(** A [TableCell] object.  [TableSeparator] extends [TableCell] and
    adds nothing. *)
Record TableCell : Type := { value : string; rowspan : Z; colspan : Z }.

(** [new TableCell(value, { colspan })]: the row span is the default. *)
Definition newTableCell (value : string) (colspan : Z) : TableCell :=
  {| value := value; rowspan := 1; colspan := colspan |}.

(** What a slot of a row holds ([TableCellInput]): a string, a
    [TableCell] or a [TableSeparator].  In an array, [None] is
    [undefined] (an empty slot reads as [undefined] too). *)
Inductive cell : Type :=
| Text (s : string)
| Cell (c : TableCell)
| SeparatorCell (c : TableCell).

Abbreviation row := (list (option cell)).

(** What a slot of the rows holds ([TableRowInput]): an array of
    cells, a [TableSeparator], or nothing. *)
Inductive rowInput : Type :=
| Row (cells : row)
| Separator (c : TableCell)
| Undefined.

(** [String(cell)] *)
Definition toString (c : cell) : string :=
  match c with
  | Text s => s
  | Cell c => value c
  | SeparatorCell c => value c
  end.

(** [cell instanceof TableCell] *)
Definition asTableCell (c : cell) : option TableCell :=
  match c with
  | Text _ => None
  | Cell c => Some c
  | SeparatorCell c => Some c
  end.

(** [cell instanceof TableSeparator] *)
Definition isSeparatorCell (c : cell) : bool :=
  match c with
  | SeparatorCell _ => true
  | _ => false
  end.

(** The truth value of a cell: only the empty string is falsy. *)
Definition truthy (c : cell) : bool :=
  match c with
  | Text "" => false
  | _ => true
  end.

(** [a[i] = x] on an array with empty slots: the array grows when [i]
    is past its end. *)
Definition setAt {A : Type} (i : nat) (x : A) (a : list (option A)) : list (option A) :=
  if i <? length a then <[i := Some x]> a
  else a ++ replicate (i - length a) None ++ [Some x].

(** [a.splice(i, 0, x)] *)
Definition insertAt {A : Type} (i : nat) (x : A) (a : list A) : list A :=
  take i a ++ x :: drop i a.

Record t : Type := {
  headers : list rowInput;
  rows : list rowInput;
  effectiveColumnWidths : gmap nat Z;
  numberOfColumns : option Z;
  output : Output.t;
  style : option TableStyle.t;      (* [None] until [setStyle] is called *)
  columnStyles : gmap nat TableStyle.t;
  columnWidths : gmap nat Z
}.

(** [new Table(output)] *)
Definition new (output : Output.t) : t :=
  {| headers := []; rows := []; effectiveColumnWidths := ∅; numberOfColumns := None;
     output := output; style := None; columnStyles := ∅; columnWidths := ∅ |}.

Definition setStyle (s : TableStyle.t) (tb : t) : t :=
  {| headers := headers tb; rows := rows tb;
     effectiveColumnWidths := effectiveColumnWidths tb;
     numberOfColumns := numberOfColumns tb; output := output tb;
     style := Some s; columnStyles := columnStyles tb; columnWidths := columnWidths tb |}.

(** [setHeaders] with an array of header rows *)
Definition setHeaders (h : list rowInput) (tb : t) : t :=
  {| headers := h; rows := rows tb;
     effectiveColumnWidths := effectiveColumnWidths tb;
     numberOfColumns := numberOfColumns tb; output := output tb;
     style := style tb; columnStyles := columnStyles tb; columnWidths := columnWidths tb |}.

(** [addRow]: the argument is an array or a [TableSeparator]. *)
Definition addRow (r : rowInput) (tb : t) : result t :=
  match r with
  | Undefined => Throw PlainError
  | _ =>
      Ok {| headers := headers tb; rows := rows tb ++ [r];
            effectiveColumnWidths := effectiveColumnWidths tb;
            numberOfColumns := numberOfColumns tb; output := output tb;
            style := style tb; columnStyles := columnStyles tb;
            columnWidths := columnWidths tb |}
  end.

Fixpoint addRows (rs : list rowInput) (tb : t) : result t :=
  match rs with
  | [] => Ok tb
  | r :: rs' => rbind (addRow r tb) (addRows rs')
  end.

Definition setRows (rs : list rowInput) (tb : t) : result t :=
  addRows rs
    {| headers := headers tb; rows := [];
       effectiveColumnWidths := effectiveColumnWidths tb;
       numberOfColumns := numberOfColumns tb; output := output tb;
       style := style tb; columnStyles := columnStyles tb;
       columnWidths := columnWidths tb |}.

Definition setColumnWidth (columnIndex : nat) (width : Z) (tb : t) : t :=
  {| headers := headers tb; rows := rows tb;
     effectiveColumnWidths := effectiveColumnWidths tb;
     numberOfColumns := numberOfColumns tb; output := output tb;
     style := style tb; columnStyles := columnStyles tb;
     columnWidths := <[columnIndex := width]> (columnWidths tb) |}.

(** *** Counting columns *)

Definition getNumberOfColumns (r : row) : Z :=
  List.fold_left
    (fun columns column =>
       match column with
       | Some c =>
           match asTableCell c with
           | Some tc => (columns + (colspan tc - 1))%Z
           | None => columns
           end
       | None => columns
       end)
    r
    (Z.of_nat (length (List.filter (fun c => match c with Some _ => true | None => false end) r))).

(** The loop of [calculateNumberOfColumns]: the counts pushed. *)
Fixpoint columnCounts (rs : list rowInput) : result (list Z) :=
  match rs with
  | [] => Ok []
  | Separator _ :: rs' => columnCounts rs'
  | Row r :: rs' => rbind (columnCounts rs') (fun cs => Ok (getNumberOfColumns r :: cs))
  | Undefined :: _ => Throw TypeError
  end.

Definition maximum (l : list Z) (start : Z) : Z := List.fold_left Z.max l start.

Definition setNumberOfColumns (n : option Z) (tb : t) : t :=
  {| headers := headers tb; rows := rows tb;
     effectiveColumnWidths := effectiveColumnWidths tb;
     numberOfColumns := n; output := output tb;
     style := style tb; columnStyles := columnStyles tb; columnWidths := columnWidths tb |}.

Definition calculateNumberOfColumns : M t unit :=
  tb <- get ;;
  match numberOfColumns tb with
  | Some _ => ret tt
  | None =>
      columns <- lift (columnCounts (headers tb ++ rows tb)) ;;
      modify (setNumberOfColumns (Some (maximum columns 0)))
  end.

(** [this.numberOfColumns] read as a number: [null] counts as 0. *)
Definition columnCount (tb : t) : Z :=
  match numberOfColumns tb with
  | Some n => n
  | None => 0%Z
  end.

(** The loop of [getRowColumns], from the cell key [cellKey] on. *)
Fixpoint excludeGrouped (cellKey : Z) (r : row) (columns : list Z) : list Z :=
  match r with
  | [] => columns
  | c :: r' =>
      let columns' :=
        match c with
        | Some c =>
            match asTableCell c with
            | Some tc =>
                if (1 <? colspan tc)%Z then
                  let diffRange := Helper.range (cellKey + 1) (cellKey + colspan tc - 1) in
                  List.filter (fun column => negb (existsb (Z.eqb column) diffRange)) columns
                else columns
            | None => columns
            end
        | None => columns
        end in
      excludeGrouped (cellKey + 1) r' columns'
  end.

Definition getRowColumns (n : Z) (r : row) : list Z :=
  excludeGrouped 0 r (Helper.range 0 (n - 1)).

(** *** Expansion of the column spans *)

(** The loop of [fillCells], from the column [column] on. *)
Fixpoint fillCellsFrom (column : Z) (r : row) : row :=
  match r with
  | [] => []
  | None :: r' => fillCellsFrom (column + 1) r'
  | Some c :: r' =>
      Some c ::
      match asTableCell c with
      | Some tc =>
          if (1 <? colspan tc)%Z
          then List.map (fun _ => Some (Text ""))
                 (Helper.range (column + 1) (column + colspan tc - 1))
               ++ fillCellsFrom (column + 1) r'
          else fillCellsFrom (column + 1) r'
      | None => fillCellsFrom (column + 1) r'
      end
  end.

Definition fillCells (r : row) : row := fillCellsFrom 0 r.

(** The loop of [copyRow] *)
Definition blankCopy (r : row) : row :=
  List.map
    (fun c =>
       match c with
       | None => None
       | Some c =>
           match asTableCell c with
           | Some tc => Some (Cell (newTableCell "" (colspan tc)))
           | None => Some (Text "")
           end
       end)
    r.

Definition copyRow (rs : list rowInput) (line : Z) : result row :=
  if (line <? 0)%Z then Throw TypeError
  else match rs !! Z.to_nat line with
       | Some (Row r) => Ok (blankCopy r)
       | _ => Throw TypeError
       end.

(** *** Expansion of the row spans: [fillNextRows]

    [unmergedRows] is an array of arrays with empty slots, and
    [arrayFill] puts one and the same array in each slot it fills.  A
    slot is [Hole] when empty, [Undef] when it holds [undefined],
    [Shared] when it holds the array made by the last [arrayFill]
    (whose content is kept once, next to the slots), and [Own r] when it
    holds an array of its own. *)

Inductive slot : Type :=
| Hole
| Undef
| Shared
| Own (r : row).

(** [typeof slot !== 'undefined'] *)
Definition slotDefined (s : slot) : bool :=
  match s with
  | Shared | Own _ => true
  | Hole | Undef => false
  end.

(** The keys that [for ... in] visits *)
Definition slotEnumerable (s : slot) : bool :=
  match s with
  | Hole => false
  | _ => true
  end.

Definition slotAt (slots : list slot) (k : nat) : slot :=
  match slots !! k with
  | Some s => s
  | None => Hole
  end.

(** [arrayReplaceRecursive(arrayFill(line + 1, nbLines, []), unmergedRows)].
    The copy starts from the filled array.  Then, for each key of
    [unmergedRows], the helper reads the FIRST array again (its
    [arguments[i]] counts from the first argument): a filled slot is
    replaced by a copy of the array it holds, which is empty at that
    time, and any other key is assigned [undefined]. *)
Definition arrayFillReplace (line : nat) (nbLines : Z) (unmergedRows : list slot)
  : list slot :=
  let n := Z.to_nat nbLines in
  let filledLength := match n with O => 0 | S _ => line + 1 + n end in
  List.map
    (fun k =>
       let filled := ((line + 1 <=? k) && (k <=? line + n))%bool%nat in
       if slotEnumerable (slotAt unmergedRows k)
       then (if filled then Own [] else Undef)
       else (if filled then Shared else Hole))
    (seq 0 (Nat.max filledLength (length unmergedRows))).

(** The lines of a cell that spans rows, as the loop reads them:
    [lines[j] || '']. *)
Definition lineOr (lines : list (option string)) (j : Z) : string :=
  if (j <? 0)%Z then ""
  else match lines !! Z.to_nat j with
       | Some (Some s) => s
       | _ => ""
       end.

(** The loop that writes the cell of column [column] into every slot
    that holds an array, up to the key [line + nbLines]. *)
Fixpoint writeSlots (line : nat) (nbLines : Z) (column : nat) (span : Z)
    (lines : list (option string)) (k : nat) (slots : list slot) (shared : row)
  : list slot * row :=
  match slots with
  | [] => ([], shared)
  | s :: slots' =>
      let j := (Z.of_nat k - Z.of_nat line)%Z in
      let c := Cell (newTableCell (lineOr lines j) span) in
      match s with
      | Hole | Undef =>
          let '(slots'', shared') :=
            writeSlots line nbLines column span lines (S k) slots' shared in
          (s :: slots'', shared')
      | Shared =>
          let shared1 := setAt column c shared in
          if (nbLines =? j)%Z then (Shared :: slots', shared1)
          else
            let '(slots'', shared') :=
              writeSlots line nbLines column span lines (S k) slots' shared1 in
            (Shared :: slots'', shared')
      | Own r =>
          let s1 := Own (setAt column c r) in
          if (nbLines =? j)%Z then (s1 :: slots', shared)
          else
            let '(slots'', shared') :=
              writeSlots line nbLines column span lines (S k) slots' shared in
            (s1 :: slots'', shared')
      end
  end.

(** The variables of the first loop of [fillNextRows]: the row at
    [line], the slots of [unmergedRows], the content of the shared
    array. *)
Record Spanning : Type := {
  current : row;
  slots : list slot;
  shared : row
}.

(** One iteration of the loop over the columns of the row at [line]. *)
Definition spanColumn (line : nat) (st : Spanning) (column : nat) : Spanning :=
  match current st !! column with
  | Some (Some c) =>
      match asTableCell c with
      | Some tc =>
          if (1 <? rowspan tc)%Z then
            let cellStr := toString c in
            let nbLines0 := (rowspan tc - 1)%Z in
            let multi := Js.includes (Js.str1 Js.newline) cellStr in
            let split := Js.split Js.newline cellStr in
            (* [lines], after [delete lines[0]] for a text of several lines *)
            let lines :=
              if multi then None :: List.map Some (List.tl split) else [Some cellStr] in
            let nbLines :=
              if multi then
                if (nbLines0 <? Z.of_nat (length split))%Z
                then Z.of_nat (Helper.countFrom (Js.str1 Js.newline) cellStr)
                else nbLines0
              else nbLines0 in
            let current1 :=
              if multi
              then setAt column (Cell (newTableCell (List.hd "" split) (colspan tc)))
                     (current st)
              else current st in
            let slots1 := arrayFillReplace line nbLines (slots st) in
            let '(slots2, shared2) :=
              writeSlots line nbLines column (colspan tc) lines 0 slots1 [] in
            {| current := current1; slots := slots2; shared := shared2 |}
          else st
      | None => st
      end
  | _ => st
  end.

Definition slotRow (shared : row) (s : slot) : option row :=
  match s with
  | Shared => Some shared
  | Own r => Some r
  | Hole | Undef => None
  end.

(** [rows[unmergedRowKey].splice(cellKey, 0, cell)] for each cell of
    [unmergedRow], from the key [cellKey] on. *)
Fixpoint mergeCells (cellKey : nat) (unmergedRow : row) (target : row) : row :=
  match unmergedRow with
  | [] => target
  | None :: u' => mergeCells (S cellKey) u' target
  | Some c :: u' => mergeCells (S cellKey) u' (insertAt cellKey (Some c) target)
  end.

(** [row[column] = unmergedRow[column]] for each cell with a non-empty
    text, from the column [column] on. *)
Fixpoint overlayCells (column : nat) (unmergedRow : row) (target : row) : row :=
  match unmergedRow with
  | [] => target
  | None :: u' => overlayCells (S column) u' target
  | Some c :: u' =>
      overlayCells (S column) u'
        (if (0 <? String.length (toString c)) then setAt column c target else target)
  end.

(** The second loop of [fillNextRows], from the key [k] on. *)
Fixpoint placeSlots (n : Z) (shared : row) (k : nat) (slots : list slot)
    (rs : list rowInput) : result (list rowInput) :=
  match slots with
  | [] => Ok rs
  | s :: slots' =>
      match slotRow shared s with
      | None => placeSlots n shared (S k) slots' rs
      | Some unmergedRow =>
          let merged :=
            match rs !! k with
            | Some (Row target) =>
                if (getNumberOfColumns target + getNumberOfColumns unmergedRow <=? n)%Z
                then Some (<[k := Row (mergeCells 0 unmergedRow target)]> rs)
                else None
            | _ => None
            end in
          match merged with
          | Some rs' => placeSlots n shared (S k) slots' rs'
          | None =>
              rbind (copyRow rs (Z.of_nat k - 1)) (fun blank =>
              placeSlots n shared (S k) slots'
                (insertAt k (Row (overlayCells 0 unmergedRow blank)) rs))
          end
      end
  end.

(** [fillNextRows(inputRows, line)]; [n] is [this.numberOfColumns]. *)
Definition fillNextRows (n : Z) (inputRows : list rowInput) (line : nat)
  : result (list rowInput) :=
  match inputRows !! line with
  | Some (Separator _) => Ok inputRows
  | Some (Row r) =>
      let st := List.fold_left (spanColumn line) (seq 0 (length r))
                  {| current := r; slots := []; shared := [] |} in
      placeSlots n (shared st) 0 (slots st) (<[line := Row (current st)]> inputRows)
  | _ => Throw TypeError
  end.

(** *** [buildTableRows] *)

(** A line of a cell, as a cell of the same kind and column span. *)
Definition lineCell (c : cell) (line : string) : cell :=
  match asTableCell c with
  | Some tc => Cell (newTableCell line (colspan tc))
  | None => Text line
  end.

(** The loop over the lines of the cell [c] of column [column], from
    the line key [lineKey] on: the first line goes into the row, the
    others into [extra], which is [unmergedRows[rowKey]]. *)
Fixpoint placeLines (column : nat) (c : cell) (lineKey : nat) (lines : list string)
    (r : row) (extra : list (option row)) : row * list (option row) :=
  match lines with
  | [] => (r, extra)
  | l :: lines' =>
      match lineKey with
      | O => placeLines column c 1 lines' (setAt column (lineCell c l) r) extra
      | S _ =>
          let existing := match extra !! lineKey with
                          | Some (Some x) => x
                          | _ => []
                          end in
          placeLines column c (S lineKey) lines' r
            (setAt lineKey (setAt column (lineCell c l) existing) extra)
      end
  end.

(** One iteration of the loop over the columns of a row. *)
Definition splitColumn (st : row * list (option row)) (column : nat)
  : row * list (option row) :=
  let '(r, extra) := st in
  match r !! column with
  | Some (Some c) =>
      let cellStr := toString c in
      if Js.includes (Js.str1 Js.newline) cellStr then st
      else placeLines column c 0 (Js.split Js.newline cellStr) r extra
  | _ => st
  end.

Definition splitRow (r : row) : row * list (option row) :=
  List.fold_left splitColumn (seq 0 (length r)) (r, []).

(** The first loop, from the key [rowKey] on.  The rows can grow while
    the loop runs; [fuel] bounds the iterations left. *)
Fixpoint expandRows (fuel : nat) (n : Z) (rowKey : nat) (rs : list rowInput)
    (unmergedRows : gmap nat (list (option row)))
  : result (list rowInput * gmap nat (list (option row))) :=
  if length rs <=? rowKey then Ok (rs, unmergedRows)
  else
    match fuel with
    | O => Throw Unmodelled
    | S fuel' =>
        match rs !! rowKey with
        | Some (Row _) =>
            rbind (fillNextRows n rs rowKey) (fun rs1 =>
            match rs1 !! rowKey with
            | Some (Row r) =>
                let '(r', extra) := splitRow r in
                expandRows fuel' n (S rowKey) (<[rowKey := Row r']> rs1)
                  (match extra with
                   | [] => unmergedRows
                   | _ => <[rowKey := extra]> unmergedRows
                   end)
            | _ => Throw TypeError
            end)
        | _ => expandRows fuel' n (S rowKey) rs unmergedRows
        end
    end.

(** The second loop, from the key [rowKey] on. *)
Fixpoint collectRows (rowKey : nat) (rs : list rowInput)
    (unmergedRows : gmap nat (list (option row))) : list rowInput :=
  match rs with
  | [] => []
  | Row r :: rs' =>
      Row (fillCells r)
      :: match unmergedRows !! rowKey with
         | Some extra =>
             List.map (fun x => match x with Some r' => Row r' | None => Undefined end) extra
         | None => []
         end
      ++ collectRows (S rowKey) rs' unmergedRows
  | _ :: rs' => collectRows (S rowKey) rs' unmergedRows
  end.

(** What a cell that spans rows can add to the rows below it. *)
Definition cellWeight (c : option cell) : nat :=
  match c with
  | Some c =>
      match asTableCell c with
      | Some tc =>
          if (1 <? rowspan tc)%Z
          then Z.to_nat (rowspan tc - 1) + String.length (value tc)
          else 0
      | None => 0
      end
  | None => 0
  end.

Definition rowWeight (r : rowInput) : nat :=
  match r with
  | Row cells => list_sum (List.map cellWeight cells)
  | _ => 0
  end.

(** A bound on the number of rows the first loop visits (it is never
    exhausted, see [TableFacts.expandRows_throw]). *)
Definition expandFuel (rs : list rowInput) : nat :=
  length rs + list_sum (List.map rowWeight rs).

Definition buildTableRows (n : Z) (rs : list rowInput) : result (list rowInput) :=
  rbind (expandRows (expandFuel rs) n 0 rs ∅) (fun '(rs', unmergedRows) =>
  Ok (collectRows 0 rs' unmergedRows)).

(** *** Widths and rendering *)

Definition setOutput (o : Output.t) (tb : t) : t :=
  {| headers := headers tb; rows := rows tb;
     effectiveColumnWidths := effectiveColumnWidths tb;
     numberOfColumns := numberOfColumns tb; output := o;
     style := style tb; columnStyles := columnStyles tb; columnWidths := columnWidths tb |}.

Definition setEffectiveColumnWidths (w : gmap nat Z) (tb : t) : t :=
  {| headers := headers tb; rows := rows tb;
     effectiveColumnWidths := w;
     numberOfColumns := numberOfColumns tb; output := output tb;
     style := style tb; columnStyles := columnStyles tb; columnWidths := columnWidths tb |}.

(** A call on [this.output] *)
Definition onOutput {A : Type} (m : M Output.t A) : M t A :=
  fun tb => let '(r, o) := m (output tb) in (r, setOutput o tb).

(** A call on [this.output.getFormatter()] *)
Definition onFormatter {A : Type} (m : M OutputFormatter.t A) : M t A :=
  onOutput (fun o =>
    let '(r, f) := m (Output.formatter o) in
    (r, {| Output.formatter := f; Output.verbosity := Output.verbosity o;
           Output.written := Output.written o |})).

(** [this.style], to call a method on it *)
Definition theStyle : M t TableStyle.t :=
  fun tb =>
    match style tb with
    | Some s => (Ok s, tb)
    | None => (Throw TypeError, tb)
    end.

(** [s.repeat(count)]: [None] is a count that is not a number, which
    repeats nothing; a negative count is a range error. *)
Definition repeatCount (s : string) (count : option Z) : result string :=
  match count with
  | None => Ok ""
  | Some z => if (z <? 0)%Z then Throw RangeError else Ok (Js.repeat s (Z.to_nat z))
  end.

(** Sum of numbers, one of which may not be a number *)
Definition addWidth (a b : option Z) : option Z :=
  match a, b with
  | Some x, Some y => Some (x + y)%Z
  | _, _ => None
  end.

Section Rendering.

(** [sprintf(format, ...args)], the arguments as strings. *)
Variable sprintf : string -> list string -> result string.

Definition getColumnSeparatorWidth : M t nat :=
  s <- theStyle ;;
  sep <- lift (sprintf (TableStyle.borderFormat s) [TableStyle.verticalBorderChar s]) ;;
  ret (String.length sep).

Definition getCellWidth (r : row) (column : nat) : M t Z :=
  cellWidth <- match r !! column with
               | Some (Some c) =>
                   if truthy c
                   then len <- onFormatter (Helper.lengthWithoutDecoration (toString c)) ;;
                        ret (Z.of_nat len)
                   else ret 0%Z
               | _ => ret 0%Z
               end ;;
  tb <- get ;;
  let columnWidth := match columnWidths tb !! column with
                     | Some w => w
                     | None => 0%Z
                     end in
  ret (Z.max cellWidth columnWidth).

(** The loop of [calculateColumnsWidth] over the cells of the copy of
    a row.  A [TableCell] with text writes its chunks over the
    following cells; [pending] holds the chunks written but not yet
    passed by the loop, which finds them as strings and has nothing to
    do on them. *)
Fixpoint chunkCells (pending : list string) (r : row) : M t row :=
  match r with
  | [] => ret (List.map (fun p => Some (Text p)) pending)
  | x :: r' =>
      match pending with
      | p :: pending' =>
          rest <- chunkCells pending' r' ;; ret (Some (Text p) :: rest)
      | [] =>
          match x with
          | Some c =>
              match asTableCell c with
              | Some tc =>
                  textContent <- onFormatter (Helper.removeDecoration (toString c)) ;;
                  let textLength := Z.of_nat (String.length textContent) in
                  if (0 <? textLength)%Z then
                    (* [Math.ceil(textLength / colspan)]; a zero span
                       gives an infinite chunk length *)
                    let contentColumns :=
                      if (colspan tc =? 0)%Z then Some [textContent]
                      else Helper.chunkString textContent
                             (- ((- textLength) / colspan tc))%Z in
                    match contentColumns with
                    | None => throw PlainError
                    | Some [] => rest <- chunkCells [] r' ;; ret (x :: rest)
                    | Some (first :: others) =>
                        rest <- chunkCells others r' ;; ret (Some (Text first) :: rest)
                    end
                  else rest <- chunkCells [] r' ;; ret (x :: rest)
              | None => rest <- chunkCells [] r' ;; ret (x :: rest)
              end
          | None => rest <- chunkCells [] r' ;; ret (x :: rest)
          end
      end
  end.

(** The loop over the rows, for one column: the lengths pushed. *)
Fixpoint columnLengths (column : nat) (rs : list rowInput) : M t (list Z) :=
  match rs with
  | [] => ret []
  | Separator _ :: rs' => columnLengths column rs'
  | Undefined :: _ => throw TypeError
  | Row r :: rs' =>
      r' <- chunkCells [] r ;;
      w <- getCellWidth r' column ;;
      ws <- columnLengths column rs' ;;
      ret (w :: ws)
  end.

(** The loop over the columns *)
Fixpoint columnsWidthLoop (columns : list nat) (rs : list rowInput) : M t unit :=
  match columns with
  | [] => ret tt
  | column :: columns' =>
      lengths <- columnLengths column rs ;;
      s <- theStyle ;;
      match lengths with
      | [] => throw Unmodelled (* the maximum of no number is not finite *)
      | l :: ls =>
          modify (fun tb =>
            setEffectiveColumnWidths
              (<[column := (maximum ls l
                            + Z.of_nat (String.length (TableStyle.cellRowContentFormat s))
                            - 2)%Z]> (effectiveColumnWidths tb)) tb) ;;;
          columnsWidthLoop columns' rs
      end
  end.

Definition calculateColumnsWidth (rs : list rowInput) : M t unit :=
  tb <- get ;;
  columnsWidthLoop (seq 0 (Z.to_nat (columnCount tb))) rs.

(** The loop of [renderRowSeparator]: the markup so far. *)
Fixpoint separatorMarkup (s : TableStyle.t) (widths : gmap nat Z) (columns : list nat)
    (markup : string) : result string :=
  match columns with
  | [] => Ok markup
  | column :: columns' =>
      rbind (repeatCount (TableStyle.horizontalBorderChar s) (widths !! column))
        (fun dashes =>
           separatorMarkup s widths columns'
             (markup ++ dashes ++ TableStyle.crossingChar s))
  end.

Definition renderRowSeparator : M t unit :=
  tb <- get ;;
  let count := columnCount tb in
  if (count =? 0)%Z then ret tt
  else
    s <- theStyle ;;
    if ((String.length (TableStyle.horizontalBorderChar s) =? 0)
        && (String.length (TableStyle.crossingChar s) =? 0))%bool
    then ret tt
    else
      markup <- lift (separatorMarkup s (effectiveColumnWidths tb)
                        (seq 0 (Z.to_nat count)) (TableStyle.crossingChar s)) ;;
      line <- lift (sprintf (TableStyle.borderFormat s) [markup]) ;;
      onOutput (Output.writeln Output.Border line).

Definition renderColumnSeparator : M t string :=
  s <- theStyle ;;
  lift (sprintf (TableStyle.borderFormat s) [TableStyle.verticalBorderChar s]).

(** [this.columnStyles[column] || this.style] *)
Definition getColumnStyle (column : nat) (tb : t) : option TableStyle.t :=
  match columnStyles tb !! column with
  | Some s => Some s
  | None => style tb
  end.

(** The loop of [renderCell] over the columns a cell spans. *)
Fixpoint spannedWidth (nextColumns : list Z) (width : option Z) : M t (option Z) :=
  match nextColumns with
  | [] => ret width
  | nextColumn :: nextColumns' =>
      sep <- getColumnSeparatorWidth ;;
      tb <- get ;;
      spannedWidth nextColumns'
        (addWidth (addWidth width (Some (Z.of_nat sep)))
           (effectiveColumnWidths tb !! Z.to_nat nextColumn))
  end.

Definition renderCell (r : row) (column : Z) (cellFormat : string) : M t string :=
  let c := match r !! Z.to_nat column with
           | Some (Some c) => if truthy c then c else Text ""
           | _ => Text ""
           end in
  let cellStr := toString c in
  tb <- get ;;
  let width0 := effectiveColumnWidths tb !! Z.to_nat column in
  width1 <- match asTableCell c with
            | Some tc =>
                if (1 <? colspan tc)%Z
                then spannedWidth (Helper.range (column + 1) (column + colspan tc - 1)) width0
                else ret width0
            | None => ret width0
            end ;;
  (* [style], at its first use *)
  let columnStyle : M t TableStyle.t :=
    match getColumnStyle (Z.to_nat column) tb with
    | Some s => ret s
    | None => throw TypeError
    end in
  if isSeparatorCell c then
    s <- columnStyle ;;
    dashes <- lift (repeatCount (TableStyle.horizontalBorderChar s) width1) ;;
    lift (sprintf (TableStyle.borderFormat s) [dashes])
  else
    len <- onFormatter (Helper.lengthWithoutDecoration cellStr) ;;
    let width2 :=
      addWidth width1 (Some (Z.of_nat (String.length cellStr) - Z.of_nat len)%Z) in
    s <- columnStyle ;;
    content <- lift (sprintf (TableStyle.cellRowContentFormat s) [cellStr]) ;;
    lift (sprintf cellFormat
            [Helper.strPad content width2 (TableStyle.paddingChar s)
               (TableStyle.padType s)]).

(** The loop of [renderRow]: the row content so far. *)
Fixpoint rowContentLoop (r : row) (cellFormat : string) (columns : list Z)
    (rowContent : string) : M t string :=
  match columns with
  | [] => ret rowContent
  | column :: columns' =>
      c <- renderCell r column cellFormat ;;
      sep <- renderColumnSeparator ;;
      rowContentLoop r cellFormat columns' ((rowContent ++ c) ++ sep)
  end.

Definition renderRow (r : row) (cellFormat : string) : M t unit :=
  match r with
  | [] => ret tt
  | _ =>
      rowContent <- renderColumnSeparator ;;
      tb <- get ;;
      rowContent' <- rowContentLoop r cellFormat (getRowColumns (columnCount tb) r)
                       rowContent ;;
      onOutput (Output.writeln Output.Content rowContent')
  end.

(** [renderRow] on what a slot of the built rows holds: a
    [TableSeparator] has no [length], nothing has no property at all. *)
Definition renderRowInput (r : rowInput) (cellFormat : string) : M t unit :=
  match r with
  | Row cells => renderRow cells cellFormat
  | Separator _ => ret tt
  | Undefined => throw TypeError
  end.

(** The loop over the header rows *)
Fixpoint renderHeaders (hs : list rowInput) : M t unit :=
  match hs with
  | [] => ret tt
  | header :: hs' =>
      s <- theStyle ;;
      renderRowInput header (TableStyle.cellHeaderFormat s) ;;;
      renderRowSeparator ;;;
      renderHeaders hs'
  end.

(** The loop over the body rows *)
Fixpoint renderBody (rs : list rowInput) : M t unit :=
  match rs with
  | [] => ret tt
  | Separator _ :: rs' => renderRowSeparator ;;; renderBody rs'
  | r :: rs' =>
      s <- theStyle ;;
      renderRowInput r (TableStyle.cellRowFormat s) ;;;
      renderBody rs'
  end.

Definition cleanup : M t unit :=
  modify (fun tb => setNumberOfColumns None (setEffectiveColumnWidths ∅ tb)).

(** What [render] does once the rows are built. *)
Definition renderBuilt (hs rs : list rowInput) : M t unit :=
  calculateColumnsWidth (hs ++ rs) ;;;
  renderRowSeparator ;;;
  renderHeaders hs ;;;
  renderBody rs ;;;
  match rs with
  | [] => ret tt
  | _ => renderRowSeparator
  end ;;;
  cleanup.

(** [render()].  The arrays held by [this.rows] and [this.headers]
    are the ones [buildTableRows] works on; what it leaves in them is
    not kept here, so the table reached says nothing on a second
    [render]. *)
Definition render : M t unit :=
  calculateNumberOfColumns ;;;
  tb <- get ;;
  rs <- lift (buildTableRows (columnCount tb) (rows tb)) ;;
  hs <- lift (buildTableRows (columnCount tb) (headers tb)) ;;
  renderBuilt hs rs.

End Rendering.

End Table.

(** ** Sample tables *)

Module TableSamples.

Definition text (s : string) : option Table.cell := Some (Table.Text s).

(** A table on an undecorated output of normal verbosity, with the
    style [st], the header rows [hs] and the rows [rs]. *)
Definition table (st : TableStyle.t) (hs rs : list Table.rowInput) : Table.t :=
  {| Table.headers := hs; Table.rows := rs;
     Table.effectiveColumnWidths := ∅; Table.numberOfColumns := None;
     Table.output := Output.new Output.VERBOSITY_NORMAL false;
     Table.style := Some st; Table.columnStyles := ∅; Table.columnWidths := ∅ |}.

(** Headers [A], [B] and the row [1], [2] *)
Definition small (st : TableStyle.t) : Table.t :=
  table st [Table.Row [text "A"; text "B"]] [Table.Row [text "1"; text "2"]].

(** The rows [a], a [TableSeparator], [b], without header *)
Definition separated : Table.t :=
  table TableStyle.default []
    [ Table.Row [text "a"]; Table.Separator (Table.newTableCell "" 1);
      Table.Row [text "b"] ].

(** One row with the one cell [a], line break, [b] *)
Definition twoLines : list Table.rowInput :=
  [ Table.Row [text ("a" ++ Js.str1 Js.newline ++ "b")] ].

End TableSamples.

(** * Vocabulary of the properties *)

Module Spec.

Section StackVocabulary.
Import OutputFormatterStyle OutputFormatterStyleStack.

(** Two styles close each other when they render the empty string
    alike. *)
Definition rendersLike (a b : OutputFormatterStyle.t) : Prop :=
  OutputFormatterStyle.apply a "" = OutputFormatterStyle.apply b "".

Definition mk (e : OutputFormatterStyle.t) (l : list OutputFormatterStyle.t)
  : OutputFormatterStyleStack.t :=
  {| styles := l; emptyStyle := e |}.

End StackVocabulary.

Section FormatterVocabulary.
Import OutputFormatter.

(** Two names are casing variants of each other when they have the same
    length and, position by position, the same letter up to case. *)
Inductive caseVariant : string -> string -> Prop :=
| caseVariant_nil : caseVariant "" ""
| caseVariant_cons (c d : ascii) (s t : string) :
    Js.lowerChar c = Js.lowerChar d ->
    caseVariant s t ->
    caseVariant (String c s) (String d t).

Fixpoint allChars (p : ascii -> bool) (s : string) : bool :=
  match s with
  | "" => true
  | String c s' => (p c && allChars p s')%bool
  end.

(** What the tag regex calls a tag name. *)
Definition isTagName (n : string) : bool :=
  match n with
  | "" => false
  | String c r => (isTagStart c && allChars isTagChar r)%bool
  end.

(** The texts the tag regex matches: [<name>], [</name>] and [</>]. *)
Inductive isTag : string -> Prop :=
| isTag_open (n : string) : isTagName n = true -> isTag ("<" ++ n ++ ">")
| isTag_close (n : string) : isTagName n = true -> isTag ("</" ++ n ++ ">")
| isTag_pop : isTag "</>".

(** A text contains no markup tag when no part of it is one. *)
Definition noTags (T : string) : Prop :=
  forall pre tag post : string, isTag tag -> T <> pre ++ tag ++ post.

(** A text contains no control sequence [ESC [ ... m]. *)
Definition noCsi (T : string) : Prop :=
  forall pre body post : string,
    T <> pre ++ String Js.esc ("[" ++ body ++ "m" ++ post).

End FormatterVocabulary.

Section ProgressVocabulary.
Import ProgressBar.

(** The state invariant: the step is not negative, neither is the
    maximum, and a known maximum bounds the step. *)
Definition wellFormed (b : ProgressBar.t) : Prop :=
  (0 <= step b /\ 0 <= max b /\ (max b <> 0 -> step b <= max b))%Z.

End ProgressVocabulary.

Section TableVocabulary.
Import Table.

(** The labels of the lines written so far *)
Definition kinds (tb : Table.t) : list Output.Origin :=
  List.map (fun w => fst (fst w)) (Output.written (output tb)).

(** What decides whether a call writes a line: the number of columns,
    the style and the verbosity of the output. *)
Definition sameSetup (a b : Table.t) : Prop :=
  numberOfColumns b = numberOfColumns a
  /\ style b = style a
  /\ Output.verbosity (output b) = Output.verbosity (output a).

(** A run that keeps the setup and writes nothing *)
Definition stable (a b : Table.t) : Prop := sameSetup a b /\ kinds b = kinds a.

Definition quietly {A : Type} (m : M Table.t A) : Prop :=
  forall tb r tb', m tb = (r, tb') -> stable tb tb'.

Definition quietOutput (tb : Table.t) : bool :=
  (Output.verbosity (output tb) <? Output.VERBOSITY_NORMAL)%Z.

(** What [renderRowSeparator] writes: one border line, unless there
    is no column, or the style has neither a horizontal border nor a
    crossing character, or the output is quiet. *)
Definition borderLines (tb : Table.t) : list Output.Origin :=
  if (columnCount tb =? 0)%Z then []
  else match style tb with
       | None => []
       | Some s =>
           if ((String.length (TableStyle.horizontalBorderChar s) =? 0)
               && (String.length (TableStyle.crossingChar s) =? 0))%bool
           then []
           else if quietOutput tb then [] else [Output.Border]
       end.

(** What [renderRow] writes: one content line, unless the row is
    empty or the output is quiet. *)
Definition contentLines (tb : Table.t) (r : rowInput) : list Output.Origin :=
  match r with
  | Row (_ :: _) => if quietOutput tb then [] else [Output.Content]
  | _ => []
  end.

Definition bodyLines (tb : Table.t) (r : rowInput) : list Output.Origin :=
  match r with
  | Separator _ => borderLines tb
  | _ => contentLines tb r
  end.

Definition emits (m : M Table.t unit) (ks : Table.t -> list Output.Origin) : Prop :=
  forall tb tb', m tb = (Ok tt, tb') ->
    sameSetup tb tb' /\ kinds tb' = (kinds tb ++ ks tb)%list.

Definition setupOnly (ks : Table.t -> list Output.Origin) : Prop :=
  forall a b, sameSetup a b -> ks b = ks a.

(** The table once [calculateNumberOfColumns] has counted the columns
    (a count already held is kept). *)
Definition counted (tb : Table.t) : Table.t :=
  match numberOfColumns tb with
  | Some _ => tb
  | None =>
      match columnCounts (headers tb ++ rows tb) with
      | Ok columns => setNumberOfColumns (Some (maximum columns 0)) tb
      | Throw _ => tb
      end
  end.

(** [!(row instanceof TableSeparator)] *)
Definition notSeparator (r : rowInput) : Prop :=
  match r with
  | Separator _ => False
  | _ => True
  end.

(** A row none of whose cells spans rows *)
Definition weightless (r : row) : Prop := Forall (fun c => cellWeight c = 0) r.

Definition slotWeightless (s : slot) : Prop :=
  match s with
  | Own r => weightless r
  | _ => True
  end.

(** The measure that [expandFuel] takes of the rows still to visit *)
Definition rowsMeasure (rs : list rowInput) : nat :=
  length rs + list_sum (List.map rowWeight rs).

(** What the first loop of [fillNextRows] keeps true at the row [line],
    [W] being the weight of that row: the arrays of [unmergedRows] hold
    no cell that spans rows, they sit at keys past [line], there are at
    most [W] of them, and no cell of the row weighs more than [W]. *)
Definition spanInv (line W : nat) (st : Spanning) : Prop :=
  weightless (shared st)
  /\ Forall slotWeightless (slots st)
  /\ (forall j s, slots st !! j = Some s -> slotDefined s = true -> line < j)
  /\ length (List.filter slotDefined (slots st)) <= W
  /\ Forall (fun c => cellWeight c <= W) (current st).

End TableVocabulary.

Section AnsiVocabulary.

(** The characters of the codes of a control sequence *)
Definition codeChar (c : ascii) : bool :=
  (Js.between "0" "9" c || Ascii.eqb c ";")%bool.

(** Any character but [<] *)
Definition notLt (c : ascii) : bool := negb (Ascii.eqb c "<").

(** The backslash as a string *)
Definition bs : string := Js.str1 Js.backslash.

End AnsiVocabulary.

Section ProgressRangeVocabulary.
Import ProgressBar.

(** The redraw frequency is at least 1 and the progress is a fraction
    between 0 and 1. *)
Definition inRange (b : ProgressBar.t) : Prop :=
  (1 <= redrawFreq b)%Q /\ (0 <= percent b)%Q /\ (percent b <= 1)%Q.

(** What rounding keeps of [Math.floor(p * w)]: a fraction [p] of a
    width [w] is a whole number between 0 and [w]. *)
Definition scales (scale : Q -> Z -> Z) : Prop :=
  forall (p : Q) (w : Z),
    (0 <= p)%Q -> (p <= 1)%Q -> (1 <= w)%Z -> (0 <= scale p w <= w)%Z.

End ProgressRangeVocabulary.

Section RowVocabulary.
Import Table.

(** The column span of what a slot of a row holds: a string takes one
    column, an empty slot none. *)
Definition columnsOf (c : option cell) : Z :=
  match c with
  | Some c =>
      match asTableCell c with
      | Some tc => colspan tc
      | None => 1%Z
      end
  | None => 0%Z
  end.

(** Every [TableCell] of the row spans at least one column. *)
Definition spansColumns (r : row) : Prop :=
  Forall (fun c => match c with Some _ => (1 <= columnsOf c)%Z | None => True end) r.

(** The column [x] lies under the span of a cell that starts before
    it. *)
Definition covered (r : row) (x : Z) : Prop :=
  exists (k : nat) (c : cell) (tc : TableCell),
    r !! k = Some (Some c) /\ asTableCell c = Some tc
    /\ (1 < colspan tc)%Z /\ (Z.of_nat k < x <= Z.of_nat k + colspan tc - 1)%Z.

(** The column [x] lies under the span of a cell of [r], the keys of
    [r] counted from [k0]. *)
Definition coveredFrom (k0 : Z) (r : row) (x : Z) : Prop :=
  exists (k : nat) (c : cell) (tc : TableCell),
    r !! k = Some (Some c) /\ asTableCell c = Some tc
    /\ (1 < colspan tc)%Z /\ (k0 + Z.of_nat k < x <= k0 + Z.of_nat k + colspan tc - 1)%Z.

(** The arrays among the rows *)
Definition arrayRows (rs : list rowInput) : list row :=
  omap (fun r => match r with Row cells => Some cells | _ => None end) rs.

(** No cell of the rows spans rows. *)
Definition noRowSpans (rs : list rowInput) : Prop :=
  Forall (fun r => match r with Row cells => weightless cells | _ => True end) rs.

(** A row once the loop over its columns has passed *)
Definition splitCells (r : rowInput) : rowInput :=
  match r with
  | Row cells => Row (fst (splitRow cells))
  | _ => r
  end.

(** A row of strings, without empty slot *)
Definition textRow (r : rowInput) : Prop :=
  match r with
  | Row cells => Forall (fun c => exists s, c = Some (Text s)) cells
  | _ => False
  end.

End RowVocabulary.

Section EscapeVocabulary.

(** A backslash put before every [<] *)
Fixpoint escapedLt (text : string) : string :=
  match text with
  | "" => ""
  | String c rest =>
      if Ascii.eqb c Js.lt
      then String Js.backslash (String Js.lt (escapedLt rest))
      else String c (escapedLt rest)
  end.

(** Every [<] of [s] comes right after a backslash, [prev] being the
    character before [s]. *)
Fixpoint guarded (prev : ascii) (s : string) : bool :=
  match s with
  | "" => true
  | String c s' =>
      ((if Ascii.eqb c Js.lt then Ascii.eqb prev Js.backslash else true)
       && guarded c s')%bool
  end.

(** Neither [<] nor a backslash *)
Definition ordinary (c : ascii) : bool :=
  (negb (Ascii.eqb c Js.lt) && negb (Ascii.eqb c Js.backslash))%bool.

(** The character before what follows [pre], if any; a letter stands for
    the start of the text. *)
Definition prevOf (pre : string) : ascii :=
  match Js.lastChar pre with Some c => c | None => "x"%char end.

End EscapeVocabulary.

End Spec.

(** * Properties *)

(** ** Style stack *)

Module StackFacts.
Import OutputFormatterStyle OutputFormatterStyleStack Spec.

Lemma last_snoc {A : Type} (l : list A) (x d : A) : List.last (l ++ [x]) d = x.
Proof.
  induction l as [| y l IH]; [reflexivity |].
  simpl. destruct (l ++ [x])%list eqn:E; [destruct l; discriminate | exact IH].
Qed.

Lemma removelast_snoc {A : Type} (l : list A) (x : A) : List.removelast (l ++ [x]) = l.
Proof.
  induction l as [| y l IH]; [reflexivity |].
  simpl. destruct (l ++ [x])%list eqn:E; [destruct l; discriminate |].
  now rewrite IH.
Qed.

Lemma popSearch_app_l style arr extra n :
  n <= length arr ->
  popSearch style (arr ++ extra)%list n = popSearch style arr n.
Proof.
  induction n as [| n IHn]; intros Hn; [reflexivity |].
  simpl. rewrite lookup_app_l by lia. rewrite IHn by lia. reflexivity.
Qed.

Lemma popSearch_top_miss style arr t :
  ~ rendersLike style t ->
  popSearch style (arr ++ [t])%list (S (length arr)) = popSearch style arr (length arr).
Proof.
  intros Hne. simpl. rewrite lookup_app_r by lia. rewrite Nat.sub_diag. simpl.
  destruct (String.eqb_spec (OutputFormatterStyle.apply style "")
                            (OutputFormatterStyle.apply t "")) as [E | _];
    [contradiction |].
  now apply popSearch_app_l.
Qed.

(** The downward search skips the entries that do not match. *)
Lemma popSearch_skip style below s above :
  Forall (fun t => ~ rendersLike style t) above ->
  popSearch style (below ++ s :: above)%list (length (below ++ s :: above)%list)
  = popSearch style (below ++ [s])%list (S (length below)).
Proof.
  induction above as [| t above IH] using rev_ind; intros Hab.
  - rewrite length_app. simpl. now rewrite Nat.add_1_r.
  - apply Forall_app in Hab as [Hab Ht]. inversion Ht as [| ? ? Hne _]; subst.
    replace (below ++ s :: above ++ [t])%list with ((below ++ s :: above) ++ [t])%list
      by now rewrite <- app_assoc.
    rewrite length_app, Nat.add_1_r.
    rewrite popSearch_top_miss by exact Hne.
    now apply IH.
Qed.

Lemma popSearch_none style arr n :
  Forall (fun t => ~ rendersLike style t) arr ->
  popSearch style arr n = None.
Proof.
  intros Hall. induction n as [| n IH]; [reflexivity |].
  simpl. destruct (arr !! n) as [t |] eqn:E; [| exact IH].
  rewrite Forall_forall in Hall.
  specialize (Hall t (list_elem_of_lookup_2 _ _ _ E)).
  destruct (String.eqb_spec (OutputFormatterStyle.apply style "")
                            (OutputFormatterStyle.apply t "")); [contradiction | exact IH].
Qed.

End StackFacts.

(** C9.  On an empty stack, [pop] raises no nesting error, whatever the
    style argument (none, or any style, named or inline): it returns the
    empty style registered with the stack and leaves the stack empty. *)
Theorem pop_empty_stack
    (style : option OutputFormatterStyle.t) (e : OutputFormatterStyle.t) :
  OutputFormatterStyleStack.pop style (Spec.mk e [])
  = Ok (e, Spec.mk e []).
Proof. destruct style; reflexivity. Qed.

(** C5, as amended.  For every non-empty style stack: [pop] without
    argument removes and returns exactly the top entry; [pop] with a style
    searches from the top down for an entry that renders the empty string
    like the given style, removes that entry and everything above it and
    returns it; and it fails with the nesting error when no entry
    matches. *)
Theorem pop_nonempty_stack
    (e s style other : OutputFormatterStyle.t)
    (below above : list OutputFormatterStyle.t) :
  Spec.rendersLike style s ->
  Forall (fun t => ~ Spec.rendersLike style t) above ->
  Forall (fun t => ~ Spec.rendersLike other t) (below ++ s :: above)%list ->
  OutputFormatterStyleStack.pop None (Spec.mk e (below ++ [s])%list)
  = Ok (s, Spec.mk e below)
  /\ OutputFormatterStyleStack.pop (Some style) (Spec.mk e (below ++ s :: above)%list)
     = Ok (s, Spec.mk e below)
  /\ OutputFormatterStyleStack.pop (Some other) (Spec.mk e (below ++ s :: above)%list)
     = Throw SyntaxError.
Proof.
  intros Hs Habove Hother. unfold OutputFormatterStyleStack.pop, Spec.mk. simpl.
  split; [| split].
  - destruct (below ++ [s])%list eqn:E; [destruct below; discriminate |].
    rewrite <- E. now rewrite StackFacts.last_snoc, StackFacts.removelast_snoc.
  - destruct (below ++ s :: above)%list eqn:E; [destruct below; discriminate |].
    rewrite <- E. rewrite StackFacts.popSearch_skip; [| exact Habove].
    simpl. rewrite lookup_app_r by lia. rewrite Nat.sub_diag. simpl.
    unfold Spec.rendersLike in Hs. rewrite Hs, String.eqb_refl.
    now rewrite take_app_length.
  - destruct (below ++ s :: above)%list eqn:E; [destruct below; discriminate |].
    rewrite <- E. rewrite StackFacts.popSearch_none; [reflexivity |]. now rewrite E.
Qed.

(** ** Style registry of the formatter *)

Module RegistryFacts.
Import OutputFormatter Spec.

Lemma caseVariant_toLowerCase a b :
  caseVariant a b -> Js.toLowerCase a = Js.toLowerCase b.
Proof. induction 1 as [| c d s t Hc _ IH]; simpl; congruence. Qed.

(** An assignment to a key is read back, the key [__proto__]
    included. *)
Lemma readStyle_assignStyle (key : string) (style : OutputFormatterStyle.t)
    (f : OutputFormatter.t) :
  readStyle key (assignStyle key style f) = Style style.
Proof.
  unfold assignStyle.
  destruct (styles f !! key) as [old |] eqn:Eown.
  - unfold readStyle. cbn [styles]. now rewrite lookup_insert_eq.
  - destruct (String.eqb_spec key "__proto__") as [-> | Hne].
    + unfold readStyle. cbn [styles prototype]. rewrite Eown. reflexivity.
    + unfold readStyle. cbn [styles]. now rewrite lookup_insert_eq.
Qed.

Lemma hasStyle_getStyle (g : OutputFormatter.t) (n : string) :
  hasStyle n g = false <-> getStyle n g = Throw ReferenceError.
Proof.
  unfold getStyle, hasStyle.
  destruct (readStyle (Js.toLowerCase n) g); simpl; split;
    try discriminate; reflexivity.
Qed.

(** A name that the registry inherits counts as a style for [hasStyle],
    and what [getStyle] and the tag lookup of [format] then hand out is
    no style. *)
Example inherited_name_in_registry :
  hasStyle "Constructor" Samples.plain = true
  /\ getStyle "Constructor" Samples.plain = Throw Unmodelled
  /\ fst (format "<constructor>" Samples.plain) = Throw Unmodelled.
Proof. repeat split; vm_compute; reflexivity. Qed.

End RegistryFacts.

(** C10.  Style names are case-insensitive: after [setStyle name style],
    [hasStyle] is true and [getStyle] returns that style for every casing
    variant of [name]; and, in any formatter, [getStyle] throws the
    reference error exactly when [hasStyle] is false. *)
Theorem style_names_case_insensitive
    (f : OutputFormatter.t) (name name' : string) (style : OutputFormatterStyle.t) :
  Spec.caseVariant name name' ->
  OutputFormatter.hasStyle name' (OutputFormatter.setStyle name style f) = true
  /\ OutputFormatter.getStyle name' (OutputFormatter.setStyle name style f) = Ok style
  /\ (forall (g : OutputFormatter.t) (n : string),
        OutputFormatter.hasStyle n g = false
        <-> OutputFormatter.getStyle n g = Throw ReferenceError).
Proof.
  intros Hcv. apply RegistryFacts.caseVariant_toLowerCase in Hcv.
  unfold OutputFormatter.getStyle, OutputFormatter.hasStyle, OutputFormatter.setStyle.
  rewrite <- Hcv, RegistryFacts.readStyle_assignStyle. cbn.
  repeat split; apply RegistryFacts.hasStyle_getStyle.
Qed.

(** ** Strings *)

Module StringFacts.

Lemma append_nil_l (s : string) : "" ++ s = s.
Proof. reflexivity. Qed.

Lemma append_cons (c : ascii) (s t : string) : String c s ++ t = String c (s ++ t).
Proof. reflexivity. Qed.

Lemma append_nil_r (s : string) : s ++ "" = s.
Proof. induction s as [| c s IH]; [reflexivity |]. rewrite append_cons. congruence. Qed.

Lemma append_assoc (a b c : string) : (a ++ b) ++ c = a ++ b ++ c.
Proof.
  induction a as [| x a IH]; [reflexivity |]. rewrite !append_cons. congruence.
Qed.

Lemma length_append (a b : string) :
  String.length (a ++ b) = String.length a + String.length b.
Proof.
  induction a as [| x a IH]; [reflexivity |]. rewrite append_cons. simpl. congruence.
Qed.

Lemma startsWith_split (p s : string) :
  Js.startsWith p s = true -> exists post, s = p ++ post.
Proof.
  revert s. induction p as [| a p IH]; intros s H.
  - exists s. reflexivity.
  - destruct s as [| b s]; [discriminate |]. simpl in H.
    apply andb_prop in H as [Hab Hp]. apply Ascii.eqb_eq in Hab. subst b.
    destruct (IH s Hp) as [post ->]. exists post. reflexivity.
Qed.

Lemma startsWith_append (p post : string) : Js.startsWith p (p ++ post) = true.
Proof.
  induction p as [| a p IH]; [reflexivity |].
  rewrite append_cons. simpl. now rewrite Ascii.eqb_refl, IH.
Qed.

Lemma includes_split (p s : string) :
  Js.includes p s = true -> exists pre post, s = pre ++ p ++ post.
Proof.
  induction s as [| c s IH]; simpl; intros H.
  - destruct p; [| discriminate]. exists "", "". reflexivity.
  - apply orb_prop in H as [H | H].
    + apply startsWith_split in H as [post Hpost]. exists "", post. exact Hpost.
    + destruct (IH H) as (pre & post & ->). exists (String c pre), post. reflexivity.
Qed.

Lemma includes_append (pre p post : string) : Js.includes p (pre ++ p ++ post) = true.
Proof.
  induction pre as [| c pre IH].
  - rewrite append_nil_l. destruct p as [| a p]; [destruct post; reflexivity |].
    rewrite append_cons. simpl. rewrite Ascii.eqb_refl. simpl.
    now rewrite startsWith_append.
  - rewrite append_cons. simpl. rewrite IH. apply orb_true_r.
Qed.

(** A global replacement leaves a string without occurrence as it is. *)
Lemma replaceAll_absent (pat by_ s : string) :
  Js.includes pat s = false -> Js.replaceAll pat by_ s = s.
Proof.
  unfold Js.replaceAll. destruct pat as [| a pat].
  - destruct s; discriminate.
  - induction s as [| c s IH]; simpl; intros H; [reflexivity |].
    apply orb_false_elim in H as [H1 H2].
    rewrite H1. now rewrite IH.
Qed.

End StringFacts.

(** ** Formatter *)

Module FormatFacts.
Import OutputFormatter Spec.

Lemma spanTagChars_spec (s : string) :
  s = fst (spanTagChars s) ++ snd (spanTagChars s)
  /\ allChars isTagChar (fst (spanTagChars s)) = true.
Proof.
  induction s as [| c s [IH1 IH2]]; [split; reflexivity |].
  simpl. destruct (isTagChar c) eqn:Ec.
  - destruct (spanTagChars s) as [run rest]. simpl in *.
    rewrite StringFacts.append_cons, Ec. split; [congruence | exact IH2].
  - split; reflexivity.
Qed.

Lemma tagAt_sound (pos : nat) (s : string) (m : TagMatch) :
  tagAt pos s = Some m -> isTag (text m) /\ exists post, s = text m ++ post.
Proof.
  unfold tagAt.
  destruct s as [| a s]; [discriminate |].
  destruct (Ascii.eqb_spec a "<") as [-> | Hne].
  2:{ destruct a as [[] [] [] [] [] [] [] []]; try discriminate. now destruct Hne. }
  destruct s as [| c r]; [discriminate |].
  destruct (isTagStart c) eqn:Ec.
  - pose proof (spanTagChars_spec r) as [Hr Hall].
    destruct (spanTagChars r) as [run rest]. simpl in Hr, Hall.
    destruct (Js.startsWith ">" rest) eqn:Egt; [| discriminate].
    intros [= <-]. simpl. split.
    + apply isTag_open. simpl. now rewrite Ec, Hall.
    + apply StringFacts.startsWith_split in Egt as [post ->].
      exists post. subst r.
      rewrite !StringFacts.append_assoc. reflexivity.
  - destruct (Ascii.eqb_spec c Js.slash) as [-> | _]; [| discriminate].
    destruct r as [| d r']; [discriminate |].
    destruct (isTagStart d) eqn:Ed.
    + pose proof (spanTagChars_spec r') as [Hr Hall].
      destruct (spanTagChars r') as [run rest]. simpl in Hr, Hall.
      destruct (Js.startsWith ">" rest) eqn:Egt; [| discriminate].
      intros [= <-]. simpl. split.
      * apply isTag_close. simpl. now rewrite Ed, Hall.
      * apply StringFacts.startsWith_split in Egt as [post ->].
        exists post. subst r'.
        rewrite !StringFacts.append_assoc. reflexivity.
    + destruct (Ascii.eqb_spec d Js.gt) as [-> | _]; [| discriminate].
      intros [= <-]. simpl. split; [apply isTag_pop |].
      exists r'. reflexivity.
Qed.

Lemma tagMatchesFrom_noTags (s pre : string) (pos skip : nat) :
  noTags (pre ++ s) -> tagMatchesFrom pos skip s = [].
Proof.
  revert pre pos skip. induction s as [| c s IH]; intros pre pos skip Hno; [reflexivity |].
  assert (Hnext : noTags ((pre ++ String c "") ++ s)).
  { now rewrite StringFacts.append_assoc. }
  cbn [tagMatchesFrom]. destruct skip as [| k]; [| now apply (IH _ _ _ Hnext)].
  destruct (tagAt pos (String c s)) as [m |] eqn:Em; [| now apply (IH _ _ _ Hnext)].
  apply tagAt_sound in Em as [Htag [post Hpost]].
  exfalso. apply (Hno pre (text m) post Htag). now rewrite Hpost.
Qed.

Lemma tagMatches_noTags (T : string) : noTags T -> tagMatches T = [].
Proof. intros H. now apply (tagMatchesFrom_noTags T "" 0 0). Qed.

Lemma stripAnsi_noCsi (T : string) : noCsi T -> Helper.stripAnsi T = T.
Proof.
  unfold Helper.stripAnsi. intros Hno.
  assert (Hgen : forall s pre, noCsi (pre ++ s) -> Helper.stripAnsiFrom false s = s).
  { induction s as [| c s IH]; intros pre Hs; [reflexivity |].
    cbn [Helper.stripAnsiFrom].
    destruct (Ascii.eqb c Js.esc && Js.startsWith "[" s
              && Js.includes "m" (Js.sliceFrom 1 s))%bool eqn:E.
    - exfalso.
      apply andb_prop in E as [E Em]. apply andb_prop in E as [Ec Eb].
      apply Ascii.eqb_eq in Ec. subst c.
      apply StringFacts.startsWith_split in Eb as [r ->].
      change (Js.sliceFrom 1 ("[" ++ r)) with r in Em.
      apply StringFacts.includes_split in Em as (body & post & ->).
      exact (Hs pre body post eq_refl).
    - f_equal. apply (IH (pre ++ String c "")).
      now rewrite StringFacts.append_assoc. }
  exact (Hgen T "" Hno).
Qed.

(** [format] touches the style stack only. *)
Lemma stackPop_frame style f r f' :
  stackPop style f = (r, f') ->
  decorated f' = decorated f /\ styles f' = styles f /\ prototype f' = prototype f.
Proof.
  unfold stackPop.
  destruct (OutputFormatterStyleStack.pop style (styleStack f)) as [[? st] | e];
    intros [= <- <-]; repeat split; reflexivity.
Qed.

Lemma formatStep_frame message m l f r f' :
  formatStep message m l f = (r, f') ->
  decorated f' = decorated f /\ styles f' = styles f /\ prototype f' = prototype f.
Proof.
  unfold formatStep.
  destruct (escaped message (index m)); [intros [= <- <-]; repeat split; reflexivity |].
  unfold bind, get, lift.
  destruct (createStyleFromString _ f) as [style | e];
    [| intros [= <- <-]; repeat split; reflexivity].
  destruct (negb (opening (text m)) && (String.length _ =? 0))%bool.
  - destruct (stackPop None f) as [[[] | e] f1] eqn:Ep;
      intros [= <- <-]; now apply stackPop_frame in Ep.
  - destruct style as [style |]; [| intros [= <- <-]; repeat split; reflexivity].
    destruct (opening (text m)).
    + intros [= <- <-]. repeat split; reflexivity.
    + destruct (stackPop (Some style) f) as [[[] | e] f1] eqn:Ep;
        intros [= <- <-]; now apply stackPop_frame in Ep.
Qed.

Lemma foldM_formatStep_frame message ms l f r f' :
  foldM (formatStep message) ms l f = (r, f') ->
  decorated f' = decorated f /\ styles f' = styles f /\ prototype f' = prototype f.
Proof.
  revert l f. induction ms as [| m ms IH]; intros l f; simpl.
  - intros [= <- <-]. repeat split; reflexivity.
  - unfold bind. destruct (formatStep message m l f) as [[l1 | e] f1] eqn:Es.
    + intros H. apply IH in H as (H1 & H2 & H3).
      apply formatStep_frame in Es as (E1 & E2 & E3).
      repeat split; congruence.
    + intros [= <- <-]. now apply formatStep_frame in Es.
Qed.

Lemma format_frame message f r f' :
  format message f = (r, f') ->
  decorated f' = decorated f /\ styles f' = styles f /\ prototype f' = prototype f.
Proof.
  unfold format, bind.
  destruct (foldM _ _ _ f) as [[l | e] f1] eqn:Ef; simpl.
  - intros [= <- <-]. now apply foldM_formatStep_frame in Ef.
  - intros [= <- <-]. now apply foldM_formatStep_frame in Ef.
Qed.

Lemma setDecorated_same (f : OutputFormatter.t) : setDecorated (decorated f) f = f.
Proof. destruct f; reflexivity. Qed.

Lemma setDecorated_twice (d d' : bool) (f : OutputFormatter.t) :
  setDecorated d (setDecorated d' f) = setDecorated d f.
Proof. reflexivity. Qed.

(** Without a tag, [format] only unescapes. *)
Lemma format_noTags (T : string) (f : OutputFormatter.t) :
  noTags T -> format T f = (Ok (unescape (applyCurrentStyle T f)), f).
Proof.
  intros Hno. unfold format. rewrite (tagMatches_noTags T Hno). reflexivity.
Qed.

Lemma noTags_no_lt (T : string) :
  Js.includes "<" T = false -> noTags T.
Proof.
  intros H pre tag post Htag ->.
  assert (Hin : Js.includes "<" (pre ++ tag ++ post) = true).
  { destruct Htag as [n _ | n _ |].
    - rewrite StringFacts.append_assoc. apply (StringFacts.includes_append pre "<").
    - change ("</" ++ n ++ ">") with ("<" ++ "/" ++ n ++ ">").
      rewrite StringFacts.append_assoc. apply (StringFacts.includes_append pre "<").
    - change "</>" with ("<" ++ "/>").
      rewrite StringFacts.append_assoc. apply (StringFacts.includes_append pre "<"). }
  congruence.
Qed.

Lemma isTag_length (tag : string) : isTag tag -> 3 <= String.length tag.
Proof.
  intros [n Hn | n Hn |]; [| | simpl; lia];
    destruct n as [| c n]; try discriminate;
    rewrite !StringFacts.length_append; simpl; lia.
Qed.

Lemma noTags_short (T : string) : String.length T < 3 -> noTags T.
Proof.
  intros H pre tag post Htag ->.
  apply isTag_length in Htag.
  rewrite !StringFacts.length_append in H. lia.
Qed.

Lemma noCsi_no_esc (T : string) :
  Js.includes (Js.str1 Js.esc) T = false -> noCsi T.
Proof.
  intros H pre body post ->.
  assert (Hin : Js.includes (Js.str1 Js.esc)
                  (pre ++ String Js.esc ("[" ++ body ++ "m" ++ post)) = true).
  { apply (StringFacts.includes_append pre (Js.str1 Js.esc)). }
  congruence.
Qed.

Lemma unescape_plain (T : string) :
  Js.includes (String Js.backslash "<") T = false ->
  Js.includes "<<" T = false ->
  unescape T = T.
Proof.
  intros Hesc Hsent. unfold unescape. rewrite Hsent.
  now apply StringFacts.replaceAll_absent.
Qed.

End FormatFacts.

(** C4, as amended.  For every text [T] that contains no markup tag, no
    escaped [<] (a backslash followed by [<]) and no pair [<<]: [format]
    returns [T] unchanged when decoration is disabled, and, when [T]
    contains no control sequence [ESC [ ... m] either,
    [lengthWithoutDecoration] gives the length of [T]; neither call
    changes the formatter. *)
Theorem plain_text_is_unchanged (f : OutputFormatter.t) (T : string) :
  Spec.noTags T ->
  Js.includes (String Js.backslash "<") T = false ->
  Js.includes "<<" T = false ->
  (OutputFormatter.isDecorated f = false -> OutputFormatter.format T f = (Ok T, f))
  /\ (Spec.noCsi T ->
      Helper.lengthWithoutDecoration T f = (Ok (String.length T), f)).
Proof.
  intros Hno Hesc Hsent. split.
  - intros Hdec. rewrite (FormatFacts.format_noTags T f Hno).
    unfold OutputFormatter.applyCurrentStyle. rewrite Hdec. simpl.
    now rewrite FormatFacts.unescape_plain.
  - intros Hcsi.
    unfold Helper.lengthWithoutDecoration, Helper.removeDecoration, bind, get, modify.
    rewrite (FormatFacts.format_noTags T _ Hno).
    unfold OutputFormatter.applyCurrentStyle. simpl.
    rewrite FormatFacts.unescape_plain by assumption.
    rewrite (FormatFacts.stripAnsi_noCsi T Hcsi).
    unfold ret, OutputFormatter.isDecorated.
    now rewrite FormatFacts.setDecorated_twice, FormatFacts.setDecorated_same.
Qed.

(** C7, as amended.  Whenever [lengthWithoutDecoration] returns, it
    leaves the decorated flag (and the registered styles) of the formatter
    as they were, and it returns the same length whether decoration was
    enabled or disabled beforehand. *)
Theorem lengthWithoutDecoration_restores_flag
    (f f' : OutputFormatter.t) (str : string) (n : nat) :
  Helper.lengthWithoutDecoration str f = (Ok n, f') ->
  OutputFormatter.isDecorated f' = OutputFormatter.isDecorated f
  /\ OutputFormatter.styles f' = OutputFormatter.styles f
  /\ OutputFormatter.prototype f' = OutputFormatter.prototype f
  /\ forall d : bool,
       fst (Helper.lengthWithoutDecoration str (OutputFormatter.setDecorated d f)) = Ok n.
Proof.
  unfold Helper.lengthWithoutDecoration, Helper.removeDecoration, bind, get, modify.
  destruct (OutputFormatter.format str (OutputFormatter.setDecorated false f))
    as [[s | e] f1] eqn:Ef; [| discriminate].
  unfold ret. intros [= <- <-].
  pose proof (FormatFacts.format_frame _ _ _ _ Ef) as (_ & Hst & Hproto).
  split; [reflexivity |]. split; [exact Hst |]. split; [exact Hproto |].
  intros d. rewrite FormatFacts.setDecorated_twice, Ef. reflexivity.
Qed.

Import Samples.

Lemma pop_nonempty_stack_witness :
  (Spec.rendersLike error error
   /\ Forall (fun t => ~ Spec.rendersLike error t) [comment]
   /\ Forall (fun t => ~ Spec.rendersLike question t) ([info] ++ error :: [comment])%list)
  /\ (OutputFormatterStyleStack.pop None (Spec.mk OutputFormatterStyle.blank ([info] ++ [error])%list)
      = Ok (error, Spec.mk OutputFormatterStyle.blank [info])
      /\ OutputFormatterStyleStack.pop (Some error)
           (Spec.mk OutputFormatterStyle.blank ([info] ++ error :: [comment])%list)
         = Ok (error, Spec.mk OutputFormatterStyle.blank [info])
      /\ OutputFormatterStyleStack.pop (Some question)
           (Spec.mk OutputFormatterStyle.blank ([info] ++ error :: [comment])%list)
         = Throw SyntaxError).
Proof.
  assert (H1 : Spec.rendersLike error error) by reflexivity.
  assert (H2 : Forall (fun t => ~ Spec.rendersLike error t) [comment]).
  { repeat constructor. intros H. vm_compute in H. discriminate. }
  assert (H3 : Forall (fun t => ~ Spec.rendersLike question t)
                 ([info] ++ error :: [comment])%list).
  { repeat constructor; intros H; vm_compute in H; discriminate. }
  split; [auto |].
  exact (pop_nonempty_stack OutputFormatterStyle.blank error error question
           [info] [comment] H1 H2 H3).
Defined.

Lemma pop_by_style_on_empty_stack_counterexample :
  Forall (fun t => ~ Spec.rendersLike info t)
    (OutputFormatterStyleStack.styles (OutputFormatterStyleStack.new None))
  /\ OutputFormatterStyleStack.pop (Some info) (OutputFormatterStyleStack.new None)
     = Ok (OutputFormatterStyle.blank, OutputFormatterStyleStack.new None)
  /\ OutputFormatterStyleStack.pop (Some info) (OutputFormatterStyleStack.new None)
     <> Throw SyntaxError.
Proof. split; [constructor |]. split; [reflexivity | discriminate]. Qed.

Lemma style_names_case_insensitive_witness :
  Spec.caseVariant "Info" "iNFO"
  /\ OutputFormatter.hasStyle "iNFO" (OutputFormatter.setStyle "Info" error plain) = true
  /\ OutputFormatter.getStyle "iNFO" (OutputFormatter.setStyle "Info" error plain) = Ok error.
Proof.
  assert (H : Spec.caseVariant "Info" "iNFO")
    by (repeat constructor).
  split; [exact H |].
  destruct (style_names_case_insensitive plain "Info" "iNFO" error H) as (H1 & H2 & _).
  split; assumption.
Defined.

Lemma plain_text_is_unchanged_witness :
  (Spec.noTags "a > b"
   /\ Js.includes (String Js.backslash "<") "a > b" = false
   /\ Js.includes "<<" "a > b" = false)
  /\ (OutputFormatter.format "a > b" Samples.plain = (Ok "a > b", Samples.plain)
      /\ Helper.lengthWithoutDecoration "a > b" Samples.colored = (Ok 5, Samples.colored)).
Proof.
  assert (H1 : Spec.noTags "a > b") by (apply FormatFacts.noTags_no_lt; reflexivity).
  assert (H2 : Js.includes (String Js.backslash "<") "a > b" = false) by reflexivity.
  assert (H3 : Js.includes "<<" "a > b" = false) by reflexivity.
  split; [auto |].
  split.
  - exact (proj1 (plain_text_is_unchanged Samples.plain "a > b" H1 H2 H3) eq_refl).
  - apply (proj2 (plain_text_is_unchanged Samples.colored "a > b" H1 H2 H3)).
    apply FormatFacts.noCsi_no_esc. reflexivity.
Defined.

(** C4 as stated fails: the two-unit text made of a backslash and [<]
    contains no tag, yet [format] returns the bare [<] and the visible
    length is 1; and the text [ESC [ 0 m] contains no tag, yet its
    visible length is 0. *)
Lemma plain_text_counterexample :
  (Spec.noTags (String Js.backslash "<")
   /\ fst (OutputFormatter.format (String Js.backslash "<") Samples.plain) = Ok "<"
   /\ fst (Helper.lengthWithoutDecoration (String Js.backslash "<") Samples.plain) = Ok 1
   /\ String.length (String Js.backslash "<") = 2)
  /\ (Spec.noTags (String Js.esc "[0m")
      /\ fst (Helper.lengthWithoutDecoration (String Js.esc "[0m") Samples.plain) = Ok 0
      /\ String.length (String Js.esc "[0m") = 4).
Proof.
  split; (split; [| repeat split; vm_compute; reflexivity]).
  - apply FormatFacts.noTags_short. simpl. lia.
  - apply FormatFacts.noTags_no_lt. reflexivity.
Qed.

Lemma lengthWithoutDecoration_restores_flag_witness :
  Helper.lengthWithoutDecoration "<info>ab</info>" Samples.colored
  = (Ok 2, snd (Helper.lengthWithoutDecoration "<info>ab</info>" Samples.colored))
  /\ OutputFormatter.isDecorated
       (snd (Helper.lengthWithoutDecoration "<info>ab</info>" Samples.colored))
     = OutputFormatter.isDecorated Samples.colored
  /\ forall d : bool,
       fst (Helper.lengthWithoutDecoration "<info>ab</info>"
              (OutputFormatter.setDecorated d Samples.colored)) = Ok 2.
Proof.
  assert (H : Helper.lengthWithoutDecoration "<info>ab</info>" Samples.colored
              = (Ok 2, snd (Helper.lengthWithoutDecoration "<info>ab</info>" Samples.colored)))
    by (vm_compute; reflexivity).
  split; [exact H |].
  destruct (lengthWithoutDecoration_restores_flag _ _ _ _ H) as (H1 & _ & _ & H3).
  split; assumption.
Defined.

(** C7 as stated fails when the formatting throws: on a decorated
    formatter, the badly nested text [<info></error>] raises the nesting
    error and the decorated flag is left disabled. *)
Lemma lengthWithoutDecoration_counterexample :
  OutputFormatter.isDecorated Samples.colored = true
  /\ fst (Helper.lengthWithoutDecoration "<info></error>" Samples.colored) = Throw SyntaxError
  /\ OutputFormatter.isDecorated
       (snd (Helper.lengthWithoutDecoration "<info></error>" Samples.colored)) = false.
Proof. repeat split; vm_compute; reflexivity. Qed.



(** C6: the code at the failing inputs.  With decoration disabled and no
    tag involved, escaping and then formatting the text [a<b] followed by
    a backslash leaves the escaped [<] escaped; the text [<<<<] comes back
    as [<], three backslashes, [<]; and the text [<] followed by a
    backslash comes back without its trailing backslash. *)
Theorem escape_format_round_trip_broken :
  fst (OutputFormatter.format
         (OutputFormatter.escape ("a<b" ++ Js.str1 Js.backslash)) Samples.plain)
  = Ok ("a" ++ Js.str1 Js.backslash ++ "<b" ++ Js.str1 Js.backslash)
  /\ fst (OutputFormatter.format (OutputFormatter.escape "<<<<") Samples.plain)
     = Ok ("<" ++ Js.repeat (Js.str1 Js.backslash) 3 ++ "<")
  /\ fst (OutputFormatter.format
            (OutputFormatter.escape ("<" ++ Js.str1 Js.backslash)) Samples.plain)
     = Ok (Js.repeat (Js.str1 Js.backslash) 2 ++ "<").
Proof. repeat split; vm_compute; reflexivity. Qed.

(** ** Progress bar *)

Module ProgressFacts.
Import ProgressBar Spec.
Local Open Scope Z_scope.

Lemma setProgress_fields (s : Z) (thrown : option Error) (b : ProgressBar.t) :
  step (snd (setProgress s thrown b))
  = (if (negb (max b =? 0) && (max b <? s))%bool then s
     else if s <? 0 then 0 else s)
  /\ max (snd (setProgress s thrown b))
     = (if (negb (max b =? 0) && (max b <? s))%bool then s else max b).
Proof.
  unfold setProgress.
  destruct (negb (max b =? 0) && (max b <? s))%bool; [| destruct (s <? 0)];
    match goal with |- context [if ?c then display _ _ else _] => destruct c end;
    split; reflexivity.
Qed.

(** [setProgress] throws only what [display] throws. *)
Lemma setProgress_outcome (s : Z) (b : ProgressBar.t) :
  fst (setProgress s None b) = Ok tt.
Proof.
  unfold setProgress.
  destruct (negb (max b =? 0) && (max b <? s))%bool; [| destruct (s <? 0)];
    match goal with |- context [if ?c then display _ _ else _] => destruct c end;
    reflexivity.
Qed.

Lemma setProgress_wellFormed (s : Z) (thrown : option Error) (b : ProgressBar.t) :
  0 <= max b -> wellFormed (snd (setProgress s thrown b)).
Proof.
  intros Hmax. unfold wellFormed.
  destruct (setProgress_fields s thrown b) as [-> ->].
  destruct (Z.eqb_spec (max b) 0), (Z.ltb_spec (max b) s), (Z.ltb_spec s 0);
    simpl; lia.
Qed.

Lemma reachable_wellFormed (b : ProgressBar.t) : reachable b -> wellFormed b.
Proof.
  induction 1 as [decorated m now | b m now thrown _ IH | b s thrown _ IH
                  | b s thrown _ IH | b thrown _ IH | b thrown _ IH
                  | b freq _ IH | b o _ IH].
  - unfold new, wellFormed. destruct decorated; simpl; lia.
  - unfold start, wellFormed. destruct IH as (_ & Hm & _).
    destruct m as [m |]; simpl; lia.
  - apply setProgress_wellFormed, IH.
  - apply setProgress_wellFormed, IH.
  - unfold finish. destruct IH as (Hs & Hm & Hle).
    destruct (Z.eqb_spec (max b) 0) as [E | E]; simpl.
    + rewrite Z.eqb_refl. simpl.
      destruct (shouldOverwrite b); simpl.
      * apply setProgress_wellFormed. simpl. lia.
      * unfold wellFormed. simpl. lia.
    + destruct ((step b =? max b) && negb (shouldOverwrite b))%bool.
      * unfold wellFormed. auto.
      * now apply setProgress_wellFormed.
  - exact IH.
  - exact IH.
  - exact IH.
Qed.

End ProgressFacts.

(** C8.  For every progress bar and every [setProgress(step)], whether
    the redraw it may ask for returns or throws: when the maximum is known
    (non-zero) and [step] exceeds it, the maximum is raised to [step] and
    the step is not clamped down; when [step] is negative, the step
    becomes 0; and after the call (hence after [advance], which is
    [setProgress] of the current step plus the increment) the step is at
    least 0 and at most a known maximum. *)
Theorem setProgress_raises_max_and_clamps
    (b : ProgressBar.t) (s : Z) (thrown : option Error) :
  ProgressBar.reachable b ->
  ((ProgressBar.max b <> 0 /\ ProgressBar.max b < s ->
    ProgressBar.max (snd (ProgressBar.setProgress s thrown b)) = s
    /\ ProgressBar.step (snd (ProgressBar.setProgress s thrown b)) = s)
   /\ (s < 0 -> ProgressBar.step (snd (ProgressBar.setProgress s thrown b)) = 0)
   /\ 0 <= ProgressBar.step (snd (ProgressBar.setProgress s thrown b))
   /\ (ProgressBar.max (snd (ProgressBar.setProgress s thrown b)) <> 0 ->
       ProgressBar.step (snd (ProgressBar.setProgress s thrown b))
       <= ProgressBar.max (snd (ProgressBar.setProgress s thrown b)))
   /\ 0 <= ProgressBar.step (snd (ProgressBar.advance s thrown b))
   /\ (ProgressBar.max (snd (ProgressBar.advance s thrown b)) <> 0 ->
       ProgressBar.step (snd (ProgressBar.advance s thrown b))
       <= ProgressBar.max (snd (ProgressBar.advance s thrown b))))%Z.
Proof.
  intros Hr. apply ProgressFacts.reachable_wellFormed in Hr as (Hs & Hm & Hle).
  pose proof (ProgressFacts.setProgress_wellFormed s thrown b Hm) as (W1 & _ & W3).
  pose proof (ProgressFacts.setProgress_wellFormed (ProgressBar.step b + s) thrown b Hm)
    as (A1 & _ & A3).
  destruct (ProgressFacts.setProgress_fields s thrown b) as [Es Em].
  repeat split; try assumption.
  - rewrite Em. destruct H as [Hne Hlt].
    destruct (Z.eqb_spec (ProgressBar.max b) 0); [contradiction |].
    destruct (Z.ltb_spec (ProgressBar.max b) s); [reflexivity | lia].
  - rewrite Es. destruct H as [Hne Hlt].
    destruct (Z.eqb_spec (ProgressBar.max b) 0); [contradiction |].
    destruct (Z.ltb_spec (ProgressBar.max b) s); [reflexivity | lia].
  - intros Hneg. rewrite Es.
    destruct (Z.eqb_spec (ProgressBar.max b) 0), (Z.ltb_spec (ProgressBar.max b) s),
      (Z.ltb_spec s 0); simpl; lia.
Qed.

Lemma setProgress_raises_max_and_clamps_witness :
  ProgressBar.reachable (snd (ProgressBar.advance 5 None (ProgressBar.new true 10 0)))
  /\ ProgressBar.max
       (snd (ProgressBar.setProgress 12 None
               (snd (ProgressBar.advance 5 None (ProgressBar.new true 10 0)))))
     = 12%Z
  /\ ProgressBar.step
       (snd (ProgressBar.setProgress 12 None
               (snd (ProgressBar.advance 5 None (ProgressBar.new true 10 0)))))
     = 12%Z
  /\ ProgressBar.step
       (snd (ProgressBar.setProgress (-3) (Some RangeError)
               (snd (ProgressBar.advance 5 None (ProgressBar.new true 10 0)))))
     = 0%Z.
Proof.
  assert (Hr : ProgressBar.reachable
                 (snd (ProgressBar.advance 5 None (ProgressBar.new true 10 0))))
    by (apply ProgressBar.reachable_advance, ProgressBar.reachable_new).
  split; [exact Hr |].
  destruct (setProgress_raises_max_and_clamps _ 12 None Hr) as (H1 & _).
  destruct (setProgress_raises_max_and_clamps _ (-3) (Some RangeError) Hr) as (_ & H2 & _).
  destruct H1 as [H1a H1b]; [split; [discriminate | reflexivity] |].
  split; [exact H1a |]. split; [exact H1b |].
  apply H2. reflexivity.
Defined.

(** ** Table *)

Module TableFacts.
Import Table Spec.

Lemma stable_refl tb : stable tb tb.
Proof. repeat split. Qed.

Lemma stable_trans a b c : stable a b -> stable b c -> stable a c.
Proof.
  intros [(H1 & H2 & H3) H4] [(G1 & G2 & G3) G4].
  repeat split; congruence.
Qed.

Lemma quietly_ret {A : Type} (a : A) : quietly (ret a).
Proof. intros tb r tb' [= <- <-]. apply stable_refl. Qed.

Lemma quietly_throw {A : Type} (e : Error) : quietly (@throw Table.t A e).
Proof. intros tb r tb' [= <- <-]. apply stable_refl. Qed.

Lemma quietly_lift {A : Type} (x : result A) : quietly (@lift Table.t A x).
Proof. intros tb r tb' [= <- <-]. apply stable_refl. Qed.

Lemma quietly_get : quietly (@get Table.t).
Proof. intros tb r tb' [= <- <-]. apply stable_refl. Qed.

Lemma quietly_bind {A B : Type} (m : M Table.t A) (k : A -> M Table.t B) :
  quietly m -> (forall a, quietly (k a)) -> quietly (bind m k).
Proof.
  intros Hm Hk tb r tb'. unfold bind.
  destruct (m tb) as [[a | e] tb1] eqn:E.
  - intros H. eapply stable_trans; [eapply Hm, E | eapply Hk, H].
  - intros [= <- <-]. eapply Hm, E.
Qed.

Lemma quietly_theStyle : quietly theStyle.
Proof.
  intros tb r tb'. unfold theStyle.
  destruct (style tb); intros [= <- <-]; apply stable_refl.
Qed.

Lemma quietly_onFormatter {A : Type} (m : M OutputFormatter.t A) :
  quietly (onFormatter m).
Proof.
  intros tb r tb'. unfold onFormatter, onOutput.
  destruct (m (Output.formatter (output tb))) as [r1 f1].
  intros [= <- <-]. repeat split.
Qed.

Lemma quietly_setWidths (f : Table.t -> gmap nat Z) :
  quietly (modify (fun tb => setEffectiveColumnWidths (f tb) tb)).
Proof. intros tb r tb' [= <- <-]. repeat split. Qed.

Create HintDb quiet.
#[export] Hint Resolve quietly_ret quietly_throw quietly_lift quietly_get
  quietly_theStyle quietly_onFormatter quietly_setWidths : quiet.

(** Closes a goal [quietly m] for a straight-line [m]. *)
Ltac quiet :=
  repeat first
    [ apply quietly_bind; [| intros ? ]
    | solve [ auto with quiet ]
    | match goal with
      | |- quietly (match ?x with _ => _ end) => destruct x
      | |- quietly (if ?x then _ else _) => destruct x
      | |- quietly (let '(_, _) := ?x in _) => destruct x
      end ].

Section Rendering.

Variable sprintf : string -> list string -> result string.

Lemma quietly_getColumnSeparatorWidth : quietly (getColumnSeparatorWidth sprintf).
Proof. unfold getColumnSeparatorWidth. quiet. Qed.

Lemma quietly_getCellWidth r column : quietly (getCellWidth r column).
Proof. unfold getCellWidth. quiet. Qed.

Lemma quietly_chunkCells r : forall pending, quietly (chunkCells pending r).
Proof.
  induction r as [| x r IH]; intros pending; cbn [chunkCells]; [quiet |].
  destruct pending as [| p pending'].
  - destruct x as [c |]; [| pose proof (IH []); quiet].
    destruct (asTableCell c) as [tc |]; [| pose proof (IH []); quiet].
    apply quietly_bind; [auto with quiet |]. intros textContent.
    destruct (0 <? _)%Z; [| pose proof (IH []); quiet].
    destruct (if (colspan tc =? 0)%Z then _ else _) as [[| first others] |].
    + pose proof (IH []); quiet.
    + pose proof (IH others); quiet.
    + quiet.
  - pose proof (IH pending'); quiet.
Qed.

Lemma quietly_columnLengths column rs : quietly (columnLengths column rs).
Proof.
  induction rs as [| r rs IH]; cbn [columnLengths]; [quiet |].
  destruct r as [cells | c |]; [| exact IH | quiet].
  apply quietly_bind; [apply quietly_chunkCells |]. intros r'.
  apply quietly_bind; [apply quietly_getCellWidth |]. intros w.
  quiet.
Qed.

Lemma quietly_columnsWidthLoop rs columns : quietly (columnsWidthLoop columns rs).
Proof.
  induction columns as [| column columns IH]; cbn [columnsWidthLoop]; [quiet |].
  apply quietly_bind; [apply quietly_columnLengths |]. intros lengths.
  apply quietly_bind; [auto with quiet |]. intros s.
  destruct lengths as [| l ls]; [quiet |].
  apply quietly_bind; [apply quietly_setWidths |]. intros _. exact IH.
Qed.

Lemma quietly_calculateColumnsWidth rs : quietly (calculateColumnsWidth rs).
Proof.
  unfold calculateColumnsWidth. apply quietly_bind; [auto with quiet |].
  intros tb. apply quietly_columnsWidthLoop.
Qed.

Lemma quietly_renderColumnSeparator : quietly (renderColumnSeparator sprintf).
Proof. unfold renderColumnSeparator. quiet. Qed.

Lemma quietly_spannedWidth nextColumns :
  forall width, quietly (spannedWidth sprintf nextColumns width).
Proof.
  induction nextColumns as [| c cs IH]; intros width; cbn [spannedWidth]; [quiet |].
  apply quietly_bind; [apply quietly_getColumnSeparatorWidth |]. intros sep.
  apply quietly_bind; [auto with quiet |]. intros tb. apply IH.
Qed.

Lemma quietly_renderCell r column cellFormat :
  quietly (renderCell sprintf r column cellFormat).
Proof.
  unfold renderCell.
  apply quietly_bind; [auto with quiet |]. intros tb.
  apply quietly_bind.
  - destruct (asTableCell _) as [tc |]; [| quiet].
    destruct (1 <? colspan tc)%Z; [apply quietly_spannedWidth | quiet].
  - intros width1. quiet.
Qed.

Lemma quietly_rowContentLoop r cellFormat columns :
  forall rowContent, quietly (rowContentLoop sprintf r cellFormat columns rowContent).
Proof.
  induction columns as [| c cs IH]; intros rowContent; cbn [rowContentLoop]; [quiet |].
  apply quietly_bind; [apply quietly_renderCell |]. intros x.
  apply quietly_bind; [apply quietly_renderColumnSeparator |]. intros sep. apply IH.
Qed.

(** *** The lines written *)

Lemma sameSetup_trans a b c : sameSetup a b -> sameSetup b c -> sameSetup a c.
Proof. intros (H1 & H2 & H3) (G1 & G2 & G3). repeat split; congruence. Qed.

Lemma setupOnly_borderLines : setupOnly borderLines.
Proof.
  intros a b (H1 & H2 & H3). unfold borderLines, quietOutput, columnCount.
  now rewrite H1, H2, H3.
Qed.

Lemma setupOnly_contentLines r : setupOnly (fun tb => contentLines tb r).
Proof.
  intros a b (H1 & H2 & H3). unfold contentLines, quietOutput. now rewrite H3.
Qed.

Lemma setupOnly_bodyLines r : setupOnly (fun tb => bodyLines tb r).
Proof.
  intros a b H. destruct r as [cells | c |]; cbn [bodyLines].
  - apply (setupOnly_contentLines (Row cells) a b H).
  - apply (setupOnly_borderLines a b H).
  - reflexivity.
Qed.

Lemma setupOnly_app ks1 ks2 :
  setupOnly ks1 -> setupOnly ks2 -> setupOnly (fun tb => ks1 tb ++ ks2 tb)%list.
Proof. intros H1 H2 a b H. now rewrite (H1 a b H), (H2 a b H). Qed.

Lemma setupOnly_flat_map {A : Type} (f : Table.t -> A -> list Output.Origin) (l : list A) :
  (forall x, setupOnly (fun tb => f tb x)) ->
  setupOnly (fun tb => flat_map (f tb) l).
Proof.
  intros Hf a b H. induction l as [| x l IH]; [reflexivity |].
  simpl. now rewrite (Hf x a b H), IH.
Qed.

Lemma emits_ret : emits (ret tt) (fun _ => []).
Proof.
  intros tb tb' [= <-]. split; [repeat split |]. now rewrite app_nil_r.
Qed.

(** A quiet step, then a step that writes *)
Lemma emits_after_quiet {A : Type} (m : M Table.t A) (k : A -> M Table.t unit) ks :
  quietly m -> (forall a, emits (k a) ks) -> setupOnly ks -> emits (bind m k) ks.
Proof.
  intros Hm Hk Hks tb tb'. unfold bind.
  destruct (m tb) as [[a | e] tb1] eqn:E; [| discriminate].
  intros H. apply Hm in E as [Hset Hkinds]. apply Hk in H as [Hset' Hkinds'].
  split; [eapply sameSetup_trans; eassumption |].
  now rewrite Hkinds', Hkinds, (Hks tb tb1 Hset).
Qed.

(** Two steps that write *)
Lemma emits_seq (m1 m2 : M Table.t unit) ks1 ks2 :
  emits m1 ks1 -> emits m2 ks2 -> setupOnly ks2 ->
  emits (m1 ;;; m2) (fun tb => ks1 tb ++ ks2 tb)%list.
Proof.
  intros H1 H2 Hks tb tb'. unfold bind.
  destruct (m1 tb) as [[[] | e] tb1] eqn:E; [| discriminate].
  intros H. apply H1 in E as [Hset Hkinds]. apply H2 in H as [Hset' Hkinds'].
  split; [eapply sameSetup_trans; eassumption |].
  now rewrite Hkinds', Hkinds, (Hks tb tb1 Hset), app_assoc.
Qed.

Lemma emits_writeln origin line :
  emits (onOutput (Output.writeln origin line))
        (fun tb => if quietOutput tb then [] else [origin]).
Proof.
  intros tb tb'. unfold onOutput, Output.writeln, Output.write, quietOutput, kinds.
  destruct (Output.verbosity (output tb) <? Output.VERBOSITY_NORMAL)%Z.
  - intros [= <-]. split; [repeat split |]. simpl. now rewrite app_nil_r.
  - destruct (OutputFormatter.format line (Output.formatter (output tb)))
      as [[line' | e] f']; [| discriminate].
    intros [= <-]. split; [repeat split |]. simpl. now rewrite map_app.
Qed.

Lemma emits_renderRowSeparator : emits (renderRowSeparator sprintf) borderLines.
Proof.
  intros tb tb'. unfold renderRowSeparator, borderLines, bind at 1, get.
  destruct (columnCount tb =? 0)%Z.
  - intros [= <-]. split; [repeat split |]. now rewrite app_nil_r.
  - unfold bind at 1, theStyle. destruct (style tb) as [s |] eqn:Es; [| discriminate].
    destruct ((String.length (TableStyle.horizontalBorderChar s) =? 0)
              && (String.length (TableStyle.crossingChar s) =? 0))%bool.
    + intros [= <-]. split; [repeat split |]. now rewrite app_nil_r.
    + unfold bind at 1, lift.
      destruct (separatorMarkup _ _ _ _) as [markup | e]; [| discriminate].
      unfold bind at 1. destruct (sprintf _ _) as [line | e]; [| discriminate].
      apply emits_writeln.
Qed.

Lemma emits_renderRow r cellFormat :
  emits (renderRow sprintf r cellFormat) (fun tb => contentLines tb (Row r)).
Proof.
  unfold renderRow. destruct r as [| c r]; [apply emits_ret |].
  apply emits_after_quiet;
    [apply quietly_renderColumnSeparator | | apply (setupOnly_contentLines (Row (c :: r)))].
  intros rowContent.
  apply emits_after_quiet;
    [apply quietly_get | | apply (setupOnly_contentLines (Row (c :: r)))].
  intros tb0.
  apply emits_after_quiet;
    [apply quietly_rowContentLoop | | apply (setupOnly_contentLines (Row (c :: r)))].
  intros rowContent'. apply emits_writeln.
Qed.

Lemma emits_renderRowInput r cellFormat :
  emits (renderRowInput sprintf r cellFormat) (fun tb => contentLines tb r).
Proof.
  destruct r as [cells | c |]; simpl.
  - apply emits_renderRow.
  - apply emits_ret.
  - intros tb tb'. discriminate.
Qed.

Lemma emits_renderHeaders hs :
  emits (renderHeaders sprintf hs)
        (fun tb => flat_map (fun h => contentLines tb h ++ borderLines tb)%list hs).
Proof.
  induction hs as [| h hs IH]; cbn [renderHeaders flat_map]; [apply emits_ret |].
  assert (Hrest : setupOnly
            (fun tb => flat_map (fun h => contentLines tb h ++ borderLines tb)%list hs)).
  { apply setupOnly_flat_map. intros x.
    apply setupOnly_app; [apply setupOnly_contentLines | apply setupOnly_borderLines]. }
  apply emits_after_quiet; [apply quietly_theStyle | |].
  - intros s.
    pose proof (emits_seq _ _ _ _ (emits_renderRowInput h (TableStyle.cellHeaderFormat s))
                  (emits_seq _ _ _ _ emits_renderRowSeparator IH Hrest)
                  (setupOnly_app _ _ setupOnly_borderLines Hrest)) as H.
    intros tb tb' Hrun. apply H in Hrun as [Hset Hk]. split; [exact Hset |].
    now rewrite Hk, <- !app_assoc.
  - apply setupOnly_app; [| exact Hrest].
    apply setupOnly_app; [apply setupOnly_contentLines | apply setupOnly_borderLines].
Qed.

Lemma emits_renderBody rs :
  emits (renderBody sprintf rs) (fun tb => flat_map (bodyLines tb) rs).
Proof.
  induction rs as [| r rs IH]; cbn [renderBody flat_map]; [apply emits_ret |].
  assert (Hrest : setupOnly (fun tb => flat_map (bodyLines tb) rs)).
  { apply setupOnly_flat_map. intros x. apply setupOnly_bodyLines. }
  destruct r as [cells | c |].
  - apply emits_after_quiet; [apply quietly_theStyle | |].
    + intros s. apply (emits_seq _ _ _ _ (emits_renderRowInput (Row cells) _) IH Hrest).
    + apply setupOnly_app; [apply (setupOnly_bodyLines (Row cells)) | exact Hrest].
  - apply (emits_seq _ _ _ _ emits_renderRowSeparator IH Hrest).
  - apply emits_after_quiet; [apply quietly_theStyle | |].
    + intros s. apply (emits_seq _ _ _ _ (emits_renderRowInput Undefined _) IH Hrest).
    + apply setupOnly_app; [apply (setupOnly_bodyLines Undefined) | exact Hrest].
Qed.

End Rendering.

(** [buildTableRows] hands no [TableSeparator] on: its second loop skips
    them. *)
Lemma collectRows_notSeparator rs unmergedRows :
  forall rowKey, Forall notSeparator (collectRows rowKey rs unmergedRows).
Proof.
  induction rs as [| r rs IH]; intros rowKey; cbn [collectRows]; [constructor |].
  destruct r as [cells | c |]; [| apply IH | apply IH].
  constructor; [exact I |]. apply Forall_app. split; [| apply IH].
  destruct (unmergedRows !! rowKey) as [extra |]; [| constructor].
  induction extra as [| [x |] extra IHe]; simpl; constructor; auto; exact I.
Qed.

Lemma buildTableRows_notSeparator n rs out :
  buildTableRows n rs = Ok out -> Forall notSeparator out.
Proof.
  unfold buildTableRows.
  destruct (expandRows _ n 0 rs _) as [[rs' unmergedRows] | e]; [| discriminate].
  intros [= <-]. apply collectRows_notSeparator.
Qed.

Lemma calculateNumberOfColumns_counted tb tb' :
  calculateNumberOfColumns tb = (Ok tt, tb') -> tb' = counted tb.
Proof.
  unfold calculateNumberOfColumns, counted, bind, get, lift, modify.
  destruct (numberOfColumns tb) as [n |]; [intros [= <-]; reflexivity |].
  destruct (columnCounts _) as [columns | e]; [| discriminate].
  intros [= <-]. reflexivity.
Qed.

Lemma counted_rows tb :
  rows (counted tb) = rows tb /\ headers (counted tb) = headers tb.
Proof.
  unfold counted. destruct (numberOfColumns tb); [split; reflexivity |].
  destruct (columnCounts _); split; reflexivity.
Qed.

Lemma counted_kinds tb : kinds (counted tb) = kinds tb.
Proof.
  unfold counted. destruct (numberOfColumns tb); [reflexivity |].
  destruct (columnCounts _); reflexivity.
Qed.

Lemma bind_Ok {S A B : Type} (m : M S A) (k : A -> M S B) s b s' :
  bind m k s = (Ok b, s') -> exists a s1, m s = (Ok a, s1) /\ k a s1 = (Ok b, s').
Proof.
  unfold bind. destruct (m s) as [[a | e] s1]; [| discriminate].
  intros H. exists a, s1. split; [reflexivity | exact H].
Qed.

Lemma flat_map_bodyLines tb rs :
  Forall notSeparator rs -> flat_map (bodyLines tb) rs = flat_map (contentLines tb) rs.
Proof.
  induction 1 as [| r rs Hr _ IH]; [reflexivity |].
  simpl. rewrite IH. destruct r; [reflexivity | destruct Hr | reflexivity].
Qed.

Section Order.

Variable sprintf : string -> list string -> result string.

(** The lines of [renderBuilt], whatever the built rows. *)
Lemma renderBuilt_kinds hs rs tb tb' :
  renderBuilt sprintf hs rs tb = (Ok tt, tb') ->
  kinds tb'
  = (kinds tb ++ borderLines tb
     ++ flat_map (fun h => contentLines tb h ++ borderLines tb) hs
     ++ flat_map (bodyLines tb) rs
     ++ match rs with [] => [] | _ => borderLines tb end)%list.
Proof.
  unfold renderBuilt. intros H.
  apply bind_Ok in H as ([] & t1 & H1 & H).
  apply quietly_calculateColumnsWidth in H1 as [S1 K1].
  apply bind_Ok in H as ([] & t2 & H2 & H).
  apply emits_renderRowSeparator in H2 as [S2 K2].
  apply bind_Ok in H as ([] & t3 & H3 & H).
  apply emits_renderHeaders in H3 as [S3 K3].
  apply bind_Ok in H as ([] & t4 & H4 & H).
  apply emits_renderBody in H4 as [S4 K4].
  apply bind_Ok in H as ([] & t5 & H5 & H).
  injection H as <-.
  assert (S12 : sameSetup tb t2) by (eapply sameSetup_trans; eassumption).
  assert (S13 : sameSetup tb t3) by (eapply sameSetup_trans; eassumption).
  assert (S14 : sameSetup tb t4) by (eapply sameSetup_trans; eassumption).
  assert (K5 : kinds t5 = (kinds t4 ++ match rs with [] => [] | _ => borderLines t4 end)%list).
  { destruct rs as [| r rs'].
    - injection H5 as <-. now rewrite app_nil_r.
    - now apply emits_renderRowSeparator in H5 as [_ K5]. }
  change (kinds (setNumberOfColumns None (setEffectiveColumnWidths ∅ t5))) with (kinds t5).
  rewrite K5, K4, K3, K2, K1.
  rewrite (setupOnly_borderLines tb t1 S1).
  rewrite (setupOnly_flat_map (fun tb h => contentLines tb h ++ borderLines tb)%list hs
             (fun x => setupOnly_app _ _ (setupOnly_contentLines x) setupOnly_borderLines)
             tb t2 S12).
  rewrite (setupOnly_flat_map bodyLines rs setupOnly_bodyLines tb t3 S13).
  rewrite (setupOnly_borderLines tb t4 S14).
  now rewrite <- !app_assoc.
Qed.

End Order.

(** ** The line breaks of a cell: [buildTableRows] *)

Lemma split_single (s : string) :
  Js.includes (Js.str1 Js.newline) s = false -> Js.split Js.newline s = [s].
Proof.
  induction s as [| c s IH]; [reflexivity |].
  cbn [Js.includes Js.split]. intros H. apply orb_false_elim in H as [H1 H2].
  unfold Js.str1 in H1. cbn [Js.startsWith] in H1. rewrite andb_true_r in H1.
  rewrite Ascii.eqb_sym in H1. rewrite H1. now rewrite (IH H2).
Qed.

(** The loop over the lines never reaches its second branch: a cell is
    looked at only when its text has no line break, and such a text is
    one line. *)
Lemma splitColumn_keeps (r : row) (column : nat) :
  snd (splitColumn (r, []) column) = []
  /\ length (fst (splitColumn (r, []) column)) = length r
  /\ forall j c, r !! j = Some (Some c) ->
       Js.includes (Js.str1 Js.newline) (toString c) = true ->
       fst (splitColumn (r, []) column) !! j = Some (Some c).
Proof.
  unfold splitColumn.
  destruct (r !! column) as [[c |] |] eqn:E; try (repeat split; auto; fail).
  destruct (Js.includes (Js.str1 Js.newline) (toString c)) eqn:En;
    [repeat split; auto |].
  rewrite (split_single _ En). cbn [placeLines fst snd].
  assert (Hlt : column < length r) by (eapply lookup_lt_Some; eassumption).
  unfold setAt. apply Nat.ltb_lt in Hlt as Hltb. rewrite Hltb.
  split; [reflexivity |]. split; [apply length_insert |].
  intros j c' Hj Hnl.
  destruct (Nat.eq_dec column j) as [-> | Hne].
  - rewrite E in Hj. injection Hj as ->. congruence.
  - rewrite list_lookup_insert_ne by exact Hne. exact Hj.
Qed.

Lemma splitColumns_keeps (columns : list nat) :
  forall r : row,
    snd (List.fold_left splitColumn columns (r, [])) = []
    /\ forall j c, r !! j = Some (Some c) ->
         Js.includes (Js.str1 Js.newline) (toString c) = true ->
         fst (List.fold_left splitColumn columns (r, [])) !! j = Some (Some c).
Proof.
  induction columns as [| column columns IH]; intros r; [split; auto |].
  cbn [List.fold_left].
  destruct (splitColumn_keeps r column) as (He & _ & Hkeep).
  destruct (splitColumn (r, []) column) as [r1 e1]. simpl in He, Hkeep. subst e1.
  destruct (IH r1) as [IH1 IH2]. split; [exact IH1 |].
  intros j c Hj Hnl. apply IH2; [| exact Hnl]. now apply Hkeep.
Qed.

(** ** The first loop of [buildTableRows] ends within [expandFuel] *)

Lemma list_sum_cons (x : nat) (l : list nat) : list_sum (x :: l) = x + list_sum l.
Proof. reflexivity. Qed.

Lemma rowsMeasure_app (a b : list rowInput) :
  rowsMeasure (a ++ b) = rowsMeasure a + rowsMeasure b.
Proof.
  unfold rowsMeasure. rewrite length_app, List.map_app, list_sum_app. lia.
Qed.

Lemma rowsMeasure_cons (x : rowInput) (a : list rowInput) :
  rowsMeasure (x :: a) = S (rowWeight x + rowsMeasure a).
Proof. unfold rowsMeasure. cbn [length List.map]. rewrite list_sum_cons. lia. Qed.

Lemma weightless_sum (r : row) : weightless r -> list_sum (List.map cellWeight r) = 0.
Proof.
  induction 1 as [| c r Hc _ IH]; [reflexivity |].
  cbn [List.map]. rewrite list_sum_cons, Hc, IH. reflexivity.
Qed.

Lemma weightless_setAt (i : nat) (c : cell) (r : row) :
  weightless r -> cellWeight (Some c) = 0 -> weightless (setAt i c r).
Proof.
  intros Hr Hc. unfold setAt, weightless.
  destruct (i <? length r).
  - apply Forall_insert; assumption.
  - apply Forall_app. split; [exact Hr |].
    apply Forall_app. split; [| repeat constructor; exact Hc].
    apply Forall_replicate. reflexivity.
Qed.

Lemma insertAt_sum (k : nat) (c : option cell) (r : row) :
  list_sum (List.map cellWeight (insertAt k c r))
  = list_sum (List.map cellWeight r) + cellWeight c.
Proof.
  unfold insertAt. rewrite List.map_app, list_sum_app. cbn [List.map]. rewrite list_sum_cons.
  rewrite <- (take_drop k r) at 3. rewrite List.map_app, list_sum_app. lia.
Qed.

Lemma mergeCells_sum (u : row) :
  weightless u -> forall (k : nat) (target : row),
  list_sum (List.map cellWeight (mergeCells k u target))
  = list_sum (List.map cellWeight target).
Proof.
  induction 1 as [| c u Hc _ IH]; intros k target; [reflexivity |].
  destruct c as [c |]; cbn [mergeCells]; rewrite IH; [| reflexivity].
  rewrite insertAt_sum, Hc. lia.
Qed.

Lemma weightless_blankCopy (r : row) : weightless (blankCopy r).
Proof.
  unfold weightless, blankCopy. apply Forall_forall. intros x Hx.
  apply list_elem_of_fmap in Hx as (y & -> & _).
  destruct y as [c |]; [| reflexivity].
  destruct (asTableCell c); reflexivity.
Qed.

Lemma weightless_overlayCells (u : row) :
  weightless u -> forall (k : nat) (target : row),
  weightless target -> weightless (overlayCells k u target).
Proof.
  induction 1 as [| c u Hc _ IH]; intros k target Ht; [exact Ht |].
  destruct c as [c |]; cbn [overlayCells]; apply IH; [| exact Ht].
  destruct (0 <? String.length (toString c)); [| exact Ht].
  apply weightless_setAt; assumption.
Qed.

Lemma writeSlots_keeps (line : nat) (nbLines : Z) (column : nat) (span : Z)
    (lines : list (option string)) (slots : list slot) :
  forall (k : nat) (shared : row),
    weightless shared -> Forall slotWeightless slots ->
    Forall slotWeightless (fst (writeSlots line nbLines column span lines k slots shared))
    /\ weightless (snd (writeSlots line nbLines column span lines k slots shared))
    /\ List.map slotDefined (fst (writeSlots line nbLines column span lines k slots shared))
       = List.map slotDefined slots.
Proof.
  induction slots as [| s slots IH]; intros k shared Hs Hall.
  - cbn. auto.
  - apply Forall_cons in Hall as [Hhd Htl].
    cbn [writeSlots].
    set (c := Cell _).
    assert (Hc : cellWeight (Some c) = 0) by reflexivity.
    destruct s as [| | | r].
    + specialize (IH (S k) shared Hs Htl).
      destruct (writeSlots line nbLines column span lines (S k) slots shared) as [o sh].
      cbn [fst snd] in *. destruct IH as (H1 & H2 & H3).
      repeat split; [constructor; assumption | assumption | cbn [List.map]; now rewrite H3].
    + specialize (IH (S k) shared Hs Htl).
      destruct (writeSlots line nbLines column span lines (S k) slots shared) as [o sh].
      cbn [fst snd] in *. destruct IH as (H1 & H2 & H3).
      repeat split; [constructor; assumption | assumption | cbn [List.map]; now rewrite H3].
    + pose proof (weightless_setAt column c shared Hs Hc) as Hs1.
      destruct (nbLines =? _)%Z.
      * cbn [fst snd]. repeat split; [constructor; assumption | assumption].
      * specialize (IH (S k) _ Hs1 Htl).
        destruct (writeSlots line nbLines column span lines (S k) slots _) as [o sh].
        cbn [fst snd] in *. destruct IH as (H1 & H2 & H3).
        repeat split; [constructor; assumption | assumption | cbn [List.map]; now rewrite H3].
    + pose proof (weightless_setAt column c r Hhd Hc) as Hr1.
      destruct (nbLines =? _)%Z.
      * cbn [fst snd]. repeat split; [constructor; assumption | assumption].
      * specialize (IH (S k) shared Hs Htl).
        destruct (writeSlots line nbLines column span lines (S k) slots shared) as [o sh].
        cbn [fst snd] in *. destruct IH as (H1 & H2 & H3).
        repeat split; [constructor; assumption | assumption | cbn [List.map]; now rewrite H3].
Qed.

Lemma filter_fmap_length {A B : Type} (p : B -> bool) (f : A -> B) (l : list A) :
  length (List.filter p (List.map f l)) = length (List.filter (fun a => p (f a)) l).
Proof.
  induction l as [| a l IH]; [reflexivity |].
  cbn [List.map List.filter]. destruct (p (f a)); cbn [length]; now rewrite IH.
Qed.

Lemma filter_interval (p : nat -> bool) (a n : nat) :
  (forall k, p k = true -> a <= k < a + n) ->
  forall N, length (List.filter p (seq 0 N)) <= Nat.min n (N - a).
Proof.
  intros Hp. induction N as [| N IH]; [cbn; lia |].
  rewrite seq_S, List.filter_app, length_app. cbn [Nat.add List.filter].
  destruct (p N) eqn:E; cbn [length]; [apply Hp in E |]; lia.
Qed.

Lemma arrayFillReplace_defined (line : nat) (nbLines : Z) (unmergedRows : list slot) :
  Forall slotWeightless (arrayFillReplace line nbLines unmergedRows)
  /\ (forall j s, arrayFillReplace line nbLines unmergedRows !! j = Some s ->
        slotDefined s = true -> line < j)
  /\ length (List.filter slotDefined (arrayFillReplace line nbLines unmergedRows))
     <= Z.to_nat nbLines.
Proof.
  unfold arrayFillReplace.
  set (N := Nat.max _ _). set (f := fun k : nat => _).
  assert (Hf : forall k, slotDefined (f k) = true ->
                 line + 1 <= k < line + 1 + Z.to_nat nbLines).
  { intros k. unfold f.
    destruct ((line + 1 <=? k) && (k <=? line + Z.to_nat nbLines))%bool eqn:E.
    - apply andb_prop in E as [E1 E2].
      apply Nat.leb_le in E1. apply Nat.leb_le in E2. intros _. lia.
    - destruct (slotEnumerable _); cbn; discriminate. }
  split; [| split].
  - apply Forall_forall. intros s Hs.
    apply list_elem_of_fmap in Hs as (k & -> & _). unfold f.
    destruct (slotEnumerable _), (_ && _)%bool; cbn; auto. constructor.
  - intros j s Hj Hd.
    change (List.map f (seq 0 N)) with (f <$> seq 0 N) in Hj.
    rewrite list_lookup_fmap in Hj.
    destruct (seq 0 N !! j) as [k |] eqn:Ek; [| discriminate].
    apply lookup_seq in Ek as [-> _]. cbn in Hj. injection Hj as <-.
    apply Hf in Hd. lia.
  - rewrite filter_fmap_length.
    pose proof (filter_interval (fun k => slotDefined (f k)) (line + 1) (Z.to_nat nbLines) Hf N).
    lia.
Qed.

Lemma countFrom_le (needle s : string) : Helper.countFrom needle s <= String.length s.
Proof.
  induction s as [| c s IH]; [reflexivity |].
  cbn [Helper.countFrom String.length]. destruct (Js.startsWith needle _); lia.
Qed.

Lemma Forall_setAt (P : option cell -> Prop) (i : nat) (c : cell) (r : row) :
  Forall P r -> P (Some c) -> P None -> Forall P (setAt i c r).
Proof.
  intros Hr Hc Hn. unfold setAt.
  destruct (i <? length r).
  - apply Forall_insert; assumption.
  - apply Forall_app. split; [exact Hr |].
    apply Forall_app. split; [| repeat constructor; exact Hc].
    apply Forall_replicate. exact Hn.
Qed.

Lemma cellWeight_le_sum (r : row) :
  Forall (fun c => cellWeight c <= list_sum (List.map cellWeight r)) r.
Proof.
  induction r as [| c r IH]; [constructor |].
  cbn [List.map]. rewrite list_sum_cons. constructor; [lia |].
  eapply Forall_impl; [exact IH |]. cbn. intros. lia.
Qed.


Lemma defined_length (a b : list slot) :
  List.map slotDefined a = List.map slotDefined b ->
  length (List.filter slotDefined a) = length (List.filter slotDefined b).
Proof.
  intros H.
  pose proof (filter_fmap_length (fun b : bool => b) slotDefined a) as Ha.
  pose proof (filter_fmap_length (fun b : bool => b) slotDefined b) as Hb.
  cbn beta in Ha, Hb.
  change (fun a0 : slot => slotDefined a0) with slotDefined in Ha, Hb.
  rewrite <- Ha, <- Hb, H. reflexivity.
Qed.

Lemma defined_lookup (a b : list slot) (j : nat) (s : slot) :
  List.map slotDefined a = List.map slotDefined b ->
  a !! j = Some s -> exists s', b !! j = Some s' /\ slotDefined s' = slotDefined s.
Proof.
  intros H Hj.
  assert (Hm : (slotDefined <$> a) !! j = Some (slotDefined s))
    by (rewrite list_lookup_fmap, Hj; reflexivity).
  change (slotDefined <$> a) with (List.map slotDefined a) in Hm. rewrite H in Hm.
  change (List.map slotDefined b) with (slotDefined <$> b) in Hm.
  rewrite list_lookup_fmap in Hm.
  destruct (b !! j) as [s' |]; [| discriminate].
  cbn in Hm. injection Hm as Hm. eauto.
Qed.

Lemma spanColumn_inv (line W : nat) (st : Spanning) (column : nat) :
  spanInv line W st -> spanInv line W (spanColumn line st column).
Proof.
  intros Hinv. unfold spanColumn.
  destruct (current st !! column) as [[c |] |] eqn:Ec; try exact Hinv.
  destruct (asTableCell c) as [tc |] eqn:Etc; [| exact Hinv].
  destruct (1 <? rowspan tc)%Z eqn:Espan; [| exact Hinv].
  destruct Hinv as (H1 & H2 & H3 & H4 & H5).
  assert (Hw : Z.to_nat (rowspan tc - 1) + String.length (toString c) <= W).
  { pose proof (Forall_lookup_1 _ _ _ _ H5 Ec) as Hc. cbn in Hc.
    rewrite Etc, Espan in Hc.
    destruct c; cbn in Etc; [discriminate | |]; injection Etc as <-; exact Hc. }
  set (nbLines := if Js.includes _ _ then (if (_ <? _)%Z then _ else _) else _).
  assert (Hn : Z.to_nat nbLines <= W).
  { subst nbLines.
    pose proof (countFrom_le (Js.str1 Js.newline) (toString c)).
    destruct (Js.includes _ _); [destruct (_ - 1 <? _)%Z |]; lia. }
  destruct (arrayFillReplace_defined line nbLines (slots st)) as (A1 & A2 & A3).
  set (lines := if Js.includes _ _ then _ else _).
  destruct (writeSlots_keeps line nbLines column (colspan tc) lines
              (arrayFillReplace line nbLines (slots st)) 0 [] (Forall_nil_2 _) A1)
    as (B1 & B2 & B3).
  destruct (writeSlots line nbLines column (colspan tc) lines 0
              (arrayFillReplace line nbLines (slots st)) []) as [slots2 shared2].
  cbn [fst snd] in B1, B2, B3.
  unfold spanInv. cbn [shared slots current].
  split; [exact B2 |]. split; [exact B1 |]. split; [| split].
  - intros j s Hj Hd.
    destruct (defined_lookup _ _ j s B3 Hj) as (s' & Hs' & Hds).
    apply (A2 j s' Hs'). congruence.
  - rewrite (defined_length _ _ B3). lia.
  - destruct (Js.includes _ _); [| exact H5].
    apply Forall_setAt; [exact H5 | cbn; lia | cbn; lia].
Qed.

Lemma spanColumns_inv (line W : nat) (columns : list nat) :
  forall st, spanInv line W st ->
    spanInv line W (List.fold_left (spanColumn line) columns st).
Proof.
  induction columns as [| column columns IH]; intros st H; [exact H |].
  cbn [List.fold_left]. apply IH, spanColumn_inv, H.
Qed.

Lemma rowsMeasure_insert (x y : rowInput) (rs : list rowInput) :
  forall k m, rs !! k = Some y -> rowWeight x = rowWeight y ->
    rowsMeasure (drop m (<[k := x]> rs)) = rowsMeasure (drop m rs).
Proof.
  induction rs as [| a rs IH]; intros k m Hk Hw; [discriminate |].
  destruct k as [| k], m as [| m]; cbn -[rowsMeasure] in Hk |- *.
  - injection Hk as ->. rewrite !rowsMeasure_cons. lia.
  - reflexivity.
  - rewrite !rowsMeasure_cons. specialize (IH k 0 Hk Hw). rewrite !drop_0 in IH.
    do 2 f_equal. exact IH.
  - apply IH; assumption.
Qed.

Lemma rowsMeasure_insertAt (x : rowInput) (rs : list rowInput) (k m : nat) :
  m <= k -> m <= length rs ->
  rowsMeasure (drop m (insertAt k x rs)) = S (rowWeight x + rowsMeasure (drop m rs)).
Proof.
  intros Hk Hm. unfold insertAt.
  assert (Hlen : m <= length (take k rs)) by (rewrite length_take; lia).
  rewrite (drop_app_le _ _ _ Hlen), rowsMeasure_app, rowsMeasure_cons.
  rewrite <- (take_drop k rs) at 3.
  rewrite (drop_app_le _ _ _ Hlen), rowsMeasure_app. lia.
Qed.

Lemma copyRow_weightless (rs : list rowInput) (line : Z) (blank : row) :
  copyRow rs line = Ok blank -> weightless blank.
Proof.
  unfold copyRow. destruct (line <? 0)%Z; [discriminate |].
  destruct (rs !! Z.to_nat line) as [[r | |] |]; try discriminate.
  intros H. injection H as <-. apply weightless_blankCopy.
Qed.

Lemma copyRow_throw (rs : list rowInput) (line : Z) (e : Error) :
  copyRow rs line = Throw e -> e = TypeError.
Proof.
  unfold copyRow. destruct (line <? 0)%Z; [congruence |].
  destruct (rs !! Z.to_nat line) as [[r | |] |]; congruence.
Qed.

Lemma slotRow_weightless (sh : row) (s : slot) (u : row) :
  weightless sh -> slotWeightless s -> slotRow sh s = Some u -> weightless u.
Proof. destruct s; cbn; intros; congruence. Qed.

Lemma slotRow_defined (sh : row) (s : slot) :
  slotDefined s = match slotRow sh s with Some _ => true | None => false end.
Proof. destruct s; reflexivity. Qed.

Lemma placeSlots_throw (n : Z) (sh : row) (slots : list slot) :
  forall k rs e, placeSlots n sh k slots rs = Throw e -> e = TypeError.
Proof.
  induction slots as [| s slots IH]; intros k rs e H; [discriminate |].
  cbn [placeSlots] in H.
  destruct (slotRow sh s) as [u |]; [| exact (IH _ _ _ H)].
  destruct (match rs !! k with Some (Row target) => _ | _ => None end) as [rs' |];
    [exact (IH _ _ _ H) |].
  destruct (copyRow rs (Z.of_nat k - 1)) as [blank | e'] eqn:Ec; cbn [rbind] in H.
  - exact (IH _ _ _ H).
  - injection H as <-. exact (copyRow_throw _ _ _ Ec).
Qed.

Lemma placeSlots_measure (n : Z) (sh : row) (line : nat) (slots : list slot) :
  weightless sh ->
  forall k rs0 rs1,
    Forall slotWeightless slots ->
    (forall j s, slots !! j = Some s -> slotDefined s = true -> line < k + j) ->
    line < length rs0 ->
    placeSlots n sh k slots rs0 = Ok rs1 ->
    rowsMeasure (drop (S line) rs1)
    <= rowsMeasure (drop (S line) rs0) + length (List.filter slotDefined slots).
Proof.
  intros Hsh. induction slots as [| s slots IH]; intros k rs0 rs1 Hall Hkeys Hline H.
  - injection H as <-. lia.
  - apply Forall_cons in Hall as [Hs Hall].
    assert (Hkeys' : forall j s', slots !! j = Some s' -> slotDefined s' = true ->
                       line < S k + j).
    { intros j s' Hj Hd. specialize (Hkeys (S j) s' Hj Hd). lia. }
    cbn [placeSlots] in H. cbn [List.filter].
    rewrite (slotRow_defined sh s).
    destruct (slotRow sh s) as [u |] eqn:Eu.
    + assert (Hu : weightless u) by (eapply slotRow_weightless; eassumption).
      assert (Hk : line < k).
      { specialize (Hkeys 0 s eq_refl). rewrite (slotRow_defined sh s), Eu in Hkeys.
        specialize (Hkeys eq_refl). lia. }
      cbn [length].
      destruct (rs0 !! k) as [[target | |] |] eqn:Ek;
        [destruct (getNumberOfColumns target + getNumberOfColumns u <=? n)%Z | | |].
      1: { pose proof (fun Hl => IH (S k) _ rs1 Hall Hkeys' Hl H) as IH'.
           rewrite length_insert in IH'. specialize (IH' Hline).
           rewrite (rowsMeasure_insert _ (Row target)) in IH'; [lia | exact Ek |].
           cbn [rowWeight]. apply mergeCells_sum, Hu. }
      all: destruct (copyRow rs0 (Z.of_nat k - 1)) as [blank | e'] eqn:Ec;
             cbn [rbind] in H; [| discriminate];
           pose proof (fun Hl => IH (S k) _ rs1 Hall Hkeys' Hl H) as IH';
           unfold insertAt in IH' at 1; rewrite length_app, length_take in IH';
           cbn [length] in IH'; rewrite length_drop in IH';
           (assert (Hline' : line < k `min` length rs0 + S (length rs0 - k)) by lia);
           specialize (IH' Hline');
           rewrite rowsMeasure_insertAt in IH' by lia;
           cbn [rowWeight] in IH';
           rewrite (weightless_sum (overlayCells 0 u blank)) in IH'
             by (apply weightless_overlayCells;
                 [exact Hu | exact (copyRow_weightless _ _ _ Ec)]);
           lia.
    + exact (IH (S k) rs0 rs1 Hall Hkeys' Hline H).
Qed.

Lemma fillNextRows_throw (n : Z) (rs : list rowInput) (line : nat) (e : Error) :
  fillNextRows n rs line = Throw e -> e = TypeError.
Proof.
  unfold fillNextRows.
  destruct (rs !! line) as [[r | |] |]; try congruence.
  apply placeSlots_throw.
Qed.

Lemma fillNextRows_measure (n : Z) (rs rs1 : list rowInput) (line : nat) (r : row) :
  rs !! line = Some (Row r) ->
  fillNextRows n rs line = Ok rs1 ->
  rowsMeasure (drop (S line) rs1)
  <= rowsMeasure (drop (S line) rs) + rowWeight (Row r).
Proof.
  intros Er H. unfold fillNextRows in H. rewrite Er in H.
  assert (Hinit : spanInv line (rowWeight (Row r)) {| current := r; slots := []; shared := [] |}).
  { unfold spanInv. cbn [current slots shared].
    repeat split; try constructor; [discriminate | cbn; lia | apply cellWeight_le_sum]. }
  pose proof (spanColumns_inv line _ (seq 0 (length r)) _ Hinit) as (I1 & I2 & I3 & I4 & _).
  set (st := List.fold_left _ _ _) in *.
  assert (Hline : line < length (<[line := Row (current st)]> rs)).
  { rewrite length_insert. eapply lookup_lt_Some, Er. }
  pose proof (placeSlots_measure n (shared st) line (slots st) I1 0 _ rs1 I2 I3 Hline H) as Hm.
  rewrite drop_insert_lt in Hm by lia. lia.
Qed.

Lemma expandRows_throw (n : Z) (fuel : nat) :
  forall rowKey rs u e,
    rowsMeasure (drop rowKey rs) <= fuel ->
    expandRows fuel n rowKey rs u = Throw e -> e = TypeError.
Proof.
  induction fuel as [| fuel IH]; intros rowKey rs u e Hm H.
  - assert (Hlen : length rs <= rowKey).
    { unfold rowsMeasure in Hm. rewrite length_drop in Hm. lia. }
    apply Nat.leb_le in Hlen. cbn [expandRows] in H. rewrite Hlen in H. discriminate.
  - cbn [expandRows] in H.
    destruct (length rs <=? rowKey) eqn:Elen; [discriminate |].
    apply Nat.leb_gt in Elen.
    destruct (lookup_lt_is_Some_2 rs rowKey Elen) as [x Ex].
    rewrite (drop_S _ _ _ Ex), rowsMeasure_cons in Hm.
    rewrite Ex in H.
    destruct x as [r | c |]; try (apply (IH (S rowKey) rs u e); [lia | exact H]).
    destruct (fillNextRows n rs rowKey) as [rs1 | e'] eqn:Ef; cbn [rbind] in H.
    + pose proof (fillNextRows_measure _ _ _ _ _ Ex Ef) as Hf.
      destruct (rs1 !! rowKey) as [[r1 | |] |]; try congruence.
      destruct (splitRow r1) as [r' extra].
      apply IH in H; [exact H |].
      rewrite drop_insert_lt by lia. lia.
    + injection H as <-. exact (fillNextRows_throw _ _ _ _ Ef).
Qed.

Lemma buildTableRows_throw (n : Z) (rs : list rowInput) (e : Error) :
  buildTableRows n rs = Throw e -> e = TypeError.
Proof.
  unfold buildTableRows. intros H.
  destruct (expandRows (expandFuel rs) n 0 rs ∅) as [[rs' u] | e'] eqn:E;
    cbn [rbind] in H; [discriminate |].
  injection H as <-. apply (expandRows_throw _ _ _ _ _ _ (Nat.le_refl _) E).
Qed.

End TableFacts.

(** C1, evaluated on the code.  The loop of [buildTableRows] over the
    columns of a row does not split a cell whose text has a line break:
    it skips exactly the cells whose text includes a line break, so such
    a cell stays as it is in its row, and no row is ever set aside to be
    added after it.  The rows with the one cell [a], line break, [b] are
    built as that same single row, and the table is rendered with one
    content line that holds the line break. *)
Theorem multiline_cell_is_not_split :
  Table.buildTableRows 1 TableSamples.twoLines = Ok TableSamples.twoLines
  /\ Output.written
       (Table.output
          (snd (Table.render Helper.sprintfS
                  (TableSamples.table TableStyle.default [] TableSamples.twoLines))))
     = [ (Output.Border, "+-----+", true);
         (Output.Content, "| a" ++ Js.str1 Js.newline ++ "b |", true);
         (Output.Border, "+-----+", true) ]
  /\ forall r : list (option Table.cell),
       snd (Table.splitRow r) = []
       /\ forall (j : nat) (c : Table.cell),
            r !! j = Some (Some c) ->
            Js.includes (Js.str1 Js.newline) (Table.toString c) = true ->
            fst (Table.splitRow r) !! j = Some (Some c).
Proof.
  split; [vm_compute; reflexivity |].
  split; [vm_compute; reflexivity |].
  intros r. unfold Table.splitRow. apply TableFacts.splitColumns_keeps.
Qed.

(** C2, as amended.  For every table without [TableSeparator] rows on
    which [render] returns: the lines written are, in this order, the top
    border, each built header row followed by a separator, each built
    body row as a content row, and a bottom border when there is at least
    one built body row; where a border line is written only if the number
    of columns is not zero, the style has a horizontal border or a
    crossing character and the output is not quiet, and a content line
    only for a row that is not empty, on an output that is not quiet. *)
Theorem render_line_order
    (sprintf : string -> list string -> result string) (tb tb' : Table.t) :
  Forall Spec.notSeparator (Table.headers tb) ->
  Forall Spec.notSeparator (Table.rows tb) ->
  Table.render sprintf tb = (Ok tt, tb') ->
  exists hs rs : list Table.rowInput,
    Table.buildTableRows (Table.columnCount (Spec.counted tb)) (Table.headers tb) = Ok hs
    /\ Table.buildTableRows (Table.columnCount (Spec.counted tb)) (Table.rows tb) = Ok rs
    /\ Spec.kinds tb'
       = (Spec.kinds tb
          ++ Spec.borderLines (Spec.counted tb)
          ++ flat_map (fun h => Spec.contentLines (Spec.counted tb) h
                                ++ Spec.borderLines (Spec.counted tb)) hs
          ++ flat_map (Spec.contentLines (Spec.counted tb)) rs
          ++ match rs with
             | [] => []
             | _ => Spec.borderLines (Spec.counted tb)
             end)%list.
Proof.
  intros _ _ H. unfold Table.render in H.
  apply TableFacts.bind_Ok in H as ([] & t1 & H1 & H).
  apply TableFacts.calculateNumberOfColumns_counted in H1. subst t1.
  apply TableFacts.bind_Ok in H as (t1' & t1 & Hget & H).
  injection Hget as <- <-.
  apply TableFacts.bind_Ok in H as (rs & t2 & Hrs & H).
  unfold lift in Hrs. injection Hrs as Hrs <-.
  apply TableFacts.bind_Ok in H as (hs & t3 & Hhs & H).
  unfold lift in Hhs. injection Hhs as Hhs <-.
  destruct (TableFacts.counted_rows tb) as [Er Eh]. rewrite Er in Hrs. rewrite Eh in Hhs.
  exists hs, rs. split; [exact Hhs |]. split; [exact Hrs |].
  apply TableFacts.renderBuilt_kinds in H. rewrite H.
  rewrite TableFacts.counted_kinds.
  rewrite (TableFacts.flat_map_bodyLines _ rs
             (TableFacts.buildTableRows_notSeparator _ _ _ Hrs)).
  reflexivity.
Qed.

Lemma render_line_order_witness :
  Forall Spec.notSeparator (Table.headers (TableSamples.small TableStyle.default))
  /\ Forall Spec.notSeparator (Table.rows (TableSamples.small TableStyle.default))
  /\ Table.render Helper.sprintfS (TableSamples.small TableStyle.default)
     = (Ok tt, snd (Table.render Helper.sprintfS (TableSamples.small TableStyle.default)))
  /\ Spec.kinds (snd (Table.render Helper.sprintfS (TableSamples.small TableStyle.default)))
     = [Output.Border; Output.Content; Output.Border; Output.Content; Output.Border].
Proof.
  assert (H1 : Forall Spec.notSeparator (Table.headers (TableSamples.small TableStyle.default)))
    by (repeat constructor).
  assert (H2 : Forall Spec.notSeparator (Table.rows (TableSamples.small TableStyle.default)))
    by (repeat constructor).
  assert (H3 : Table.render Helper.sprintfS (TableSamples.small TableStyle.default)
               = (Ok tt, snd (Table.render Helper.sprintfS
                                (TableSamples.small TableStyle.default))))
    by (vm_compute; reflexivity).
  repeat (split; [assumption |]).
  destruct (render_line_order _ _ _ H1 H2 H3) as (hs & rs & Hhs & Hrs & Hk).
  vm_compute in Hhs. vm_compute in Hrs.
  injection Hhs as <-. injection Hrs as <-.
  rewrite Hk. vm_compute. reflexivity.
Defined.

(** C2 as stated fails by design for the built-in style [compact], which
    has neither a horizontal border nor a crossing character: a table
    with one header row and one body row is rendered as two content
    lines, without top border, separator or bottom border. *)
Lemma compact_table_counterexample :
  fst (Table.render Helper.sprintfS (TableSamples.small TableStyle.compact)) = Ok tt
  /\ Output.written
       (Table.output (snd (Table.render Helper.sprintfS (TableSamples.small TableStyle.compact))))
     = [ (Output.Content, " A B ", true); (Output.Content, " 1 2 ", true) ].
Proof. split; vm_compute; reflexivity. Qed.

(** What the code does with a [TableSeparator] among the rows, which the
    statement above leaves out: [buildTableRows] skips it, so no rule is
    drawn between the rows [a] and [b]. *)
Example separator_row_is_skipped :
  Table.buildTableRows 1 (Table.rows TableSamples.separated)
  = Ok [ Table.Row [TableSamples.text "a"]; Table.Row [TableSamples.text "b"] ]
  /\ Output.written
       (Table.output (snd (Table.render Helper.sprintfS TableSamples.separated)))
     = [ (Output.Border, "+---+", true); (Output.Content, "| a |", true);
         (Output.Content, "| b |", true); (Output.Border, "+---+", true) ].
Proof. split; vm_compute; reflexivity. Qed.

(** * Further properties of the code *)

(** ** Styles *)

Module StyleFacts.
Import OutputFormatterStyle.

Lemma AnsiCodeConfig_eqb_eq (a b : AnsiCodeConfig) :
  AnsiCodeConfig_eqb a b = true <-> a = b.
Proof.
  unfold AnsiCodeConfig_eqb. destruct a as [sa ua], b as [sb ub]. cbn [set unset].
  rewrite andb_true_iff, !Nat.eqb_eq. split.
  - intros [-> ->]. reflexivity.
  - intros [= -> ->]. split; reflexivity.
Qed.

Lemma arrContains_In (arr : list AnsiCodeConfig) (item : AnsiCodeConfig) :
  arrContains arr item = true <-> In item arr.
Proof.
  unfold arrContains. rewrite existsb_exists. split.
  - intros (x & Hx & E). apply AnsiCodeConfig_eqb_eq in E. now subst.
  - intros H. exists item. split; [exact H | now apply AnsiCodeConfig_eqb_eq].
Qed.

Lemma setOption_NoDup (o : string) (s s' : t) :
  NoDup (options s) -> setOption o s = Ok s' -> NoDup (options s').
Proof.
  intros Hs. unfold setOption.
  destruct (readName availableOptions o) as [cfg | |]; try discriminate.
  destruct (arrContains (options s) cfg) eqn:E.
  - intros [= <-]. exact Hs.
  - intros [= <-]. cbn [options].
    apply NoDup_app. split; [exact Hs |]. split; [| apply NoDup_singleton].
    intros x Hx Hx'. apply list_elem_of_singleton in Hx'. subst x.
    apply list_elem_of_In, arrContains_In in Hx. congruence.
Qed.

Lemma setOptionsLoop_NoDup (opts : list string) :
  forall s s', NoDup (options s) -> setOptionsLoop opts s = Ok s' -> NoDup (options s').
Proof.
  induction opts as [| o opts IH]; intros s s' Hs; cbn [setOptionsLoop].
  - intros [= <-]. exact Hs.
  - destruct (setOption o s) as [s1 |] eqn:E1; cbn [rbind]; [| discriminate].
    apply IH. eapply setOption_NoDup; eassumption.
Qed.

Lemma setOptions_NoDup (opts : list string) (s s' : t) :
  setOptions opts s = Ok s' -> NoDup (options s').
Proof. unfold setOptions. apply setOptionsLoop_NoDup. cbn. constructor. Qed.

Lemma NoDup_List_filter {A : Type} (f : A -> bool) (l : list A) :
  NoDup l -> NoDup (List.filter f l).
Proof.
  induction 1 as [| x l Hx _ IH]; cbn [List.filter]; [constructor |].
  destruct (f x); [| exact IH].
  constructor; [| exact IH].
  intros Hin. apply Hx. apply list_elem_of_In, List.filter_In in Hin as [Hin _].
  now apply list_elem_of_In.
Qed.

Lemma setForeground_options (c : option string) (s s' : t) :
  setForeground c s = Ok s' -> options s' = options s.
Proof.
  unfold setForeground. destruct c as [c |]; [| now intros [= <-]].
  destruct (readName _ c); try discriminate. now intros [= <-].
Qed.

Lemma setBackground_options (c : option string) (s s' : t) :
  setBackground c s = Ok s' -> options s' = options s.
Proof.
  unfold setBackground. destruct c as [c |]; [| now intros [= <-]].
  destruct (readName _ c); try discriminate. now intros [= <-].
Qed.

End StyleFacts.

(** The enabled options of a style never hold the same option twice. *)
Theorem style_options_have_no_duplicates :
  (forall (fg bg : option string) (opts : list string) (s : OutputFormatterStyle.t),
      OutputFormatterStyle.new fg bg opts = Ok s ->
      NoDup (OutputFormatterStyle.options s))
  /\ (forall (o : string) (s s' : OutputFormatterStyle.t),
         NoDup (OutputFormatterStyle.options s) ->
         (OutputFormatterStyle.setOption o s = Ok s' ->
          NoDup (OutputFormatterStyle.options s'))
         /\ (OutputFormatterStyle.unsetOption o s = Ok s' ->
             NoDup (OutputFormatterStyle.options s')))
  /\ (forall (opts : list string) (s s' : OutputFormatterStyle.t),
         OutputFormatterStyle.setOptions opts s = Ok s' ->
         NoDup (OutputFormatterStyle.options s')).
Proof.
  split; [| split].
  - intros fg bg opts s. unfold OutputFormatterStyle.new.
    destruct (match fg with Some _ => _ | None => _ end) as [s1 |] eqn:E1;
      cbn [rbind]; [| discriminate].
    destruct (match bg with Some _ => _ | None => _ end) as [s2 |] eqn:E2;
      cbn [rbind]; [| discriminate].
    assert (H1 : OutputFormatterStyle.options s1 = []).
    { destruct fg; [apply StyleFacts.setForeground_options in E1; exact E1 |].
      now injection E1 as <-. }
    assert (H2 : OutputFormatterStyle.options s2 = []).
    { destruct bg; [apply StyleFacts.setBackground_options in E2; congruence |].
      injection E2 as <-. exact H1. }
    destruct opts as [| o opts].
    + intros [= <-]. rewrite H2. constructor.
    + apply StyleFacts.setOptions_NoDup.
  - intros o s s' Hs. split.
    + now apply StyleFacts.setOption_NoDup.
    + unfold OutputFormatterStyle.unsetOption.
      destruct (OutputFormatterStyle.readName _ o) as [cfg | |]; try discriminate.
      * intros [= <-]. cbn [OutputFormatterStyle.options]. now apply StyleFacts.NoDup_List_filter.
      * intros [= <-]. exact Hs.
  - intros opts s s'. apply StyleFacts.setOptions_NoDup.
Qed.

(** ** The style stack *)

Module PushFacts.
Import OutputFormatterStyle OutputFormatterStyleStack.

Lemma popSearch_top (style top : OutputFormatterStyle.t)
    (arr : list OutputFormatterStyle.t) :
  Spec.rendersLike style top ->
  popSearch style (arr ++ [top])%list (length (arr ++ [top])%list)
  = Some (length arr, top).
Proof.
  intros H. rewrite length_app, Nat.add_1_r. cbn [popSearch].
  rewrite lookup_app_r by lia. rewrite Nat.sub_diag. cbn.
  unfold Spec.rendersLike in H. rewrite H, String.eqb_refl. reflexivity.
Qed.

End PushFacts.

(** Opening a style and closing it again, by [</>] or by its own
    closing tag, gives the style back and leaves the stack as it was;
    while it is open, it is the current style. *)
Theorem push_then_pop_restores_stack
    (s : OutputFormatterStyle.t) (st : OutputFormatterStyleStack.t) :
  OutputFormatterStyleStack.pop None (OutputFormatterStyleStack.push s st) = Ok (s, st)
  /\ OutputFormatterStyleStack.pop (Some s) (OutputFormatterStyleStack.push s st)
     = Ok (s, st)
  /\ OutputFormatterStyleStack.getCurrent (OutputFormatterStyleStack.push s st) = s.
Proof.
  destruct st as [l e].
  unfold OutputFormatterStyleStack.pop, OutputFormatterStyleStack.getCurrent,
    OutputFormatterStyleStack.push.
  cbn [OutputFormatterStyleStack.styles OutputFormatterStyleStack.emptyStyle].
  destruct (l ++ [s])%list eqn:E; [destruct l; discriminate |]. rewrite <- E.
  split; [| split].
  - now rewrite StackFacts.last_snoc, StackFacts.removelast_snoc.
  - rewrite PushFacts.popSearch_top by reflexivity. now rewrite take_app_length.
  - rewrite length_app, Nat.add_1_r, Nat.sub_succ, Nat.sub_0_r.
    rewrite lookup_app_r by lia. now rewrite Nat.sub_diag.
Qed.

(** ** Control sequences *)

Module AnsiFacts.
Import StringFacts Spec.

Lemma allChars_app (p : ascii -> bool) (a b : string) :
  Spec.allChars p (a ++ b) = (Spec.allChars p a && Spec.allChars p b)%bool.
Proof.
  induction a as [| c a IH]; [reflexivity |].
  rewrite append_cons. cbn [Spec.allChars]. rewrite IH. now rewrite andb_assoc.
Qed.

Lemma codeChar_uint (d : Decimal.uint) :
  Spec.allChars codeChar (NilEmpty.string_of_uint d) = true.
Proof. induction d; cbn; auto. Qed.

Lemma codeChar_ofNat (n : nat) : Spec.allChars codeChar (Js.ofNat n) = true.
Proof.
  unfold Js.ofNat, NilZero.string_of_uint.
  destruct (Nat.to_uint n) eqn:E; try (rewrite <- E; apply codeChar_uint).
  reflexivity.
Qed.

Lemma codeChar_join (codes : list nat) :
  Spec.allChars codeChar (Js.join ";" (List.map Js.ofNat codes)) = true.
Proof.
  induction codes as [| n codes IH]; [reflexivity |].
  cbn [List.map Js.join]. destruct (List.map Js.ofNat codes) as [| x l] eqn:E.
  - apply codeChar_ofNat.
  - rewrite !allChars_app, codeChar_ofNat, IH. reflexivity.
Qed.

(** Inside a control sequence, everything up to the first [m] goes. *)
Lemma stripAnsiFrom_sequence (codes rest : string) :
  Spec.allChars codeChar codes = true ->
  Helper.stripAnsiFrom true (codes ++ "m" ++ rest) = Helper.stripAnsiFrom false rest.
Proof.
  induction codes as [| c codes IH]; intros H.
  - reflexivity.
  - cbn [Spec.allChars] in H. apply andb_prop in H as [Hc H].
    rewrite append_cons. cbn [Helper.stripAnsiFrom].
    destruct (Ascii.eqb_spec c "m") as [-> | _]; [discriminate |].
    now apply IH.
Qed.

Lemma stripAnsiFrom_csi (codes rest : string) :
  Spec.allChars codeChar codes = true ->
  Helper.stripAnsiFrom false (Js.str1 Js.esc ++ "[" ++ codes ++ "m" ++ rest)
  = Helper.stripAnsiFrom false rest.
Proof.
  intros H. unfold Js.str1. rewrite append_cons, append_nil_l.
  cbn [Helper.stripAnsiFrom]. rewrite Ascii.eqb_refl.
  rewrite (startsWith_append "[").
  change (Js.sliceFrom 1 ("[" ++ codes ++ "m" ++ rest)) with (codes ++ "m" ++ rest).
  rewrite (includes_append codes "m" rest). cbn [andb].
  change ("[" ++ codes ++ "m" ++ rest) with (String "[" (codes ++ "m" ++ rest)).
  cbn [Helper.stripAnsiFrom]. change (Ascii.eqb "[" "m") with false. cbn iota.
  now apply stripAnsiFrom_sequence.
Qed.

Lemma stripAnsiFrom_csi_end (codes : string) :
  Spec.allChars codeChar codes = true ->
  Helper.stripAnsiFrom false (Js.str1 Js.esc ++ "[" ++ codes ++ "m") = "".
Proof. intros H. exact (stripAnsiFrom_csi codes "" H). Qed.

Lemma stripAnsiFrom_text (text rest : string) :
  Js.includes (Js.str1 Js.esc) text = false ->
  Helper.stripAnsiFrom false (text ++ rest) = text ++ Helper.stripAnsiFrom false rest.
Proof.
  induction text as [| c text IH]; intros H; [reflexivity |].
  cbn [Js.includes] in H. apply orb_false_elim in H as [Hc H].
  unfold Js.str1 in Hc. cbn [Js.startsWith] in Hc. rewrite andb_true_r in Hc.
  rewrite !append_cons. cbn [Helper.stripAnsiFrom].
  rewrite Ascii.eqb_sym in Hc. rewrite Hc. cbn [andb].
  now rewrite IH.
Qed.

End AnsiFacts.

(** Removing the escape sequences undoes [apply]: whatever the style,
    a text without an escape character comes back as it was. *)
Theorem stripAnsi_undoes_apply (s : OutputFormatterStyle.t) (text : string) :
  Js.includes (Js.str1 Js.esc) text = false ->
  Helper.stripAnsi (OutputFormatterStyle.apply s text) = text.
Proof.
  intros H. unfold Helper.stripAnsi, OutputFormatterStyle.apply.
  destruct (OutputFormatterStyle.setCodes s) as [| c codes] eqn:E.
  - rewrite <- (StringFacts.append_nil_r text) at 1.
    rewrite (AnsiFacts.stripAnsiFrom_text text "" H). apply StringFacts.append_nil_r.
  - rewrite <- E.
    rewrite AnsiFacts.stripAnsiFrom_csi by apply AnsiFacts.codeChar_join.
    rewrite (AnsiFacts.stripAnsiFrom_text text _ H).
    rewrite AnsiFacts.stripAnsiFrom_csi_end by apply AnsiFacts.codeChar_join.
    apply StringFacts.append_nil_r.
Qed.

Lemma stripAnsi_undoes_apply_witness :
  Js.includes (Js.str1 Js.esc) "done" = false
  /\ Helper.stripAnsi (OutputFormatterStyle.apply Samples.error "done") = "done".
Proof.
  split; [reflexivity |].
  apply (stripAnsi_undoes_apply Samples.error "done"). reflexivity.
Defined.

(** ** Chunks, padding and ranges *)

Module HelperFacts.
Import StringFacts.

Lemma join_empty_cons (x : string) (l : list string) :
  Js.join "" (x :: l) = x ++ Js.join "" l.
Proof.
  destruct l as [| y l]; cbn [Js.join]; [now rewrite append_nil_r |].
  now rewrite append_nil_l.
Qed.

Lemma chunkFrom_join (size : nat) (s : string) :
  forall room cur, Js.join "" (Helper.chunkFrom size room cur s) = cur ++ s.
Proof.
  induction s as [| c s IH]; intros room cur; cbn [Helper.chunkFrom].
  - destruct cur; [reflexivity |]. cbn [Js.join]. now rewrite append_nil_r.
  - assert (Hnext : forall room', Js.join "" (Helper.chunkFrom size room' (cur ++ Js.str1 c) s)
                                  = cur ++ String c s).
    { intros room'. rewrite IH. unfold Js.str1. now rewrite append_assoc. }
    destruct room as [| [| r]]; try apply Hnext;
      rewrite join_empty_cons, IH, append_nil_l; unfold Js.str1;
      now rewrite append_assoc.
Qed.

Lemma chunkFrom_sizes (size : nat) (s : string) :
  forall room cur,
    1 <= room -> String.length cur + room = size ->
    Forall (fun chunk => 1 <= String.length chunk <= size)
      (Helper.chunkFrom size room cur s)
    /\ length (Helper.chunkFrom size room cur s) * size
       = (String.length cur + String.length s + (size - 1)) / size * size.
Proof.
  induction s as [| c s IH]; intros room cur Hroom Hsum; cbn [Helper.chunkFrom].
  - destruct cur as [| a cur].
    + split; [constructor |]. cbn [String.length length].
      rewrite Nat.div_small by lia. reflexivity.
    + split; [constructor; [cbn [String.length] in *; lia | constructor] |].
      cbn [length]. replace (String.length (String a cur) + String.length "" + (size - 1))
        with (1 * size + (String.length (String a cur) - 1)) by (cbn [String.length] in *; lia).
      rewrite Nat.div_add_l by lia. rewrite Nat.div_small by (cbn [String.length] in *; lia).
      lia.
  - assert (Hlen : String.length (cur ++ Js.str1 c) = S (String.length cur)).
    { rewrite length_append. cbn. lia. }
    destruct room as [| [| r]]; [lia | |].
    + destruct (IH size "" ltac:(lia) ltac:(cbn; lia)) as [IH1 IH2].
      split; [constructor; [rewrite Hlen; lia | exact IH1] |].
      cbn [length String.length] in *. rewrite Nat.mul_succ_l, IH2.
      replace (String.length cur + S (String.length s) + (size - 1))
        with (1 * size + (0 + String.length s + (size - 1))) by lia.
      rewrite Nat.div_add_l by lia. lia.
    + destruct (IH (S r) (cur ++ Js.str1 c) ltac:(lia) ltac:(rewrite Hlen; lia))
        as [IH1 IH2].
      split; [exact IH1 |]. rewrite IH2, Hlen. cbn [String.length].
      f_equal. f_equal. lia.
Qed.

End HelperFacts.

(** Cutting a string into chunks loses nothing: the chunks, put end to
    end, are the string; no chunk is empty or longer than the length
    asked for, and there are as few chunks as that allows. *)
Theorem chunkString_round_trip (s : string) (splitLength : Z) (chunks : list string) :
  Helper.chunkString s splitLength = Some chunks ->
  Js.join "" chunks = s
  /\ Forall (fun chunk => 1 <= String.length chunk <= Z.to_nat splitLength) chunks
  /\ length chunks
     = (String.length s + (Z.to_nat splitLength - 1)) / Z.to_nat splitLength.
Proof.
  unfold Helper.chunkString. destruct (Z.ltb_spec splitLength 1) as [| Hge]; [discriminate |].
  intros [= <-].
  assert (Hsize : 1 <= Z.to_nat splitLength) by lia.
  split; [apply (HelperFacts.chunkFrom_join _ s _ "") |].
  destruct (HelperFacts.chunkFrom_sizes (Z.to_nat splitLength) s (Z.to_nat splitLength) ""
              Hsize eq_refl) as [H1 H2].
  split; [exact H1 |].
  cbn [String.length] in H2. rewrite Nat.add_0_l in H2.
  eapply Nat.mul_cancel_r; [| exact H2]. lia.
Qed.

Lemma chunkString_round_trip_witness :
  Helper.chunkString "abcdefg" 3 = Some ["abc"; "def"; "g"]
  /\ Js.join "" ["abc"; "def"; "g"] = "abcdefg"
  /\ length ["abc"; "def"; "g"] = (String.length "abcdefg" + (Z.to_nat 3 - 1)) / Z.to_nat 3.
Proof.
  assert (H : Helper.chunkString "abcdefg" 3 = Some ["abc"; "def"; "g"]) by reflexivity.
  split; [exact H |].
  destruct (chunkString_round_trip _ _ _ H) as (H1 & _ & H3).
  split; [exact H1 | exact H3].
Defined.

Module PadFacts.
Import StringFacts.

Lemma length_sliceTo (n : nat) (s : string) :
  String.length (Js.sliceTo n s) = Nat.min n (String.length s).
Proof.
  revert s. induction n as [| n IH]; intros [| c s]; cbn; auto.
Qed.

Lemma length_repeat (s : string) (n : nat) :
  String.length (Js.repeat s n) = n * String.length s.
Proof.
  induction n as [| n IH]; [reflexivity |].
  cbn [Js.repeat]. rewrite length_append, IH. lia.
Qed.

Lemma length_strPadRepeater (s : string) (len : nat) :
  s <> "" -> String.length (Helper.strPadRepeater s len) = len.
Proof.
  intros Hs. unfold Helper.strPadRepeater. rewrite length_sliceTo, length_repeat.
  destruct s as [| c s]; [contradiction |]. cbn [String.length]. nia.
Qed.

Lemma sliceTo_app (a b : string) :
  Js.sliceTo (String.length a) (a ++ b) = a.
Proof.
  induction a as [| c a IH]; [destruct b; reflexivity |].
  rewrite append_cons. cbn. now rewrite IH.
Qed.

Lemma sliceTo_app_more (a b : string) (k : nat) :
  Js.sliceTo (String.length a + k) (a ++ b) = a ++ Js.sliceTo k b.
Proof.
  induction a as [| c a IH]; [reflexivity |].
  rewrite !append_cons. cbn. now rewrite IH.
Qed.

End PadFacts.

(** Padding with a non-empty pad string never cuts the input: the
    result is the input with padding before it, after it or around it,
    and it is as long as asked for, or as the input when that is longer.
    Right padding only appends, left padding only prepends. *)
Theorem strPad_keeps_input_and_reaches_length
    (input padString : string) (padLength : Z) (padType : Helper.PAD_TYPE) :
  padString <> "" ->
  String.length (Helper.strPad input (Some padLength) padString padType)
  = Nat.max (String.length input) (Z.to_nat padLength)
  /\ exists before after : string,
       Helper.strPad input (Some padLength) padString padType = before ++ input ++ after
       /\ (padType = Helper.STR_PAD_RIGHT -> before = "")
       /\ (padType = Helper.STR_PAD_LEFT -> after = "").
Proof.
  intros Hpad. unfold Helper.strPad.
  destruct (Z.ltb_spec 0 (padLength - Z.of_nat (String.length input))) as [Hgo | Hno].
  2:{ split; [lia |]. exists "", "". rewrite StringFacts.append_nil_r. auto. }
  remember (padLength - Z.of_nat (String.length input))%Z as padToGo eqn:EpadToGo.
  destruct padType.
  - split.
    + rewrite StringFacts.length_append, PadFacts.length_strPadRepeater by exact Hpad. lia.
    + exists (Helper.strPadRepeater padString (Z.to_nat padToGo)), "".
      rewrite StringFacts.append_nil_r. split; [reflexivity |]. split; [discriminate | auto].
  - split.
    + rewrite StringFacts.length_append, PadFacts.length_strPadRepeater by exact Hpad. lia.
    + exists "", (Helper.strPadRepeater padString (Z.to_nat padToGo)).
      split; [reflexivity |]. split; [auto | discriminate].
  - set (half := Helper.strPadRepeater padString (Z.to_nat ((padToGo + 1) / 2))).
    assert (Hhalf : String.length half = Z.to_nat ((padToGo + 1) / 2))
      by (apply PadFacts.length_strPadRepeater, Hpad).
    assert (Hle : (1 <= (padToGo + 1) / 2 <= padToGo
                   /\ padToGo <= 2 * ((padToGo + 1) / 2))%Z).
    { pose proof (Z.div_mod (padToGo + 1) 2 ltac:(lia)).
      pose proof (Z.mod_pos_bound (padToGo + 1) 2 ltac:(lia)). lia. }
    clearbody half.
    split.
    + rewrite PadFacts.length_sliceTo, !StringFacts.length_append, Hhalf. lia.
    + exists half, (Js.sliceTo (Z.to_nat padToGo - String.length half) half).
      split; [| split; discriminate].
      replace (Z.to_nat padLength)
        with (String.length half + (String.length input
                                    + (Z.to_nat padToGo - String.length half))) by lia.
      now rewrite !PadFacts.sliceTo_app_more.
Qed.

Lemma strPad_keeps_input_and_reaches_length_witness :
  " " <> ""
  /\ String.length (Helper.strPad "ab" (Some 5%Z) " " Helper.STR_PAD_LEFT)
     = Nat.max (String.length "ab") (Z.to_nat 5).
Proof.
  assert (H : " " <> "") by discriminate.
  split; [exact H |].
  exact (proj1 (strPad_keeps_input_and_reaches_length "ab" " " 5 Helper.STR_PAD_LEFT H)).
Defined.

Module RangeFacts.

Lemma range_seqZ (from to : Z) : Helper.range from to = seqZ from (to - from + 1).
Proof.
  unfold Helper.range.
  destruct (Z.ltb_spec from to); [reflexivity |].
  destruct (Z.leb_spec from to).
  - replace to with from by lia. replace (from - from + 1)%Z with 1%Z by lia. reflexivity.
  - unfold seqZ. now replace (Z.to_nat (to - from + 1)) with 0 by lia.
Qed.

Lemma elem_of_range (from to x : Z) :
  x ∈ Helper.range from to <-> (from <= x <= to)%Z.
Proof. rewrite range_seqZ, elem_of_seqZ. lia. Qed.

Lemma existsb_range (from to x : Z) :
  existsb (Z.eqb x) (Helper.range from to) = true <-> (from <= x <= to)%Z.
Proof.
  rewrite existsb_exists, <- elem_of_range. split.
  - intros (y & Hy & E). apply Z.eqb_eq in E. subst y. now apply list_elem_of_In.
  - intros H. exists x. split; [now apply list_elem_of_In | apply Z.eqb_refl].
Qed.

End RangeFacts.


Module CountFromFacts.

Lemma split_cons (c d : ascii) (s : string) :
  length (Js.split c (String d s)) = (if Ascii.eqb d c then 1 else 0) + length (Js.split c s)
  /\ 1 <= length (Js.split c s).
Proof.
  assert (Hpos : forall t, 1 <= length (Js.split c t)).
  { induction t as [| e t IH]; [cbn; lia |].
    cbn [Js.split]. destruct (Ascii.eqb e c); [cbn [length]; lia |].
    destruct (Js.split c t); cbn [length] in *; lia. }
  split; [| apply Hpos].
  cbn [Js.split]. destruct (Ascii.eqb d c); [reflexivity |].
  pose proof (Hpos s) as H.
  destruct (Js.split c s); [cbn in H; lia | reflexivity].
Qed.

Lemma countFrom_split (c : ascii) (s : string) :
  Helper.countFrom (Js.str1 c) s + 1 = length (Js.split c s).
Proof.
  induction s as [| d s IH]; [reflexivity |].
  rewrite (proj1 (split_cons c d s)), <- IH.
  cbn [Helper.countFrom Js.startsWith Js.str1]. rewrite andb_true_r, (Ascii.eqb_sym c d).
  lia.
Qed.

End CountFromFacts.

(** [countOccurences] refuses the empty needle, and for a needle of one
    character it counts the separators of [split]: one less than the
    number of pieces, so a text has one more line than line breaks. *)
Theorem countOccurences_counts_separators (haystack : string) (c : ascii) :
  Helper.countOccurences haystack "" = None
  /\ Helper.countOccurences haystack (Js.str1 c)
     = Some (length (Js.split c haystack) - 1).
Proof.
  split; [reflexivity |].
  unfold Helper.countOccurences, Js.str1. f_equal.
  pose proof (CountFromFacts.countFrom_split c haystack) as H.
  unfold Js.str1 in H. lia.
Qed.

(** ** Durations *)

Module TimeFacts.

Lemma lastChar_app (a b : string) :
  b <> "" -> Js.lastChar (a ++ b) = Js.lastChar b.
Proof.
  intros Hb. induction a as [| c a IH]; [reflexivity |].
  rewrite StringFacts.append_cons. cbn [Js.lastChar].
  destruct (a ++ b) eqn:E; [| exact IH].
  destruct a; [contradiction | discriminate].
Qed.

(** A label with a number ends in the [s] of the plural; no singular
    label does. *)
Lemma plural_is_not_singular (n label singular : string) :
  Js.lastChar label = Some "s"%char -> Js.lastChar singular <> Some "s"%char ->
  n ++ " " ++ label <> singular.
Proof.
  intros Hl Hs E. apply Hs. rewrite <- E.
  assert (Hne : label <> "") by (intros ->; discriminate).
  rewrite lastChar_app by (destruct label; [contradiction | discriminate]).
  rewrite (lastChar_app " " label Hne). exact Hl.
Qed.

End TimeFacts.

(** [formatTime] gives a text for every duration that is not
    negative, with the singular labels on the first unit of each
    magnitude only, and gives [undefined] for a negative one. *)
Theorem formatTime_defined_on_durations (secs : Z) :
  (Z.abs secs <= 2 ^ 53)%Z ->
  ((secs < 0)%Z <-> Helper.formatTime secs = Ok None)
  /\ ((0 <= secs)%Z -> exists text, Helper.formatTime secs = Ok (Some text))
  /\ (Helper.formatTime secs = Ok (Some "1 sec") <-> secs = 1%Z)
  /\ (Helper.formatTime secs = Ok (Some "1 min") <-> (60 <= secs < 120)%Z)
  /\ (Helper.formatTime secs = Ok (Some "1 hr") <-> (3600 <= secs < 7200)%Z)
  /\ (Helper.formatTime secs = Ok (Some "1 day") <-> (86400 <= secs < 172800)%Z).
Proof.
  intros Hsafe. unfold Helper.formatTime.
  destruct (Z.ltb_spec (2 ^ 53) (Z.abs secs)) as [| _]; [lia |].
  clear Hsafe.
  assert (Hcase : (secs < 0 \/ secs = 0 \/ secs = 1 \/ 2 <= secs < 60 \/ 60 <= secs < 120
                   \/ 120 <= secs < 3600 \/ 3600 <= secs < 7200 \/ 7200 <= secs < 86400
                   \/ 86400 <= secs < 172800 \/ 172800 <= secs)%Z) by lia.
  unfold Helper.timeFormats. cbn [Helper.formatTimeFrom].
  repeat (destruct Hcase as [Hcase | Hcase]);
    repeat match goal with
           | |- context [(?a <=? secs)%Z] =>
               first [ replace (a <=? secs)%Z with true by (symmetry; apply Z.leb_le; lia)
                     | replace (a <=? secs)%Z with false by (symmetry; apply Z.leb_gt; lia) ]
           | |- context [(secs <? ?a)%Z] =>
               first [ replace (secs <? a)%Z with true by (symmetry; apply Z.ltb_lt; lia)
                     | replace (secs <? a)%Z with false by (symmetry; apply Z.ltb_ge; lia) ]
           end;
    cbn [andb];
    repeat split; intros; try lia; try discriminate; try (eexists; reflexivity).
  all: exfalso; injection H as H; revert H;
    apply TimeFacts.plural_is_not_singular; [reflexivity | discriminate].
Qed.

Lemma formatTime_defined_on_durations_witness :
  (Z.abs 90 <= 2 ^ 53)%Z
  /\ Helper.formatTime 90 = Ok (Some "1 min").
Proof.
  assert (H : (Z.abs 90 <= 2 ^ 53)%Z) by (vm_compute; discriminate).
  split; [exact H |].
  destruct (formatTime_defined_on_durations 90 H) as (_ & _ & _ & Hmin & _).
  apply Hmin. lia.
Defined.

(** ** The progress bar *)

Module RedrawFacts.
Import ProgressBar Spec.
Local Open Scope Z_scope.

Lemma setProgress_redraws (s : Z) (thrown : option Error) (b : ProgressBar.t) :
  step (snd (setProgress s thrown b)) = max (snd (setProgress s thrown b)) ->
  redraws (snd (setProgress s thrown b)) = S (redraws b).
Proof.
  unfold setProgress.
  destruct (negb (max b =? 0) && (max b <? s))%bool; [| destruct (s <? 0)];
    match goal with |- context [if ?c then display _ _ else _] => destruct c eqn:E end;
    cbn [snd step max redraws display]; try reflexivity; intros H;
    apply orb_false_elim in E as [_ E]; apply Z.eqb_neq in E; congruence.
Qed.

End RedrawFacts.

(** [finish] brings every bar to its maximum: afterwards the step is
    the maximum, which is the one the bar had when it was known and the
    step reached otherwise.  The bar is redrawn once on the way, except
    when it already stood at its maximum with overwriting disabled: then
    nothing is drawn again. *)
Theorem finish_reaches_the_maximum (b : ProgressBar.t) (thrown : option Error) :
  ProgressBar.reachable b ->
  ProgressBar.step (snd (ProgressBar.finish thrown b))
  = ProgressBar.max (snd (ProgressBar.finish thrown b))
  /\ ProgressBar.max (snd (ProgressBar.finish thrown b))
     = (if (ProgressBar.max b =? 0)%Z then ProgressBar.step b else ProgressBar.max b)
  /\ ProgressBar.redraws (snd (ProgressBar.finish thrown b))
     = (if ((ProgressBar.step b
             =? (if (ProgressBar.max b =? 0)%Z then ProgressBar.step b
                 else ProgressBar.max b))%Z
            && negb (ProgressBar.shouldOverwrite b))%bool
        then ProgressBar.redraws b
        else S (ProgressBar.redraws b)).
Proof.
  intros Hr. apply ProgressFacts.reachable_wellFormed in Hr as (Hs & Hm & Hle).
  unfold ProgressBar.finish.
  set (b1 := if (ProgressBar.max b =? 0)%Z then _ else b).
  assert (H1 : ProgressBar.step b1 = ProgressBar.step b
                /\ ProgressBar.max b1
                   = (if (ProgressBar.max b =? 0)%Z then ProgressBar.step b
                      else ProgressBar.max b)
                /\ ProgressBar.shouldOverwrite b1 = ProgressBar.shouldOverwrite b
                /\ ProgressBar.redraws b1 = ProgressBar.redraws b).
  { subst b1. destruct (ProgressBar.max b =? 0)%Z; repeat split; reflexivity. }
  destruct H1 as (E1 & E2 & E3 & E4). rewrite <- E2, <- E1, <- E3.
  assert (Hm1 : (0 <= ProgressBar.max b1)%Z).
  { rewrite E2. destruct (ProgressBar.max b =? 0)%Z; lia. }
  clearbody b1.
  destruct ((ProgressBar.step b1 =? ProgressBar.max b1)%Z
            && negb (ProgressBar.shouldOverwrite b1))%bool eqn:E.
  - cbn [snd]. apply andb_prop in E as [E _]. apply Z.eqb_eq in E.
    repeat split; congruence.
  - destruct (ProgressFacts.setProgress_fields (ProgressBar.max b1) thrown b1) as [Fs Fm].
    assert (Fs' : ProgressBar.step (snd (ProgressBar.setProgress (ProgressBar.max b1) thrown b1))
                  = ProgressBar.max b1).
    { rewrite Fs. destruct (Z.eqb_spec (ProgressBar.max b1) 0),
        (Z.ltb_spec (ProgressBar.max b1) (ProgressBar.max b1)),
        (Z.ltb_spec (ProgressBar.max b1) 0); cbn; lia. }
    assert (Fm' : ProgressBar.max (snd (ProgressBar.setProgress (ProgressBar.max b1) thrown b1))
                  = ProgressBar.max b1).
    { rewrite Fm. destruct (Z.eqb_spec (ProgressBar.max b1) 0),
        (Z.ltb_spec (ProgressBar.max b1) (ProgressBar.max b1)); cbn; lia. }
    split; [congruence |]. split; [exact Fm' |].
    rewrite <- E4. apply RedrawFacts.setProgress_redraws. congruence.
Qed.

Lemma finish_reaches_the_maximum_witness :
  ProgressBar.reachable (snd (ProgressBar.advance 5 None (ProgressBar.new true 10 0)))
  /\ ProgressBar.step
       (snd (ProgressBar.finish None
               (snd (ProgressBar.advance 5 None (ProgressBar.new true 10 0)))))
     = ProgressBar.max
         (snd (ProgressBar.finish None
                 (snd (ProgressBar.advance 5 None (ProgressBar.new true 10 0))))).
Proof.
  assert (Hr : ProgressBar.reachable
                 (snd (ProgressBar.advance 5 None (ProgressBar.new true 10 0))))
    by (apply ProgressBar.reachable_advance, ProgressBar.reachable_new).
  split; [exact Hr |].
  exact (proj1 (finish_reaches_the_maximum _ None Hr)).
Defined.

(** Non-negative advances add up: advancing by [a] and then by [c]
    reaches the step and the maximum that advancing by [a + c] at once
    reaches. *)
Theorem advance_adds_up (b : ProgressBar.t) (a c : Z) (t1 t2 t3 : option Error) :
  ProgressBar.reachable b ->
  (0 <= a)%Z -> (0 <= c)%Z ->
  ProgressBar.step (snd (ProgressBar.advance c t2 (snd (ProgressBar.advance a t1 b))))
  = ProgressBar.step (snd (ProgressBar.advance (a + c) t3 b))
  /\ ProgressBar.max (snd (ProgressBar.advance c t2 (snd (ProgressBar.advance a t1 b))))
     = ProgressBar.max (snd (ProgressBar.advance (a + c) t3 b))
  /\ ProgressBar.step (snd (ProgressBar.advance (a + c) t3 b))
     = (ProgressBar.step b + a + c)%Z.
Proof.
  intros Hr Ha Hc. apply ProgressFacts.reachable_wellFormed in Hr as (Hs & Hm & Hle).
  unfold ProgressBar.advance.
  destruct (ProgressFacts.setProgress_fields (ProgressBar.step b + a) t1 b) as [S1 M1].
  destruct (ProgressFacts.setProgress_fields (ProgressBar.step b + (a + c)) t3 b) as [S3 M3].
  set (b1 := snd (ProgressBar.setProgress (ProgressBar.step b + a) t1 b)) in *.
  destruct (ProgressFacts.setProgress_fields (ProgressBar.step b1 + c) t2 b1) as [S2 M2].
  rewrite S2, M2, S3, M3, S1, M1.
  destruct (Z.eqb_spec (ProgressBar.max b) 0) as [E0 | E0].
  - cbn [negb andb].
    destruct (Z.ltb_spec (ProgressBar.step b + a) 0); [lia |].
    destruct (Z.ltb_spec (ProgressBar.step b + (a + c)) 0); [lia |].
    rewrite E0. cbn [Z.eqb negb andb].
    destruct (Z.ltb_spec (ProgressBar.step b + a + c) 0); [lia |]. lia.
  - cbn [negb andb].
    destruct (Z.ltb_spec (ProgressBar.max b) (ProgressBar.step b + a)),
      (Z.ltb_spec (ProgressBar.max b) (ProgressBar.step b + (a + c)));
      try lia;
      repeat match goal with
             | |- context [(?x =? 0)%Z] => destruct (Z.eqb_spec x 0); try lia
             | |- context [(?x <? ?y)%Z] => destruct (Z.ltb_spec x y); try lia
             end; cbn [negb andb]; try lia.
Qed.

Lemma advance_adds_up_witness :
  ProgressBar.reachable (ProgressBar.new true 10 0)
  /\ (0 <= 3)%Z /\ (0 <= 4)%Z
  /\ ProgressBar.step
       (snd (ProgressBar.advance 4 None
               (snd (ProgressBar.advance 3 None (ProgressBar.new true 10 0)))))
     = ProgressBar.step (snd (ProgressBar.advance (3 + 4) None (ProgressBar.new true 10 0))).
Proof.
  assert (Hr : ProgressBar.reachable (ProgressBar.new true 10 0))
    by apply ProgressBar.reachable_new.
  assert (H3 : (0 <= 3)%Z) by lia.
  assert (H4 : (0 <= 4)%Z) by lia.
  repeat (split; [assumption |]).
  exact (proj1 (advance_adds_up _ 3 4 None None None Hr H3 H4)).
Defined.

Module FractionFacts.
Import ProgressBar Spec.

Lemma setRedrawFrequency_inRange (freq : Q) (b : ProgressBar.t) :
  inRange b -> inRange (setRedrawFrequency freq b).
Proof.
  intros (H1 & H2 & H3). unfold inRange, setRedrawFrequency. cbn [redrawFreq percent].
  split; [| split; assumption].
  destruct (Qle_bool freq 1) eqn:E; [apply Qle_refl |].
  apply Qnot_lt_le. intros Hlt. apply Qlt_le_weak in Hlt.
  apply Qle_bool_iff in Hlt. congruence.
Qed.

Lemma ratio_in_unit (s m : Z) :
  (0 <= s <= m)%Z -> m <> 0%Z ->
  (0 <= inject_Z s / inject_Z m)%Q /\ (inject_Z s / inject_Z m <= 1)%Q.
Proof.
  intros Hs Hm.
  assert (Hpos : (0 < inject_Z m)%Q).
  { change 0%Q with (inject_Z 0). rewrite <- Zlt_Qlt. lia. }
  split.
  - apply Qle_shift_div_l; [exact Hpos |]. rewrite Qmult_0_l.
    change 0%Q with (inject_Z 0). rewrite <- Zle_Qle. lia.
  - apply Qle_shift_div_r; [exact Hpos |]. rewrite Qmult_1_l.
    rewrite <- Zle_Qle. lia.
Qed.

Lemma setProgress_inRange (s : Z) (thrown : option Error) (b : ProgressBar.t) :
  wellFormed b -> inRange b -> inRange (snd (setProgress s thrown b)).
Proof.
  intros (Hs & Hm & Hle) (H1 & _ & _).
  unfold inRange, setProgress.
  set (new := if (negb (max b =? 0) && (max b <? s))%Z%bool then (s, s)
              else if (s <? 0)%Z then (max b, 0%Z) else (max b, s)).
  assert (Hnew : (0 <= snd new <= fst new \/ fst new = 0)%Z).
  { subst new.
    destruct (Z.eqb_spec (max b) 0), (Z.ltb_spec (max b) s), (Z.ltb_spec s 0);
      cbn; lia. }
  destruct new as [max' s']. cbn [fst snd] in Hnew.
  match goal with |- context [if ?c then display _ _ else _] => destruct c end;
    cbn [snd display redrawFreq percent];
    (split; [exact H1 |]);
    (destruct (Z.eqb_spec max' 0) as [E | E];
     [split; [apply Qle_refl | discriminate]
     | apply ratio_in_unit; [lia | exact E]]).
Qed.

Lemma reachable_inRange (b : ProgressBar.t) : reachable b -> inRange b.
Proof.
  intros Hr. induction Hr as [decorated m now | b m now thrown Hr IH | b s thrown Hr IH
                  | b s thrown Hr IH | b thrown Hr IH | b thrown Hr IH
                  | b freq Hr IH | b o Hr IH].
  - unfold new. destruct decorated.
    + repeat split; cbn; try apply Qle_refl; discriminate.
    + apply setRedrawFrequency_inRange. repeat split; cbn; try apply Qle_refl; discriminate.
  - destruct IH as (H1 & _ & _). unfold start.
    destruct m as [m |]; (split; [exact H1 |]); split; cbn; discriminate.
  - apply setProgress_inRange; [now apply ProgressFacts.reachable_wellFormed | exact IH].
  - apply setProgress_inRange; [now apply ProgressFacts.reachable_wellFormed | exact IH].
  - apply ProgressFacts.reachable_wellFormed in Hr as Hw.
    unfold finish.
    destruct (max b =? 0)%Z eqn:E0.
    + set (b1 := {| step := step b; max := step b; redrawFreq := _ |}).
      assert (Hw1 : wellFormed b1) by (destruct Hw as (? & ? & ?); repeat split; cbn; lia).
      assert (Hi1 : inRange b1) by exact IH.
      destruct ((step b1 =? max b1)%Z && negb (shouldOverwrite b1))%bool;
        [exact Hi1 | now apply setProgress_inRange].
    + destruct ((step b =? max b)%Z && negb (shouldOverwrite b))%bool;
        [exact IH | now apply setProgress_inRange].
  - exact IH.
  - now apply setRedrawFrequency_inRange.
  - exact IH.
Qed.

End FractionFacts.

(** Whatever is done with a bar, its redraw frequency stays at least 1
    (so [setProgress] never divides by zero) and its progress stays a
    fraction between 0 and 1. *)
Theorem progress_fraction_stays_in_range (b : ProgressBar.t) :
  ProgressBar.reachable b ->
  (1 <= ProgressBar.redrawFreq b)%Q
  /\ (0 <= ProgressBar.percent b)%Q
  /\ (ProgressBar.percent b <= 1)%Q.
Proof. apply FractionFacts.reachable_inRange. Qed.

Lemma progress_fraction_stays_in_range_witness :
  ProgressBar.reachable (snd (ProgressBar.advance 5 None (ProgressBar.new false 10 0)))
  /\ (ProgressBar.percent (snd (ProgressBar.advance 5 None (ProgressBar.new false 10 0)))
      <= 1)%Q.
Proof.
  assert (Hr : ProgressBar.reachable
                 (snd (ProgressBar.advance 5 None (ProgressBar.new false 10 0))))
    by (apply ProgressBar.reachable_advance, ProgressBar.reachable_new).
  split; [exact Hr |].
  exact (proj2 (proj2 (progress_fraction_stays_in_range _ Hr))).
Defined.

Module BarFacts.
Import ProgressBar.

Lemma lengthWithoutDecoration_one (T : string) (f : OutputFormatter.t) :
  String.length T = 1 -> Helper.lengthWithoutDecoration T f = (Ok 1, f).
Proof.
  intros Hlen. destruct T as [| c [| d T]]; try discriminate.
  unfold Helper.lengthWithoutDecoration, Helper.removeDecoration, bind, get, modify.
  rewrite (FormatFacts.format_noTags (String c "")) by (apply FormatFacts.noTags_short; cbn; lia).
  unfold OutputFormatter.applyCurrentStyle. cbn [OutputFormatter.isDecorated
    OutputFormatter.setDecorated OutputFormatter.decorated andb].
  assert (Hu : OutputFormatter.unescape (String c "") = String c "").
  { apply FormatFacts.unescape_plain; cbn; now rewrite ?andb_false_r. }
  rewrite Hu.
  assert (Hs : Helper.stripAnsi (String c "") = String c "").
  { unfold Helper.stripAnsi. cbn. now rewrite andb_false_r. }
  rewrite Hs. unfold ret, OutputFormatter.isDecorated.
  now rewrite FormatFacts.setDecorated_twice, FormatFacts.setDecorated_same.
Qed.

Lemma exactScale_scales : Spec.scales exactScale.
Proof.
  intros p w H0 H1 Hw. unfold exactScale.
  assert (Hwq : (0 <= inject_Z w)%Q).
  { change 0%Q with (inject_Z 0). rewrite <- Zle_Qle. lia. }
  split.
  - change 0%Z with (Qfloor 0). apply Qfloor_resp_le.
    now apply Qmult_le_0_compat.
  - rewrite <- (Qfloor_Z w) at 2. apply Qfloor_resp_le.
    rewrite <- (Qmult_1_l (inject_Z w)) at 2.
    now apply Qmult_le_compat_r.
Qed.

End BarFacts.

(** With bar symbols of one character each, the [bar] placeholder of a
    bar is always exactly as wide as the bar width, and rendering it
    throws nothing and leaves the formatter as it was. This holds
    however the product of the progress and the width is rounded, as
    long as it stays between 0 and the width. *)
Theorem bar_placeholder_has_the_bar_width
    (scale : Q -> Z -> Z) (b : ProgressBar.t) (k : ProgressBar.Look)
    (f : OutputFormatter.t) :
  Spec.scales scale ->
  ProgressBar.reachable b ->
  (1 <= ProgressBar.barWidth k)%Z ->
  String.length (ProgressBar.getBarCharacter b k) = 1 ->
  String.length (ProgressBar.emptyBarChar k) = 1 ->
  String.length (ProgressBar.progressChar k) = 1 ->
  exists display : string,
    ProgressBar.barPlaceholder scale b k f = (Ok display, f)
    /\ Z.of_nat (String.length display) = ProgressBar.barWidth k.
Proof.
  intros Hscale Hr Hw Hbar Hempty Hprog.
  pose proof (ProgressFacts.reachable_wellFormed b Hr) as (Hs & Hm & _).
  pose proof (FractionFacts.reachable_inRange b Hr) as (_ & Hp0 & Hp1).
  unfold ProgressBar.barPlaceholder.
  set (completeBars := if (0 <? ProgressBar.max b)%Z then _ else _).
  assert (Hc : (0 <= completeBars <= ProgressBar.barWidth k)%Z).
  { subst completeBars. destruct (0 <? ProgressBar.max b)%Z.
    - now apply Hscale.
    - pose proof (Z.rem_bound_pos (ProgressBar.step b) (ProgressBar.barWidth k)
                    Hs ltac:(lia)). lia. }
  clearbody completeBars.
  unfold bind, lift, ProgressBar.repeated.
  destruct (Z.ltb_spec completeBars 0) as [| _]; [lia |].
  destruct (Z.ltb_spec completeBars (ProgressBar.barWidth k)) as [Hlt | Hge].
  - rewrite (BarFacts.lengthWithoutDecoration_one _ f Hprog).
    destruct (Z.ltb_spec (ProgressBar.barWidth k - completeBars - Z.of_nat 1) 0)
      as [| _]; [lia |].
    eexists. split; [reflexivity |].
    rewrite !StringFacts.length_append, !PadFacts.length_repeat, Hbar, Hempty, Hprog. lia.
  - eexists. split; [reflexivity |].
    rewrite PadFacts.length_repeat, Hbar. lia.
Qed.

Lemma bar_placeholder_has_the_bar_width_witness :
  Spec.scales ProgressBar.exactScale
  /\ ProgressBar.reachable (snd (ProgressBar.advance 5 None (ProgressBar.new true 10 0)))
  /\ (1 <= ProgressBar.barWidth ProgressBar.defaultLook)%Z
  /\ exists display : string,
       ProgressBar.barPlaceholder ProgressBar.exactScale
         (snd (ProgressBar.advance 5 None (ProgressBar.new true 10 0)))
         ProgressBar.defaultLook Samples.plain
       = (Ok display, Samples.plain)
       /\ Z.of_nat (String.length display) = 28%Z.
Proof.
  assert (Hr : ProgressBar.reachable
                 (snd (ProgressBar.advance 5 None (ProgressBar.new true 10 0))))
    by (apply ProgressBar.reachable_advance, ProgressBar.reachable_new).
  assert (Hw : (1 <= ProgressBar.barWidth ProgressBar.defaultLook)%Z) by (cbn; lia).
  split; [exact BarFacts.exactScale_scales |].
  split; [exact Hr |]. split; [exact Hw |].
  apply (bar_placeholder_has_the_bar_width ProgressBar.exactScale _
           ProgressBar.defaultLook Samples.plain BarFacts.exactScale_scales Hr Hw);
    reflexivity.
Defined.

(** ** Tables *)

Module FillFacts.
Import Table Spec.

Lemma getNumberOfColumns_sum (r : row) :
  getNumberOfColumns r = fold_right Z.add 0%Z (List.map columnsOf r).
Proof.
  unfold getNumberOfColumns.
  set (step := fun (columns : Z) (column : option cell) => _).
  assert (Hfold : forall l init,
             List.fold_left step l init
             = (init + fold_right Z.add 0
                         (List.map (fun c => (columnsOf c
                                              - match c with Some _ => 1 | None => 0 end)%Z) l))%Z).
  { induction l as [| c l IH]; intros init; cbn [List.fold_left List.map fold_right];
      [lia |].
    rewrite IH. subst step. cbn beta. unfold columnsOf.
    destruct c as [c |]; [destruct (asTableCell c) |]; lia. }
  rewrite Hfold. clear Hfold step.
  induction r as [| c r IH]; [reflexivity |].
  cbn [List.filter List.map fold_right]. destruct c as [c |]; cbn [length]; lia.
Qed.

Lemma length_range (from to : Z) :
  (from <= to + 1)%Z -> Z.of_nat (length (Helper.range from to)) = (to - from + 1)%Z.
Proof.
  intros H. unfold Helper.range.
  destruct (Z.ltb_spec from to); [rewrite length_seqZ; lia |].
  destruct (Z.leb_spec from to); cbn [length]; lia.
Qed.

Lemma length_fillCellsFrom (r : row) :
  spansColumns r ->
  forall column, Z.of_nat (length (fillCellsFrom column r))
                 = fold_right Z.add 0%Z (List.map columnsOf r).
Proof.
  induction 1 as [| c r Hc _ IH]; intros column; [reflexivity |].
  cbn [fillCellsFrom List.map fold_right].
  destruct c as [c |]; [| rewrite IH; reflexivity].
  unfold columnsOf in *. destruct (asTableCell c) as [tc |].
  - destruct (Z.ltb_spec 1 (colspan tc)).
    + cbn [length]. rewrite length_app, length_map.
      rewrite Nat2Z.inj_succ, Nat2Z.inj_add, length_range by lia. rewrite IH. lia.
    + cbn [length]. rewrite Nat2Z.inj_succ, IH. lia.
  - cbn [length]. rewrite Nat2Z.inj_succ, IH. lia.
Qed.

End FillFacts.

(** When every [TableCell] of a row spans at least one column,
    [fillCells] gives the row as many cells as [getNumberOfColumns]
    counts columns for it: each cell is followed by one empty string for
    every further column it spans, and empty slots are dropped. *)
Theorem fillCells_length_is_the_column_count (r : list (option Table.cell)) :
  Spec.spansColumns r ->
  Z.of_nat (length (Table.fillCells r)) = Table.getNumberOfColumns r
  /\ Forall (fun c => c <> None) (Table.fillCells r).
Proof.
  intros H. split.
  - unfold Table.fillCells.
    rewrite FillFacts.length_fillCellsFrom by exact H.
    now rewrite FillFacts.getNumberOfColumns_sum.
  - unfold Table.fillCells. generalize 0%Z. clear H.
    induction r as [| c r IH]; intros column; cbn [Table.fillCellsFrom]; [constructor |].
    destruct c as [c |]; [| apply IH].
    constructor; [discriminate |].
    destruct (Table.asTableCell c) as [tc |]; [| apply IH].
    destruct (1 <? Table.colspan tc)%Z; [| apply IH].
    apply Forall_app. split; [| apply IH].
    apply Forall_forall. intros x Hx. apply list_elem_of_fmap in Hx as (y & -> & _).
    discriminate.
Qed.

Lemma fillCells_length_is_the_column_count_witness :
  Spec.spansColumns
    [Some (Table.Cell (Table.newTableCell "a" 2)); None; TableSamples.text "b"]
  /\ Z.of_nat (length (Table.fillCells
                         [Some (Table.Cell (Table.newTableCell "a" 2)); None;
                          TableSamples.text "b"]))
     = 3%Z.
Proof.
  assert (H : Spec.spansColumns
                [Some (Table.Cell (Table.newTableCell "a" 2)); None; TableSamples.text "b"]).
  { repeat constructor; cbn; lia. }
  split; [exact H |].
  exact (proj1 (fillCells_length_is_the_column_count _ H)).
Defined.

Module ColumnFacts.
Import Table Spec RangeFacts.

Lemma coveredFrom_cons (k0 : Z) (c : option cell) (r : row) (x : Z) :
  coveredFrom k0 (c :: r) x
  <-> (exists c' tc, c = Some c' /\ asTableCell c' = Some tc /\ (1 < colspan tc)%Z
                     /\ (k0 < x <= k0 + colspan tc - 1)%Z)
      \/ coveredFrom (k0 + 1) r x.
Proof.
  split.
  - intros (k & c' & tc & Hk & Ht & Hs & Hx). destruct k as [| k].
    + left. cbn in Hk. injection Hk as ->. exists c', tc. repeat split; auto; lia.
    + right. exists k, c', tc. repeat split; auto; lia.
  - intros [(c' & tc & -> & Ht & Hs & Hx) | (k & c' & tc & Hk & Ht & Hs & Hx)].
    + exists 0, c', tc. repeat split; auto; lia.
    + exists (S k), c', tc. repeat split; auto; lia.
Qed.

Lemma elem_of_List_filter {A : Type} (f : A -> bool) (l : list A) (x : A) :
  x ∈ List.filter f l <-> x ∈ l /\ f x = true.
Proof. rewrite !list_elem_of_In. apply List.filter_In. Qed.

Lemma elem_of_excludeGrouped (r : row) :
  forall (k0 : Z) (columns : list Z) (x : Z),
    x ∈ excludeGrouped k0 r columns <-> x ∈ columns /\ ~ coveredFrom k0 r x.
Proof.
  induction r as [| c r IH]; intros k0 columns x; cbn [excludeGrouped].
  - split; [| tauto]. intros H. split; [exact H |].
    intros (k & c & tc & Hk & _). discriminate.
  - rewrite IH, coveredFrom_cons.
    destruct c as [c |]; [destruct (asTableCell c) as [tc |] eqn:Et;
                          [destruct (Z.ltb_spec 1 (colspan tc)) as [Hs | Hs] | ] |].
    + rewrite elem_of_List_filter, negb_true_iff.
      rewrite <- not_true_iff_false, existsb_range.
      split.
      * intros [[Hin Hno] Hrest]. split; [exact Hin |].
        intros [(c' & tc' & [= <-] & Ht' & _ & Hx) | Hc]; [| tauto].
        rewrite Et in Ht'. injection Ht' as <-. lia.
      * intros [Hin Hno]. split; [split; [exact Hin |] |]; [| tauto].
        intros Hx. apply Hno. left. exists c, tc. repeat split; auto; lia.
    + split; intros [Hin Hno]; (split; [exact Hin |]); [| tauto].
      intros [(c' & tc' & [= <-] & Ht' & Hs' & _) | Hc]; [| tauto].
      rewrite Et in Ht'. injection Ht' as <-. lia.
    + split; intros [Hin Hno]; (split; [exact Hin |]); [| tauto].
      intros [(c' & tc' & [= <-] & Ht' & _) | Hc]; [congruence | tauto].
    + split; intros [Hin Hno]; (split; [exact Hin |]); [| tauto].
      intros [(c' & tc' & [=] & _) | Hc]; tauto.
Qed.

Lemma sublist_List_filter {A : Type} (f : A -> bool) (l : list A) :
  List.filter f l `sublist_of` l.
Proof.
  induction l as [| a l IH]; cbn [List.filter]; [constructor |].
  destruct (f a); [now apply sublist_skip | now apply sublist_cons].
Qed.

Lemma sublist_excludeGrouped (r : row) :
  forall (k0 : Z) (columns : list Z), excludeGrouped k0 r columns `sublist_of` columns.
Proof.
  induction r as [| c r IH]; intros k0 columns; cbn [excludeGrouped]; [reflexivity |].
  etransitivity; [apply IH |].
  destruct c as [c |]; [| reflexivity].
  destruct (asTableCell c); [| reflexivity].
  destruct (1 <? colspan _)%Z; [apply sublist_List_filter | reflexivity].
Qed.

End ColumnFacts.

(** The columns a row is rendered for are the columns of the table, in
    ascending order, except those that lie under the span of a cell to
    their left. *)
Theorem getRowColumns_skips_spanned_columns (n : Z) (r : list (option Table.cell)) :
  Table.getRowColumns n r `sublist_of` seqZ 0 n
  /\ forall x : Z,
       x ∈ Table.getRowColumns n r <-> (0 <= x < n)%Z /\ ~ Spec.covered r x.
Proof.
  unfold Table.getRowColumns. split.
  - etransitivity; [apply ColumnFacts.sublist_excludeGrouped |].
    rewrite RangeFacts.range_seqZ. now replace (n - 1 - 0 + 1)%Z with n by lia.
  - intros x. rewrite ColumnFacts.elem_of_excludeGrouped, RangeFacts.elem_of_range.
    assert (Hc : Spec.coveredFrom 0 r x <-> Spec.covered r x).
    { unfold Spec.coveredFrom, Spec.covered.
      split; intros (k & c & tc & H1 & H2 & H3 & H4); exists k, c, tc;
        repeat split; auto; lia. }
    rewrite Hc. intuition lia.
Qed.

Module CountFacts.
Import Table Spec.

Lemma maximum_spec (l : list Z) :
  forall start : Z,
    (start <= maximum l start)%Z
    /\ Forall (fun x => (x <= maximum l start)%Z) l
    /\ (maximum l start = start \/ maximum l start ∈ l).
Proof.
  unfold maximum. induction l as [| x l IH]; intros start; cbn [List.fold_left].
  - split; [lia |]. split; [constructor | now left].
  - destruct (IH (Z.max start x)) as (H1 & H2 & H3).
    split; [lia |]. split; [constructor; [lia | exact H2] |].
    destruct H3 as [H3 | H3].
    + destruct (Z.max_spec start x) as [[_ E] | [_ E]]; rewrite E in *.
      * right. rewrite H3. left.
      * now left.
    + right. now right.
Qed.

Lemma columnCounts_spec (rs : list rowInput) :
  forall counts,
    columnCounts rs = Ok counts ->
    forall x, x ∈ counts <-> exists r, Row r ∈ rs /\ getNumberOfColumns r = x.
Proof.
  induction rs as [| r rs IH]; intros counts; cbn [columnCounts].
  - intros [= <-] x. split; [intros H; inversion H |].
    intros (r & H & _). inversion H.
  - destruct r as [r | c |]; [| | discriminate].
    + destruct (columnCounts rs) as [cs |]; cbn [rbind]; [| discriminate].
      intros [= <-] x. rewrite elem_of_cons, (IH cs eq_refl). split.
      * intros [-> | (r' & Hr' & E)]; [exists r; split; [left | reflexivity] |].
        exists r'. split; [now right | exact E].
      * intros (r' & Hr' & E). apply elem_of_cons in Hr' as [[= ->] | Hr'];
          [now left | right; eauto].
    + intros H x. rewrite (IH counts H). split; intros (r' & Hr' & E); exists r';
        (split; [| exact E]).
      * now right.
      * apply elem_of_cons in Hr' as [Hr' | Hr']; [discriminate | exact Hr'].
Qed.

Lemma columnCounts_throw (rs : list rowInput) (e : Error) :
  columnCounts rs = Throw e -> e = TypeError /\ Undefined ∈ rs.
Proof.
  induction rs as [| r rs IH]; cbn [columnCounts]; [discriminate |].
  destruct r as [r | c |].
  - destruct (columnCounts rs) as [cs | e'] eqn:E; cbn [rbind]; [discriminate |].
    intros [= <-]. destruct (IH eq_refl) as [-> Hin]. split; [reflexivity | now right].
  - intros H. destruct (IH H) as [-> Hin]. split; [reflexivity | now right].
  - intros [= <-]. split; [reflexivity | left].
Qed.

End CountFacts.

(** [calculateNumberOfColumns] keeps a count it already holds.
    Otherwise it takes the greatest column count among the arrays of the
    header and body rows, and 0 when there is none: the count is never
    negative, no row counts more columns, and some row counts as many
    unless the count is 0.  It throws, a [TypeError], only on an empty
    slot among the rows. *)
Theorem calculateNumberOfColumns_takes_the_widest_row (tb : Table.t) :
  (forall n, Table.numberOfColumns tb = Some n ->
             Table.calculateNumberOfColumns tb = (Ok tt, tb))
  /\ (Table.numberOfColumns tb = None ->
      forall tb', Table.calculateNumberOfColumns tb = (Ok tt, tb') ->
        exists n,
          tb' = Table.setNumberOfColumns (Some n) tb
          /\ (0 <= n)%Z
          /\ (forall r, Table.Row r ∈ (Table.headers tb ++ Table.rows tb)%list ->
                        (Table.getNumberOfColumns r <= n)%Z)
          /\ (n = 0%Z
              \/ exists r, Table.Row r ∈ (Table.headers tb ++ Table.rows tb)%list
                           /\ Table.getNumberOfColumns r = n))
  /\ (forall e tb', Table.calculateNumberOfColumns tb = (Throw e, tb') ->
        e = TypeError /\ tb' = tb
        /\ Table.Undefined ∈ (Table.headers tb ++ Table.rows tb)%list).
Proof.
  unfold Table.calculateNumberOfColumns, bind, get, lift, modify.
  split; [| split].
  - intros n ->. reflexivity.
  - intros -> tb'.
    destruct (Table.columnCounts _) as [counts |] eqn:E; [| discriminate].
    intros [= <-]. exists (Table.maximum counts 0). split; [reflexivity |].
    destruct (CountFacts.maximum_spec counts 0) as (H1 & H2 & H3).
    pose proof (CountFacts.columnCounts_spec _ _ E) as Hspec.
    split; [exact H1 |]. split.
    + intros r Hr. rewrite Forall_forall in H2. apply H2. apply Hspec. eauto.
    + destruct H3 as [H3 | H3]; [now left | right]. now apply Hspec.
  - intros e tb'. destruct (Table.numberOfColumns tb); [discriminate |].
    destruct (Table.columnCounts _) as [counts | e'] eqn:E; [discriminate |].
    intros [= <- <-]. destruct (CountFacts.columnCounts_throw _ _ E) as [-> Hin]. auto.
Qed.

Module BuildFacts.
Import Table Spec.

Lemma spanColumn_weightless (line : nat) (st : Spanning) (column : nat) :
  weightless (current st) -> spanColumn line st column = st.
Proof.
  intros Hw. unfold spanColumn.
  destruct (current st !! column) as [[c |] |] eqn:Ec; try reflexivity.
  destruct (asTableCell c) as [tc |] eqn:Et; [| reflexivity].
  destruct (Z.ltb_spec 1 (rowspan tc)) as [Hs | _]; [| reflexivity].
  pose proof (Forall_lookup_1 _ _ _ _ Hw Ec) as H0. cbn in H0. rewrite Et in H0.
  destruct (Z.ltb_spec 1 (rowspan tc)); lia.
Qed.

Lemma spanColumns_weightless (line : nat) (columns : list nat) (st : Spanning) :
  weightless (current st) -> List.fold_left (spanColumn line) columns st = st.
Proof.
  intros Hw. induction columns as [| column columns IH]; [reflexivity |].
  cbn [List.fold_left]. now rewrite spanColumn_weightless.
Qed.

Lemma fillNextRows_weightless (n : Z) (rs : list rowInput) (line : nat) (r : row) :
  rs !! line = Some (Row r) -> weightless r -> fillNextRows n rs line = Ok rs.
Proof.
  intros Er Hw. unfold fillNextRows. rewrite Er.
  rewrite spanColumns_weightless by exact Hw. cbn [slots shared current placeSlots].
  now rewrite list_insert_id.
Qed.

Lemma expandRows_noRowSpans (n : Z) (u : gmap nat (list (option row))) (fuel : nat) :
  forall (rowKey : nat) (rs : list rowInput),
    length rs <= rowKey + fuel ->
    noRowSpans (drop rowKey rs) ->
    expandRows fuel n rowKey rs u
    = Ok ((take rowKey rs ++ List.map splitCells (drop rowKey rs))%list, u).
Proof.
  induction fuel as [| fuel IH]; intros rowKey rs Hlen Hno.
  - assert (Hle : length rs <= rowKey) by lia.
    cbn [expandRows]. apply Nat.leb_le in Hle as Hb. rewrite Hb.
    rewrite drop_ge, take_ge by lia. now rewrite app_nil_r.
  - cbn [expandRows]. destruct (Nat.leb_spec (length rs) rowKey) as [Hle | Hgt].
    + rewrite drop_ge, take_ge by lia. now rewrite app_nil_r.
    + destruct (lookup_lt_is_Some_2 rs rowKey Hgt) as [x Ex]. rewrite Ex.
      rewrite (drop_S _ _ _ Ex) in Hno |- *. apply Forall_cons in Hno as [Hx Hno].
      cbn [List.map].
      destruct x as [r | c |].
      * rewrite (fillNextRows_weightless n rs rowKey r Ex Hx). cbn [rbind]. rewrite Ex.
        pose proof (TableFacts.splitColumns_keeps (seq 0 (length r)) r) as [Hextra _].
        fold (splitRow r) in Hextra.
        destruct (splitRow r) as [r' extra] eqn:Es. cbn [fst snd] in *. subst extra.
        rewrite IH.
        -- rewrite drop_insert_lt by lia.
           rewrite (take_S_r _ _ (Row r')) by (rewrite list_lookup_insert_eq; [reflexivity | lia]).
           rewrite take_insert_ge by lia.
           rewrite <- app_assoc. cbn [splitCells]. rewrite Es. reflexivity.
        -- rewrite length_insert. lia.
        -- rewrite drop_insert_lt by lia. exact Hno.
      * rewrite IH; [| lia | exact Hno].
        rewrite (take_S_r _ _ _ Ex), <- app_assoc. reflexivity.
      * rewrite IH; [| lia | exact Hno].
        rewrite (take_S_r _ _ _ Ex), <- app_assoc. reflexivity.
Qed.

Lemma collectRows_empty (rs : list rowInput) :
  forall rowKey,
    collectRows rowKey rs ∅ = List.map (fun r => Row (fillCells r)) (arrayRows rs).
Proof.
  induction rs as [| x rs IH]; intros rowKey; [reflexivity |].
  cbn [collectRows]. unfold arrayRows in *. cbn [omap list_omap].
  destruct x as [r | c |]; cbn; rewrite ?lookup_empty; cbn; now rewrite IH.
Qed.

Lemma arrayRows_splitCells (rs : list rowInput) :
  arrayRows (List.map splitCells rs) = List.map (fun r => fst (splitRow r)) (arrayRows rs).
Proof.
  unfold arrayRows. induction rs as [| x rs IH]; [reflexivity |].
  destruct x as [r | c |]; cbn; now rewrite IH.
Qed.

End BuildFacts.

(** When no cell spans rows, [buildTableRows] builds each array among
    the rows on its own and in place: it drops the [TableSeparator]s and
    the empty slots, adds no row, and leaves in each row what the loop
    over its columns and [fillCells] make of it. *)
Theorem buildTableRows_without_row_spans (n : Z) (rs : list Table.rowInput) :
  Spec.noRowSpans rs ->
  Table.buildTableRows n rs
  = Ok (List.map (fun r => Table.Row (Table.fillCells (fst (Table.splitRow r))))
          (Spec.arrayRows rs)).
Proof.
  intros Hno. unfold Table.buildTableRows.
  rewrite (BuildFacts.expandRows_noRowSpans n ∅ (Table.expandFuel rs) 0 rs).
  - rewrite take_0, drop_0, app_nil_l. cbn [rbind].
    rewrite BuildFacts.collectRows_empty.
    rewrite BuildFacts.arrayRows_splitCells, List.map_map. reflexivity.
  - unfold Table.expandFuel. lia.
  - exact Hno.
Qed.

Lemma buildTableRows_without_row_spans_witness :
  Spec.noRowSpans (Table.rows TableSamples.separated)
  /\ Table.buildTableRows 1 (Table.rows TableSamples.separated)
     = Ok [Table.Row [TableSamples.text "a"]; Table.Row [TableSamples.text "b"]].
Proof.
  assert (H : Spec.noRowSpans (Table.rows TableSamples.separated)).
  { repeat constructor. }
  split; [exact H |].
  exact (buildTableRows_without_row_spans 1 _ H).
Defined.

Module TextRowFacts.
Import Table Spec.

Lemma textRow_weightless (r : row) : textRow (Row r) -> weightless r.
Proof.
  cbn. intros H. eapply Forall_impl; [exact H |]. intros c [s ->]. reflexivity.
Qed.

Lemma splitColumn_text (r : row) (column : nat) :
  textRow (Row r) -> splitColumn (r, []) column = (r, []).
Proof.
  intros Ht. unfold splitColumn.
  destruct (r !! column) as [[c |] |] eqn:E; try reflexivity.
  destruct (Js.includes (Js.str1 Js.newline) (toString c)) eqn:En; [reflexivity |].
  rewrite (TableFacts.split_single _ En). cbn [placeLines].
  destruct (Forall_lookup_1 _ _ _ _ Ht E) as [s [= ->]].
  cbn [lineCell asTableCell toString]. unfold setAt.
  assert (Hlt : column < length r) by (eapply lookup_lt_Some; eassumption).
  apply Nat.ltb_lt in Hlt. rewrite Hlt. now rewrite list_insert_id.
Qed.

Lemma splitRow_text (r : row) : textRow (Row r) -> splitRow r = (r, []).
Proof.
  intros Ht. unfold splitRow. induction (seq 0 (length r)) as [| column columns IH];
    [reflexivity |].
  cbn [List.fold_left]. now rewrite splitColumn_text.
Qed.

Lemma fillCells_text (r : row) : textRow (Row r) -> fillCells r = r.
Proof.
  intros Ht. unfold fillCells. generalize 0%Z. cbn in Ht.
  induction Ht as [| c r [s ->] _ IH]; intros column; [reflexivity |].
  cbn [fillCellsFrom asTableCell]. now rewrite IH.
Qed.

End TextRowFacts.

(** A table of plain strings is built as it is: when every row is an
    array of strings without empty slot, [buildTableRows] gives the rows
    back unchanged, line breaks in the strings included. *)
Theorem buildTableRows_keeps_rows_of_strings (n : Z) (rs : list Table.rowInput) :
  Forall Spec.textRow rs -> Table.buildTableRows n rs = Ok rs.
Proof.
  intros Ht. unfold Table.buildTableRows.
  rewrite (BuildFacts.expandRows_noRowSpans n ∅ (Table.expandFuel rs) 0 rs).
  - rewrite take_0, drop_0, app_nil_l. cbn [rbind].
    rewrite BuildFacts.collectRows_empty, BuildFacts.arrayRows_splitCells, List.map_map.
    f_equal. induction Ht as [| x rs Hx _ IH]; [reflexivity |].
    destruct x as [r | |]; try contradiction.
    cbn. rewrite TextRowFacts.splitRow_text by exact Hx. cbn [fst].
    rewrite TextRowFacts.fillCells_text by exact Hx. f_equal. exact IH.
  - unfold Table.expandFuel. lia.
  - eapply Forall_impl; [exact Ht |]. intros [r | |] Hx; try contradiction.
    now apply TextRowFacts.textRow_weightless.
Qed.

Lemma buildTableRows_keeps_rows_of_strings_witness :
  Forall Spec.textRow TableSamples.twoLines
  /\ Table.buildTableRows 1 TableSamples.twoLines = Ok TableSamples.twoLines.
Proof.
  assert (H : Forall Spec.textRow TableSamples.twoLines).
  { repeat constructor. eexists. reflexivity. }
  split; [exact H |].
  exact (buildTableRows_keeps_rows_of_strings 1 _ H).
Defined.

Module RowsFacts.
Import Table.

Lemma addRows_Ok (rs : list rowInput) :
  forall tb, Undefined ∉ rs ->
    exists tb', addRows rs tb = Ok tb'
                /\ rows tb' = (rows tb ++ rs)%list
                /\ headers tb' = headers tb /\ style tb' = style tb
                /\ numberOfColumns tb' = numberOfColumns tb.
Proof.
  induction rs as [| r rs IH]; intros tb Hno; cbn [addRows].
  - exists tb. rewrite app_nil_r. auto.
  - assert (Hr : r <> Undefined) by (intros ->; apply Hno; left).
    assert (Hrs : Undefined ∉ rs) by (intros H; apply Hno; now right).
    destruct r as [cells | c |]; try contradiction; cbn [addRow rbind];
      (edestruct IH as (tb' & E & H1 & H2 & H3 & H4); [exact Hrs |]);
      exists tb'; (split; [exact E |]); cbn in H1, H2, H3, H4;
      rewrite H1, <- app_assoc; auto.
Qed.

Lemma addRows_Throw (rs : list rowInput) :
  forall tb, Undefined ∈ rs -> addRows rs tb = Throw PlainError.
Proof.
  induction rs as [| r rs IH]; intros tb Hin; [inversion Hin |].
  cbn [addRows]. destruct r as [cells | c |]; cbn [addRow rbind]; try reflexivity;
    apply IH; apply elem_of_cons in Hin as [Hin | Hin]; try discriminate; exact Hin.
Qed.

End RowsFacts.

(** [setRows] replaces the rows and [addRows] appends to them, in the
    order given, when every row is an array or a [TableSeparator]; with
    anything else among them, both throw the error of [addRow]. *)
Theorem setRows_replaces_and_addRows_appends (rs : list Table.rowInput) (tb : Table.t) :
  (Table.Undefined ∉ rs ->
   exists tb1 tb2,
     Table.addRows rs tb = Ok tb1 /\ Table.rows tb1 = (Table.rows tb ++ rs)%list
     /\ Table.setRows rs tb = Ok tb2 /\ Table.rows tb2 = rs
     /\ Table.headers tb1 = Table.headers tb /\ Table.headers tb2 = Table.headers tb)
  /\ (Table.Undefined ∈ rs ->
      Table.addRows rs tb = Throw PlainError /\ Table.setRows rs tb = Throw PlainError).
Proof.
  split.
  - intros Hno.
    destruct (RowsFacts.addRows_Ok rs tb Hno) as (tb1 & E1 & R1 & H1 & _).
    unfold Table.setRows.
    destruct (RowsFacts.addRows_Ok rs
                {| Table.headers := Table.headers tb; Table.rows := [];
                   Table.effectiveColumnWidths := Table.effectiveColumnWidths tb;
                   Table.numberOfColumns := Table.numberOfColumns tb;
                   Table.output := Table.output tb; Table.style := Table.style tb;
                   Table.columnStyles := Table.columnStyles tb;
                   Table.columnWidths := Table.columnWidths tb |} Hno)
      as (tb2 & E2 & R2 & H2 & _).
    exists tb1, tb2. cbn in R2, H2. repeat split; assumption.
  - intros Hin. split; [| unfold Table.setRows]; now apply RowsFacts.addRows_Throw.
Qed.

(** A [render] that returns has reset what it cached: the number of
    columns and the column widths are forgotten, so that the next
    [render] measures the table afresh. *)
Theorem render_resets_its_caches
    (sprintf : string -> list string -> result string) (tb tb' : Table.t) :
  Table.render sprintf tb = (Ok tt, tb') ->
  Table.numberOfColumns tb' = None /\ Table.effectiveColumnWidths tb' = ∅.
Proof.
  intros H. unfold Table.render in H.
  apply TableFacts.bind_Ok in H as (? & t1 & _ & H).
  apply TableFacts.bind_Ok in H as (? & t2 & _ & H).
  apply TableFacts.bind_Ok in H as (rs & t3 & _ & H).
  apply TableFacts.bind_Ok in H as (hs & t4 & _ & H).
  unfold Table.renderBuilt in H.
  apply TableFacts.bind_Ok in H as (? & t5 & _ & H).
  apply TableFacts.bind_Ok in H as (? & t6 & _ & H).
  apply TableFacts.bind_Ok in H as (? & t7 & _ & H).
  apply TableFacts.bind_Ok in H as (? & t8 & _ & H).
  apply TableFacts.bind_Ok in H as (? & t9 & _ & H).
  unfold Table.cleanup, modify in H. injection H as <-. split; reflexivity.
Qed.

Lemma render_resets_its_caches_witness :
  Table.render Helper.sprintfS (TableSamples.small TableStyle.default)
  = (Ok tt, snd (Table.render Helper.sprintfS (TableSamples.small TableStyle.default)))
  /\ Table.numberOfColumns
       (snd (Table.render Helper.sprintfS (TableSamples.small TableStyle.default)))
     = None.
Proof.
  assert (H : Table.render Helper.sprintfS (TableSamples.small TableStyle.default)
              = (Ok tt, snd (Table.render Helper.sprintfS
                               (TableSamples.small TableStyle.default))))
    by (vm_compute; reflexivity).
  split; [exact H |].
  exact (proj1 (render_resets_its_caches _ _ _ H)).
Defined.

(** ** The formatter *)

Module RegistryMoreFacts.
Import OutputFormatter.

Lemma readStyle_assignStyle_ne (key other : string) (style : OutputFormatterStyle.t)
    (f : OutputFormatter.t) :
  key <> "__proto__" -> other <> key ->
  readStyle other (assignStyle key style f) = readStyle other f.
Proof.
  intros Hproto Hne. unfold assignStyle.
  destruct (styles f !! key) as [old |] eqn:Eown.
  - unfold readStyle. cbn [styles prototype]. now rewrite lookup_insert_ne.
  - destruct (String.eqb_spec key "__proto__") as [-> | _]; [contradiction |].
    unfold readStyle. cbn [styles prototype]. now rewrite lookup_insert_ne.
Qed.

End RegistryMoreFacts.

(** [setStyle] touches one name only. Unless the name is [__proto__] in
    some casing, registering a style under it changes neither what
    [hasStyle] and [getStyle] answer for any name that differs from it
    beyond casing, nor the decorated flag, nor the style stack. *)
Theorem setStyle_leaves_other_names
    (f : OutputFormatter.t) (name other : string) (style : OutputFormatterStyle.t) :
  Js.toLowerCase name <> "__proto__" ->
  Js.toLowerCase other <> Js.toLowerCase name ->
  OutputFormatter.hasStyle other (OutputFormatter.setStyle name style f)
  = OutputFormatter.hasStyle other f
  /\ OutputFormatter.getStyle other (OutputFormatter.setStyle name style f)
     = OutputFormatter.getStyle other f
  /\ OutputFormatter.isDecorated (OutputFormatter.setStyle name style f)
     = OutputFormatter.isDecorated f
  /\ OutputFormatter.styleStack (OutputFormatter.setStyle name style f)
     = OutputFormatter.styleStack f.
Proof.
  intros Hproto Hne.
  unfold OutputFormatter.getStyle, OutputFormatter.hasStyle, OutputFormatter.setStyle.
  rewrite (RegistryMoreFacts.readStyle_assignStyle_ne _ _ style f Hproto Hne).
  repeat split; unfold OutputFormatter.assignStyle, OutputFormatter.isDecorated;
    destruct (OutputFormatter.styles f !! Js.toLowerCase name);
    try destruct (String.eqb _ _); reflexivity.
Qed.

Lemma setStyle_leaves_other_names_witness :
  Js.toLowerCase "Warning" <> "__proto__"
  /\ Js.toLowerCase "INFO" <> Js.toLowerCase "Warning"
  /\ OutputFormatter.getStyle "INFO"
       (OutputFormatter.setStyle "Warning" Samples.error Samples.plain)
     = OutputFormatter.getStyle "INFO" Samples.plain.
Proof.
  assert (H1 : Js.toLowerCase "Warning" <> "__proto__") by discriminate.
  assert (H2 : Js.toLowerCase "INFO" <> Js.toLowerCase "Warning") by discriminate.
  repeat (split; [assumption |]).
  exact (proj1 (proj2 (setStyle_leaves_other_names Samples.plain "Warning" "INFO"
                         Samples.error H1 H2))).
Defined.

(** Without the proviso the statement fails: a style registered under
    [__proto__] makes the names of its own fields and methods known. *)
Example proto_style_changes_other_names :
  OutputFormatter.hasStyle "apply" Samples.plain = false
  /\ OutputFormatter.hasStyle "apply"
       (OutputFormatter.setStyle "__proto__" Samples.error Samples.plain) = true.
Proof. split; vm_compute; reflexivity. Qed.

(** [format] works on the style stack alone: whether it returns or
    throws, the decorated flag and the registered styles are afterwards
    what they were. *)
Theorem format_changes_the_stack_only (message : string) (f : OutputFormatter.t) :
  OutputFormatter.decorated (snd (OutputFormatter.format message f))
  = OutputFormatter.decorated f
  /\ OutputFormatter.styles (snd (OutputFormatter.format message f))
     = OutputFormatter.styles f
  /\ OutputFormatter.prototype (snd (OutputFormatter.format message f))
     = OutputFormatter.prototype f.
Proof.
  destruct (OutputFormatter.format message f) as [r f'] eqn:E.
  exact (FormatFacts.format_frame _ _ _ _ E).
Qed.

Module EscapeFacts.
Import OutputFormatter StringFacts Spec.


Lemma trimEnd_spec (s : string) :
  exists n : nat,
    s = trimEnd s bs ++ Js.repeat bs n
    /\ Js.lastChar (trimEnd s bs) <> Some Js.backslash.
Proof.
  induction s as [| c s (n & Hs & Hlast)].
  - exists 0. split; [reflexivity | discriminate].
  - cbn [trimEnd]. destruct (trimEnd s bs) as [| k kept] eqn:Et.
    + rewrite append_nil_l in Hs.
      assert (Hin : Js.includes (Js.str1 c) bs = Ascii.eqb c Js.backslash).
      { unfold bs, Js.str1. cbn [Js.includes Js.startsWith].
        now rewrite andb_true_r, orb_false_r. }
      rewrite Hin.
      destruct (Ascii.eqb_spec c Js.backslash) as [-> | Hne].
      * exists (S n). rewrite append_nil_l. cbn [Js.repeat]. split; [| discriminate].
        unfold bs at 1, Js.str1. rewrite append_cons, append_nil_l. now f_equal.
      * exists n. split; [rewrite append_cons, append_nil_l; now f_equal |].
        cbn. congruence.
    + exists n. split; [rewrite append_cons; now f_equal |].
      cbn [Js.lastChar]. exact Hlast.
Qed.

Lemma lastChar_repeat_bs (body : string) (n : nat) :
  Js.lastChar (body ++ Js.repeat bs (S n)) = Some Js.backslash.
Proof.
  induction n as [| n IH].
  - cbn [Js.repeat]. rewrite append_nil_r. induction body as [| c body IHb]; [reflexivity |].
    rewrite append_cons. cbn [Js.lastChar].
    destruct (body ++ bs) eqn:E; [destruct body; discriminate | exact IHb].
  - change (Js.repeat bs (S (S n))) with (bs ++ Js.repeat bs (S n)).
    rewrite <- append_assoc.
    clear IH. generalize (body ++ bs). intros body'.
    induction n as [| n IH] in body' |- *.
    + cbn [Js.repeat]. rewrite append_nil_r. induction body' as [| c b IHb]; [reflexivity |].
      rewrite append_cons. cbn [Js.lastChar].
      destruct (b ++ bs) eqn:E; [destruct b; discriminate | exact IHb].
    + change (Js.repeat bs (S (S n))) with (bs ++ Js.repeat bs (S n)).
      rewrite <- append_assoc. apply IH.
Qed.

End EscapeFacts.

(** [escapeTrailingBackslash] replaces each backslash at the end of a
    text by the pair [<<] and leaves the rest of the text as it is; a
    text that does not end in a backslash is returned unchanged. *)
Theorem escapeTrailingBackslash_replaces_trailing_backslashes (text : string) :
  exists (body : string) (n : nat),
    text = body ++ Js.repeat (Js.str1 Js.backslash) n
    /\ Js.lastChar body <> Some Js.backslash
    /\ OutputFormatter.escapeTrailingBackslash text = body ++ Js.repeat "<<" n.
Proof.
  destruct (EscapeFacts.trimEnd_spec text) as (n & Htext & Hlast).
  exists (OutputFormatter.trimEnd text Spec.bs), n.
  split; [exact Htext |]. split; [exact Hlast |].
  unfold OutputFormatter.escapeTrailingBackslash.
  fold Spec.bs. set (body := OutputFormatter.trimEnd text Spec.bs) in *.
  clearbody body. subst text.
  destruct n as [| n].
  - cbn [Js.repeat]. rewrite !StringFacts.append_nil_r.
    destruct (Js.lastChar body) as [c |] eqn:E; [| reflexivity].
    destruct (Ascii.eqb_spec c Js.backslash) as [-> | _]; [contradiction | reflexivity].
  - rewrite EscapeFacts.lastChar_repeat_bs, Ascii.eqb_refl.
    rewrite StringFacts.length_append, PadFacts.length_repeat.
    replace (String.length body + S n * String.length Spec.bs - String.length body)
      with (S n) by (cbn; lia).
    reflexivity.
Qed.

Module TagFacts.
Import OutputFormatter StringFacts Spec.

Lemma spanTagChars_run (run rest : string) :
  allChars isTagChar run = true ->
  spanTagChars (run ++ ">" ++ rest) = (run, ">" ++ rest).
Proof.
  induction run as [| c run IH]; intros H; [reflexivity |].
  cbn [allChars] in H. apply andb_prop in H as [Hc H].
  rewrite append_cons. cbn [spanTagChars]. rewrite Hc, (IH H). reflexivity.
Qed.

Lemma tagAt_open (pos : nat) (name rest : string) :
  isTagName name = true ->
  tagAt pos ("<" ++ name ++ ">" ++ rest)
  = Some {| index := pos; text := "<" ++ name ++ ">"; group1 := name; group3 := None |}.
Proof.
  destruct name as [| c n]; [discriminate |]. cbn [isTagName].
  intros H. apply andb_prop in H as [Hc Hn].
  change ("<" ++ String c n ++ ">" ++ rest) with (String "<" (String c (n ++ ">" ++ rest))).
  unfold tagAt. rewrite Hc, (spanTagChars_run n rest Hn).
  rewrite (startsWith_append ">" rest). reflexivity.
Qed.

Lemma tagStart_not_slash (c : ascii) : isTagStart c = true -> Ascii.eqb c Js.slash = false.
Proof.
  intros H. destruct (Ascii.eqb_spec c Js.slash) as [-> | _]; [discriminate | reflexivity].
Qed.

Lemma tagStart_not_gt (c : ascii) : isTagStart c = true -> Ascii.eqb c Js.gt = false.
Proof.
  intros H. destruct (Ascii.eqb_spec c Js.gt) as [-> | _]; [discriminate | reflexivity].
Qed.

Lemma tagAt_close (pos : nat) (name rest : string) :
  isTagName name = true ->
  tagAt pos ("</" ++ name ++ ">" ++ rest)
  = Some {| index := pos; text := "</" ++ name ++ ">";
            group1 := "/" ++ name; group3 := Some name |}.
Proof.
  destruct name as [| c n]; [discriminate |]. cbn [isTagName].
  intros H. apply andb_prop in H as [Hc Hn].
  change ("</" ++ String c n ++ ">" ++ rest)
    with (String "<" (String "/" (String c (n ++ ">" ++ rest)))).
  unfold tagAt. change (isTagStart "/") with false. cbn iota.
  change (Ascii.eqb "/" Js.slash) with true. cbn iota.
  rewrite Hc, (spanTagChars_run n rest Hn).
  rewrite (startsWith_append ">" rest). reflexivity.
Qed.

Lemma tagMatchesFrom_skip (a rest : string) :
  forall pos,
    tagMatchesFrom pos (String.length a) (a ++ rest)
    = tagMatchesFrom (pos + String.length a) 0 rest.
Proof.
  induction a as [| c a IH]; intros pos.
  - cbn [String.length]. now rewrite Nat.add_0_r.
  - rewrite append_cons. cbn [String.length tagMatchesFrom].
    rewrite IH. f_equal. lia.
Qed.

Lemma tagMatchesFrom_skip_all (a : string) (pos : nat) :
  tagMatchesFrom pos (String.length a) a = [].
Proof.
  rewrite <- (append_nil_r a) at 2. rewrite tagMatchesFrom_skip.
  destruct (pos + String.length a); reflexivity.
Qed.

Lemma tagAt_not_lt (pos : nat) (c : ascii) (s : string) :
  Ascii.eqb c "<" = false -> tagAt pos (String c s) = None.
Proof.
  intros H. unfold tagAt.
  destruct c as [[] [] [] [] [] [] [] []]; try reflexivity. discriminate.
Qed.

Lemma tagMatchesFrom_noLt (T rest : string) :
  Js.includes "<" T = false ->
  forall pos,
    tagMatchesFrom pos 0 (T ++ rest) = tagMatchesFrom (pos + String.length T) 0 rest.
Proof.
  induction T as [| c T IH]; intros H pos.
  - cbn [String.length]. now rewrite Nat.add_0_r.
  - cbn [Js.includes Js.startsWith] in H. apply orb_false_elim in H as [Hc H].
    rewrite andb_true_r in Hc. rewrite Ascii.eqb_sym in Hc.
    rewrite append_cons. cbn [String.length tagMatchesFrom].
    rewrite (tagAt_not_lt _ _ _ Hc), (IH H). f_equal. lia.
Qed.

(** The matches of the tag regex in a text without [<] between an
    opening tag and its closing tag *)
Lemma tagMatches_wrapped (name T : string) :
  isTagName name = true -> Js.includes "<" T = false ->
  tagMatches (("<" ++ name ++ ">") ++ T ++ "</" ++ name ++ ">")
  = [ {| index := 0; text := "<" ++ name ++ ">"; group1 := name; group3 := None |};
      {| index := String.length ("<" ++ name ++ ">") + String.length T;
         text := "</" ++ name ++ ">"; group1 := "/" ++ name; group3 := Some name |} ].
Proof.
  intros Hname HT. unfold tagMatches.
  rewrite !append_assoc.
  change ("<" ++ name ++ ">" ++ T ++ "</" ++ name ++ ">")
    with (String "<" (name ++ ">" ++ T ++ "</" ++ name ++ ">")).
  cbn [tagMatchesFrom].
  change (String "<" (name ++ ">" ++ T ++ "</" ++ name ++ ">"))
    with ("<" ++ name ++ ">" ++ T ++ "</" ++ name ++ ">").
  rewrite (tagAt_open 0 name _ Hname). cbn [text].
  f_equal.
  replace (String.length ("<" ++ name ++ ">") - 1) with (String.length (name ++ ">"))
    by (rewrite !length_append; cbn; lia).
  rewrite <- (append_assoc name ">").
  rewrite tagMatchesFrom_skip.
  rewrite (tagMatchesFrom_noLt T _ HT).
  replace (1 + String.length (name ++ ">") + String.length T)
    with (String.length ("<" ++ name ++ ">") + String.length T)
    by (rewrite !length_append; cbn; lia).
  set (pos := String.length ("<" ++ name ++ ">") + String.length T).
  rewrite <- (append_nil_r ("</" ++ name ++ ">")) at 1.
  rewrite !append_assoc.
  change ("</" ++ name ++ ">" ++ "") with (String "<" ("/" ++ name ++ ">" ++ "")).
  cbn [tagMatchesFrom].
  change (String "<" ("/" ++ name ++ ">" ++ "")) with ("</" ++ name ++ ">" ++ "").
  rewrite (tagAt_close pos name "" Hname). cbn [text]. f_equal.
  replace (String.length ("</" ++ name ++ ">") - 1) with (String.length ("/" ++ name ++ ">"))
    by (rewrite !length_append; cbn; lia).
  change ("/" ++ name ++ ">" ++ "") with ("/" ++ name ++ ">").
  apply tagMatchesFrom_skip_all.
Qed.

End TagFacts.

Module WrapFacts.
Import OutputFormatter StringFacts Spec.


Lemma includes_lt_allChars (s : string) :
  Js.includes "<" s = false <-> allChars notLt s = true.
Proof.
  induction s as [| c s IH]; [split; reflexivity |].
  cbn [Js.includes Js.startsWith allChars]. rewrite andb_true_r.
  rewrite orb_false_iff, andb_true_iff, IH. unfold notLt.
  rewrite negb_true_iff, (Ascii.eqb_sym c). tauto.
Qed.

Lemma allChars_impl (p q : ascii -> bool) (s : string) :
  (forall c, p c = true -> q c = true) -> allChars p s = true -> allChars q s = true.
Proof.
  intros Hpq. induction s as [| c s IH]; [reflexivity |].
  cbn [allChars]. intros H. apply andb_prop in H as [Hc H].
  now rewrite (Hpq c Hc), IH.
Qed.

Lemma codeChar_notLt (c : ascii) : Spec.codeChar c = true -> notLt c = true.
Proof.
  unfold notLt. destruct (Ascii.eqb_spec c "<") as [-> | _]; [discriminate | reflexivity].
Qed.

Lemma apply_notLt (s : OutputFormatterStyle.t) (T : string) :
  Js.includes "<" T = false -> Js.includes "<" (OutputFormatterStyle.apply s T) = false.
Proof.
  intros H. unfold OutputFormatterStyle.apply.
  destruct (OutputFormatterStyle.setCodes s) as [| c codes] eqn:E; [exact H |].
  rewrite <- E. apply includes_lt_allChars. apply includes_lt_allChars in H.
  rewrite !AnsiFacts.allChars_app, H.
  rewrite !(allChars_impl _ _ _ codeChar_notLt (AnsiFacts.codeChar_join _)).
  reflexivity.
Qed.

(** A text without [<] needs no unescaping. *)
Lemma unescape_notLt (X : string) : Js.includes "<" X = false -> unescape X = X.
Proof.
  intros H. apply FormatFacts.unescape_plain.
  - destruct (Js.includes (String Js.backslash "<") X) eqn:E; [| reflexivity].
    apply includes_split in E as (pre & post & ->).
    change (String Js.backslash "<" ++ post) with (Js.str1 Js.backslash ++ "<" ++ post) in H.
    rewrite <- append_assoc, includes_append in H. discriminate.
  - destruct (Js.includes "<<" X) eqn:E; [| reflexivity].
    apply includes_split in E as (pre & post & ->).
    change ("<<" ++ post) with ("<" ++ "<" ++ post) in H.
    rewrite includes_append in H. discriminate.
Qed.

Lemma sliceFrom_app (a b : string) : Js.sliceFrom (String.length a) (a ++ b) = b.
Proof. induction a as [| c a IH]; [reflexivity | exact IH]. Qed.

Lemma sliceFrom_all (a : string) : Js.sliceFrom (String.length a) a = "".
Proof. induction a as [| c a IH]; [reflexivity | exact IH]. Qed.

Lemma charAt_last (a b : string) :
  a <> "" -> Js.charAt (a ++ b) (String.length a - 1) = Js.lastChar a.
Proof.
  unfold Js.charAt. induction a as [| c a IH]; [contradiction |]. intros _.
  destruct a as [| d a]; [reflexivity |].
  specialize (IH ltac:(discriminate)).
  change (Js.lastChar (String c (String d a))) with (Js.lastChar (String d a)).
  rewrite <- IH. rewrite append_cons.
  cbn [String.length Nat.sub]. rewrite !Nat.sub_0_r. reflexivity.
Qed.

Lemma applyCurrentStyle_empty (f : OutputFormatter.t) : applyCurrentStyle "" f = "".
Proof. unfold applyCurrentStyle. cbn. now rewrite andb_false_r. Qed.

Lemma opening_open (name : string) :
  isTagName name = true -> opening ("<" ++ name ++ ">") = true.
Proof.
  destruct name as [| c n]; [discriminate |]. cbn [isTagName].
  intros H. apply andb_prop in H as [Hc _].
  unfold opening.
  change (Js.charAt ("<" ++ String c n ++ ">") 1) with (Some c). cbv beta iota.
  now rewrite (TagFacts.tagStart_not_slash c Hc).
Qed.

Lemma pop_push (s : OutputFormatterStyle.t) (st : OutputFormatterStyleStack.t) :
  OutputFormatterStyleStack.pop (Some s) (OutputFormatterStyleStack.push s st) = Ok (s, st)
  /\ OutputFormatterStyleStack.getCurrent (OutputFormatterStyleStack.push s st) = s.
Proof.
  destruct st as [l e].
  unfold OutputFormatterStyleStack.pop, OutputFormatterStyleStack.getCurrent,
    OutputFormatterStyleStack.push.
  cbn [OutputFormatterStyleStack.styles OutputFormatterStyleStack.emptyStyle].
  destruct (l ++ [s])%list eqn:E; [destruct l; discriminate |]. rewrite <- E.
  split.
  - rewrite PushFacts.popSearch_top by reflexivity. now rewrite take_app_length.
  - rewrite length_app, Nat.add_1_r, Nat.sub_succ, Nat.sub_0_r.
    rewrite lookup_app_r by lia. now rewrite Nat.sub_diag.
Qed.

End WrapFacts.

Module WrappedFacts.

Lemma format_wrapped
    (name T : string) (s : OutputFormatterStyle.t) (f : OutputFormatter.t) :
  Spec.isTagName name = true ->
  OutputFormatter.createStyleFromString (Js.toLowerCase name) f = Ok (Some s) ->
  Js.includes "<" T = false ->
  Js.lastChar T <> Some Js.backslash ->
  OutputFormatter.format (("<" ++ name ++ ">") ++ T ++ "</" ++ name ++ ">") f
  = (Ok (if (OutputFormatter.isDecorated f && (0 <? String.length T))%bool
         then OutputFormatterStyle.apply s T else T),
     f).
Proof.
  intros Hname Hread HT Hlast.
  assert (Hne : name <> "") by (intros ->; discriminate).
  unfold OutputFormatter.format.
  rewrite (TagFacts.tagMatches_wrapped name T Hname HT).
  set (op := "<" ++ name ++ ">"). set (cl := "</" ++ name ++ ">").
  set (msg := op ++ T ++ cl).
  set (f1 := OutputFormatter.setStyleStack
               (OutputFormatterStyleStack.push s (OutputFormatter.styleStack f)) f).
  (* the opening tag *)
  assert (Step1 :
    OutputFormatter.formatStep msg
      {| OutputFormatter.index := 0; OutputFormatter.text := op;
         OutputFormatter.group1 := name; OutputFormatter.group3 := None |}
      {| OutputFormatter.offset := 0; OutputFormatter.output := "" |} f
    = (Ok {| OutputFormatter.offset := String.length op; OutputFormatter.output := "" |},
       f1)).
  { unfold OutputFormatter.formatStep.
    cbn [OutputFormatter.index OutputFormatter.text OutputFormatter.group1
         OutputFormatter.offset OutputFormatter.output].
    change (OutputFormatter.escaped msg 0) with false. cbn iota.
    subst op. rewrite (WrapFacts.opening_open name Hname).
    unfold bind, get, lift.
    rewrite Hread. cbn [negb andb].
    unfold OutputFormatter.stackPush, modify, ret.
    change (Js.substr msg 0 (0 - 0)) with "".
    rewrite WrapFacts.applyCurrentStyle_empty. reflexivity. }
  (* the closing tag *)
  assert (Hesc : OutputFormatter.escaped msg (String.length op + String.length T) = false).
  { unfold OutputFormatter.escaped.
    replace (String.length op + String.length T) with (String.length (op ++ T))
      by apply StringFacts.length_append.
    subst msg. rewrite <- StringFacts.append_assoc.
    rewrite WrapFacts.charAt_last by (subst op; discriminate).
    destruct T as [| c T'].
    - rewrite StringFacts.append_nil_r. subst op.
      rewrite <- (StringFacts.append_assoc "<" name ">").
      rewrite TimeFacts.lastChar_app by discriminate. cbn. apply andb_false_r.
    - rewrite TimeFacts.lastChar_app by discriminate.
      destruct (Js.lastChar (String c T')) as [d |]; [| apply andb_false_r].
      destruct (Ascii.eqb_spec d Js.backslash) as [-> | _]; [contradiction |].
      apply andb_false_r. }
  assert (Step2 :
    OutputFormatter.formatStep msg
      {| OutputFormatter.index := String.length op + String.length T;
         OutputFormatter.text := cl;
         OutputFormatter.group1 := "/" ++ name; OutputFormatter.group3 := Some name |}
      {| OutputFormatter.offset := String.length op; OutputFormatter.output := "" |} f1
    = (Ok {| OutputFormatter.offset := String.length op + String.length T + String.length cl;
             OutputFormatter.output := OutputFormatter.applyCurrentStyle T f1 |},
       f)).
  { unfold OutputFormatter.formatStep.
    cbn [OutputFormatter.index OutputFormatter.text OutputFormatter.group1
         OutputFormatter.group3 OutputFormatter.offset OutputFormatter.output].
    rewrite Hesc.
    change (OutputFormatter.opening cl) with false. cbn iota.
    unfold bind, get, lift.
    change (OutputFormatter.createStyleFromString (Js.toLowerCase name) f1)
      with (OutputFormatter.createStyleFromString (Js.toLowerCase name) f).
    rewrite Hread. cbn [negb andb].
    destruct name as [| c n]; [contradiction |]. cbn [String.length Nat.eqb].
    unfold OutputFormatter.stackPop. subst f1. cbn [OutputFormatter.styleStack
      OutputFormatter.setStyleStack].
    rewrite (proj1 (WrapFacts.pop_push s (OutputFormatter.styleStack f))).
    unfold ret. f_equal; [| destruct f; reflexivity].
    f_equal. f_equal.
    rewrite StringFacts.append_nil_l. f_equal.
    unfold Js.substr. subst msg.
    rewrite WrapFacts.sliceFrom_app.
    replace (String.length op + String.length T - String.length op)
      with (String.length T) by lia.
    apply PadFacts.sliceTo_app. }
  cbn [foldM]. unfold bind. rewrite Step1, Step2.
  unfold ret, get.
  cbn [OutputFormatter.offset OutputFormatter.output].
  replace (String.length op + String.length T + String.length cl)
    with (String.length msg) by (subst msg; rewrite !StringFacts.length_append; lia).
  rewrite WrapFacts.sliceFrom_all, WrapFacts.applyCurrentStyle_empty.
  rewrite StringFacts.append_nil_r.
  f_equal. f_equal.
  unfold OutputFormatter.applyCurrentStyle, OutputFormatter.isDecorated. subst f1.
  cbn [OutputFormatter.decorated OutputFormatter.setStyleStack OutputFormatter.styleStack].
  rewrite (proj2 (WrapFacts.pop_push s (OutputFormatter.styleStack f))).
  destruct (OutputFormatter.decorated f && (0 <? String.length T))%bool.
  - apply WrapFacts.unescape_notLt, WrapFacts.apply_notLt, HT.
  - apply WrapFacts.unescape_notLt, HT.
Qed.

End WrappedFacts.

(** A tag around a text styles that text and nothing else. For a tag
    that names a registered style or spells an inline style, and a text
    without [<] that does not end in a backslash, [format] gives the
    text with the codes of the style around it on a decorated formatter
    and the bare text otherwise, and leaves the formatter, its style
    stack included, as it was. *)
Theorem known_tag_styles_its_text
    (name T : string) (s : OutputFormatterStyle.t) (f : OutputFormatter.t) :
  Spec.isTagName name = true ->
  OutputFormatter.createStyleFromString (Js.toLowerCase name) f = Ok (Some s) ->
  Js.includes "<" T = false ->
  Js.lastChar T <> Some Js.backslash ->
  OutputFormatter.format (("<" ++ name ++ ">") ++ T ++ "</" ++ name ++ ">") f
  = (Ok (if (OutputFormatter.isDecorated f && (0 <? String.length T))%bool
         then OutputFormatterStyle.apply s T else T),
     f).
Proof. apply WrappedFacts.format_wrapped. Qed.

Lemma known_tag_styles_its_text_witness :
  Spec.isTagName "fg=red;options=bold" = true
  /\ Js.includes "<" "ok" = false
  /\ Js.lastChar "ok" <> Some Js.backslash
  /\ exists s : OutputFormatterStyle.t,
       OutputFormatter.createStyleFromString
         (Js.toLowerCase "fg=red;options=bold") Samples.colored = Ok (Some s)
       /\ OutputFormatter.format "<fg=red;options=bold>ok</fg=red;options=bold>"
            Samples.colored
          = (Ok (OutputFormatterStyle.apply s "ok"), Samples.colored).
Proof.
  assert (H1 : Spec.isTagName "fg=red;options=bold" = true) by reflexivity.
  assert (H3 : Js.includes "<" "ok" = false) by reflexivity.
  assert (H4 : Js.lastChar "ok" <> Some Js.backslash) by discriminate.
  repeat (split; [assumption |]).
  destruct (OutputFormatter.createStyleFromString
              (Js.toLowerCase "fg=red;options=bold") Samples.colored)
    as [[s |] | e] eqn:H2; try (vm_compute in H2; discriminate H2).
  exists s. split; [reflexivity |].
  exact (known_tag_styles_its_text "fg=red;options=bold" "ok" s Samples.colored H1 H2 H3 H4).
Defined.

(** Tags do not count in the length of a text: for a tag that names a
    registered style or spells an inline style, around a text without
    [<] and without control sequence that does not end in a backslash,
    [removeDecoration] gives the bare text and [lengthWithoutDecoration]
    its length, on a decorated formatter as on a plain one, and both leave
    the formatter as it was. *)
Theorem tags_do_not_count_in_the_length
    (name T : string) (s : OutputFormatterStyle.t) (f : OutputFormatter.t) :
  Spec.isTagName name = true ->
  OutputFormatter.createStyleFromString (Js.toLowerCase name) f = Ok (Some s) ->
  Js.includes "<" T = false ->
  Js.lastChar T <> Some Js.backslash ->
  Spec.noCsi T ->
  Helper.removeDecoration (("<" ++ name ++ ">") ++ T ++ "</" ++ name ++ ">") f
  = (Ok T, f)
  /\ Helper.lengthWithoutDecoration (("<" ++ name ++ ">") ++ T ++ "</" ++ name ++ ">") f
     = (Ok (String.length T), f).
Proof.
  intros Hname Hstyle HT Hlast Hcsi.
  assert (Hrm : Helper.removeDecoration (("<" ++ name ++ ">") ++ T ++ "</" ++ name ++ ">") f
                = (Ok T, f)).
  { unfold Helper.removeDecoration, bind, get, modify.
    rewrite (WrappedFacts.format_wrapped name T s (OutputFormatter.setDecorated false f)
               Hname Hstyle HT Hlast).
    cbn [OutputFormatter.isDecorated OutputFormatter.setDecorated OutputFormatter.decorated
         andb].
    rewrite (FormatFacts.stripAnsi_noCsi T Hcsi).
    unfold ret, OutputFormatter.isDecorated.
    now rewrite FormatFacts.setDecorated_twice, FormatFacts.setDecorated_same. }
  split; [exact Hrm |].
  unfold Helper.lengthWithoutDecoration, bind. now rewrite Hrm.
Qed.

Lemma tags_do_not_count_in_the_length_witness :
  Spec.isTagName "info" = true
  /\ OutputFormatter.createStyleFromString (Js.toLowerCase "info") Samples.colored
     = Ok (Some Samples.info)
  /\ Js.includes "<" "done" = false
  /\ Js.lastChar "done" <> Some Js.backslash
  /\ Spec.noCsi "done"
  /\ Helper.lengthWithoutDecoration "<info>done</info>" Samples.colored
     = (Ok 4, Samples.colored).
Proof.
  assert (H1 : Spec.isTagName "info" = true) by reflexivity.
  assert (H2 : OutputFormatter.createStyleFromString (Js.toLowerCase "info") Samples.colored
               = Ok (Some Samples.info)) by (vm_compute; reflexivity).
  assert (H3 : Js.includes "<" "done" = false) by reflexivity.
  assert (H4 : Js.lastChar "done" <> Some Js.backslash) by discriminate.
  assert (H5 : Spec.noCsi "done") by (apply FormatFacts.noCsi_no_esc; reflexivity).
  repeat (split; [assumption |]).
  exact (proj2 (tags_do_not_count_in_the_length "info" "done" Samples.info Samples.colored
                  H1 H2 H3 H4 H5)).
Defined.

Module RoundTripFacts.
Import OutputFormatter StringFacts Spec.

Lemma escapeLt_cons (c d : ascii) (rest : string) :
  escapeLt (String c (String d rest))
  = if (negb (Ascii.eqb c Js.backslash) && Ascii.eqb d Js.lt)%bool
    then String c (String Js.backslash (String Js.lt (escapeLt rest)))
    else if Ascii.eqb c Js.lt
    then String Js.backslash (String Js.lt (escapeLt (String d rest)))
    else String c (escapeLt (String d rest)).
Proof. reflexivity. Qed.

Lemma escapeLt_escapedLt (T : string) :
  Js.includes "<<" T = false -> escapeLt T = escapedLt T.
Proof.
  remember (String.length T) as n eqn:Hn.
  assert (Hle : String.length T <= n) by lia. clear Hn.
  revert T Hle. induction n as [| n IH]; intros T Hle Hno.
  - destruct T; [reflexivity | cbn in Hle; lia].
  - destruct T as [| c [| d rest]]; [reflexivity | reflexivity |].
    cbn [Js.includes Js.startsWith] in Hno.
    rewrite !andb_true_r in Hno.
    apply orb_false_elim in Hno as [Hcd Hno'].
    rewrite escapeLt_cons.
    cbn [String.length] in Hle.
    assert (IHd : escapeLt (String d rest) = escapedLt (String d rest)).
    { apply IH; [cbn [String.length]; lia |].
      cbn [Js.includes Js.startsWith]. exact Hno'. }
    change (escapedLt (String c (String d rest)))
      with (if Ascii.eqb c Js.lt
            then String Js.backslash (String Js.lt (escapedLt (String d rest)))
            else String c (escapedLt (String d rest))).
    rewrite IHd.
    destruct (negb (Ascii.eqb c Js.backslash) && Ascii.eqb d Js.lt)%bool eqn:E;
      [| reflexivity].
    apply andb_prop in E as [_ Ed]. apply Ascii.eqb_eq in Ed. subst d.
    change Js.lt with "<"%char in *.
    rewrite Ascii.eqb_refl, andb_true_r, (Ascii.eqb_sym "<" c) in Hcd. rewrite Hcd.
    apply orb_false_elim in Hno' as [_ Hno''].
    rewrite (IH rest) by (lia || assumption).
    cbn [escapedLt]. change Js.lt with "<"%char. now rewrite Ascii.eqb_refl.
Qed.

Lemma escapedLt_nonempty (c : ascii) (s : string) : escapedLt (String c s) <> "".
Proof. cbn [escapedLt]. destruct (Ascii.eqb c Js.lt); discriminate. Qed.

Lemma lastChar_cons (c : ascii) (s : string) :
  s <> "" -> Js.lastChar (String c s) = Js.lastChar s.
Proof. destruct s; [contradiction | reflexivity]. Qed.

Lemma lastChar_escapedLt (T : string) : Js.lastChar (escapedLt T) = Js.lastChar T.
Proof.
  induction T as [| c T IH]; [reflexivity |].
  destruct T as [| d T].
  - cbn [escapedLt]. destruct (Ascii.eqb_spec c Js.lt) as [-> | _]; reflexivity.
  - rewrite (lastChar_cons c (String d T)) by discriminate. rewrite <- IH.
    change (escapedLt (String c (String d T)))
      with (if Ascii.eqb c Js.lt
            then String Js.backslash (String Js.lt (escapedLt (String d T)))
            else String c (escapedLt (String d T))).
    destruct (Ascii.eqb c Js.lt);
      rewrite !lastChar_cons; try reflexivity;
      try apply escapedLt_nonempty; discriminate.
Qed.

Lemma escapeTrailingBackslash_id (X : string) :
  Js.lastChar X <> Some Js.backslash -> escapeTrailingBackslash X = X.
Proof.
  intros H. unfold escapeTrailingBackslash.
  destruct (Js.lastChar X) as [c |]; [| reflexivity].
  destruct (Ascii.eqb_spec c Js.backslash) as [-> | _]; [contradiction | reflexivity].
Qed.

Lemma escape_escapedLt (T : string) :
  Js.includes "<<" T = false -> Js.lastChar T <> Some Js.backslash ->
  escape T = escapedLt T.
Proof.
  intros Hno Hlast. unfold escape. rewrite (escapeLt_escapedLt T Hno).
  apply escapeTrailingBackslash_id. now rewrite lastChar_escapedLt.
Qed.

Lemma ordinary_notLt (c : ascii) : ordinary c = true -> notLt c = true.
Proof. unfold ordinary, notLt. intros H. now apply andb_prop in H as [H _]. Qed.

Lemma guarded_notLt (post : string) (prev : ascii) :
  allChars notLt post = true -> guarded prev post = true.
Proof.
  revert prev. induction post as [| c post IH]; intros prev; [reflexivity |].
  cbn [allChars guarded]. intros H. apply andb_prop in H as [Hc H].
  unfold notLt in Hc. apply negb_true_iff in Hc.
  change Js.lt with "<"%char. rewrite Hc. now apply IH.
Qed.

Lemma guarded_escapedLt (T post : string) (prev : ascii) :
  allChars notLt post = true -> guarded prev (escapedLt T ++ post) = true.
Proof.
  intros Hpost. revert prev. induction T as [| c T IH]; intros prev.
  - rewrite append_nil_l. now apply guarded_notLt.
  - cbn [escapedLt]. destruct (Ascii.eqb_spec c Js.lt) as [-> | Hc].
    + rewrite !append_cons. cbn [guarded].
      change (Ascii.eqb Js.backslash Js.lt) with false.
      rewrite !Ascii.eqb_refl. cbn [andb]. apply IH.
    + rewrite append_cons. cbn [guarded].
      destruct (Ascii.eqb_spec c Js.lt) as [| _]; [contradiction |]. apply IH.
Qed.

Lemma guarded_app (pre Y : string) (prev : ascii) :
  allChars notLt pre = true -> (forall p, guarded p Y = true) ->
  guarded prev (pre ++ Y) = true.
Proof.
  intros Hpre HY. revert prev. induction pre as [| c pre IH]; intros prev.
  - rewrite append_nil_l. apply HY.
  - cbn [allChars] in Hpre. apply andb_prop in Hpre as [Hc Hpre].
    rewrite append_cons. cbn [guarded].
    unfold notLt in Hc. apply negb_true_iff in Hc.
    change Js.lt with "<"%char. rewrite Hc. now apply IH.
Qed.

Lemma guarded_no_pair (s : string) (prev : ascii) :
  guarded prev s = true -> Js.includes "<<" s = false.
Proof.
  revert prev. induction s as [| c s IH]; intros prev H; [reflexivity |].
  cbn [guarded] in H. apply andb_prop in H as [Hc Hs].
  cbn [Js.includes]. rewrite (IH c Hs), orb_false_r.
  destruct s as [| d s]; [cbn; apply andb_false_r |].
  cbn [Js.startsWith]. rewrite andb_true_r.
  cbn [guarded] in Hs. apply andb_prop in Hs as [Hd _].
  change Js.lt with "<"%char in *.
  destruct (Ascii.eqb_spec "<" d) as [<- | _]; [| apply andb_false_r].
  rewrite Ascii.eqb_refl in Hd.
  destruct (Ascii.eqb_spec "<" c) as [<- | _]; [discriminate | reflexivity].
Qed.

(** The tags found in a guarded text all come after a backslash. *)
Lemma tagAt_index (pos : nat) (s : string) (m : TagMatch) :
  tagAt pos s = Some m -> index m = pos.
Proof.
  unfold tagAt. intros H.
  repeat match type of H with
         | match ?x with _ => _ end = _ => destruct x eqn:?; try discriminate
         | (let '(_, _) := ?x in _) = _ => destruct x eqn:?
         | (if ?x then _ else _) = _ => destruct x eqn:?; try discriminate
         end;
    injection H as <-; reflexivity.
Qed.

Lemma lastChar_snoc (pre : string) (c : ascii) :
  Js.lastChar (pre ++ String c "") = Some c.
Proof.
  induction pre as [| d pre IH]; [reflexivity |].
  rewrite append_cons, lastChar_cons; [exact IH |].
  destruct pre; discriminate.
Qed.

Lemma tagMatchesFrom_guarded (s pre : string) (skip : nat) :
  guarded (prevOf pre) s = true ->
  Forall (fun m => escaped (pre ++ s) (index m) = true)
         (tagMatchesFrom (String.length pre) skip s).
Proof.
  revert pre skip. induction s as [| c s IH]; intros pre skip H; [constructor |].
  cbn [guarded] in H. apply andb_prop in H as [Hc Hs].
  assert (Hnext : forall k,
             Forall (fun m => escaped (pre ++ String c s) (index m) = true)
                    (tagMatchesFrom (S (String.length pre)) k s)).
  { intros k. specialize (IH (pre ++ String c "") k).
    rewrite length_append, Nat.add_1_r in IH.
    rewrite append_assoc in IH. apply IH.
    unfold prevOf. now rewrite lastChar_snoc. }
  cbn [tagMatchesFrom]. destruct skip as [| k]; [| apply Hnext].
  destruct (tagAt (String.length pre) (String c s)) as [m |] eqn:Em; [| apply Hnext].
  constructor; [| apply Hnext].
  rewrite (tagAt_index _ _ _ Em).
  destruct (Ascii.eqb_spec c Js.lt) as [-> | Hne].
  - unfold prevOf in Hc. unfold escaped.
    destruct pre as [| d pre]; [discriminate |].
    rewrite WrapFacts.charAt_last by discriminate.
    destruct (Js.lastChar (String d pre)); [| discriminate].
    cbn [String.length Nat.eqb negb andb]. exact Hc.
  - rewrite TagFacts.tagAt_not_lt in Em; [discriminate |].
    now apply Ascii.eqb_neq.
Qed.

Lemma foldM_escaped (message : string) (ms : list TagMatch) (l : Loop)
    (f : OutputFormatter.t) :
  Forall (fun m => escaped message (index m) = true) ms ->
  foldM (formatStep message) ms l f = (Ok l, f).
Proof.
  induction 1 as [| m ms Hm _ IH]; [reflexivity |].
  cbn [foldM]. unfold bind at 1. unfold formatStep at 1. rewrite Hm. exact IH.
Qed.

Lemma format_guarded (E : string) (f : OutputFormatter.t) :
  guarded "x" E = true ->
  format E f = (Ok (unescape (applyCurrentStyle E f)), f).
Proof.
  intros H. unfold format, bind.
  rewrite foldM_escaped by (apply (tagMatchesFrom_guarded E "" 0); exact H).
  reflexivity.
Qed.

Lemma startsWith_lt_escapedLt (T post : string) :
  allChars notLt post = true -> Js.startsWith "<" (escapedLt T ++ post) = false.
Proof.
  intros Hpost. destruct T as [| c T].
  - rewrite append_nil_l. destruct post as [| d post]; [reflexivity |].
    cbn [allChars] in Hpost. apply andb_prop in Hpost as [Hd _].
    unfold notLt in Hd. apply negb_true_iff in Hd.
    cbn [Js.startsWith]. now rewrite (Ascii.eqb_sym "<" d), Hd.
  - cbn [escapedLt]. destruct (Ascii.eqb_spec c Js.lt) as [-> | Hc];
      rewrite append_cons; cbn [Js.startsWith]; [reflexivity |].
    rewrite andb_true_r. apply Ascii.eqb_neq. intros <-. now apply Hc.
Qed.

Lemma replaceAllFrom_cons (pat by_ : string) (c : ascii) (s : string) :
  Js.replaceAllFrom pat by_ 0 (String c s)
  = if Js.startsWith pat (String c s)
    then by_ ++ Js.replaceAllFrom pat by_ (String.length pat - 1) s
    else String c (Js.replaceAllFrom pat by_ 0 s).
Proof. reflexivity. Qed.

Lemma startsWith_cons (a b : ascii) (p s : string) :
  Js.startsWith (String a p) (String b s) = (Ascii.eqb a b && Js.startsWith p s)%bool.
Proof. reflexivity. Qed.

Lemma replaceAll_escapedLt (T post : string) :
  allChars notLt post = true ->
  Js.replaceAll (String Js.backslash "<") "<" (escapedLt T ++ post) = T ++ post.
Proof.
  intros Hpost. unfold Js.replaceAll. induction T as [| c T IH].
  - rewrite !append_nil_l. apply replaceAll_absent.
    apply WrapFacts.includes_lt_allChars in Hpost.
    destruct (Js.includes (String Js.backslash "<") post) eqn:E; [| reflexivity].
    apply includes_split in E as (a & b & ->).
    change (String Js.backslash "<" ++ b) with (Js.str1 Js.backslash ++ "<" ++ b) in Hpost.
    rewrite <- append_assoc, includes_append in Hpost. discriminate.
  - cbn [escapedLt]. destruct (Ascii.eqb_spec c Js.lt) as [-> | Hc].
    + rewrite !append_cons. cbn [Js.replaceAllFrom Js.startsWith String.length Nat.sub].
      rewrite !Ascii.eqb_refl. cbn [andb]. rewrite IH. reflexivity.
    + rewrite !append_cons, replaceAllFrom_cons, startsWith_cons.
      rewrite (startsWith_lt_escapedLt T post Hpost), andb_false_r.
      now rewrite IH.
Qed.

Lemma replaceAll_ordinary (pre Y : string) :
  allChars ordinary pre = true ->
  Js.replaceAll (String Js.backslash "<") "<" (pre ++ Y)
  = pre ++ Js.replaceAll (String Js.backslash "<") "<" Y.
Proof.
  unfold Js.replaceAll. induction pre as [| c pre IH]; intros H.
  - now rewrite !append_nil_l.
  - cbn [allChars] in H. apply andb_prop in H as [Hc H].
    unfold ordinary in Hc. apply andb_prop in Hc as [_ Hc]. apply negb_true_iff in Hc.
    rewrite !append_cons, replaceAllFrom_cons, startsWith_cons.
    rewrite (Ascii.eqb_sym Js.backslash c), Hc. cbn [andb]. now rewrite IH.
Qed.

(** Unescaping takes the backslashes of [escapedLt] away again, with
    ordinary characters around the text or not. *)
Lemma unescape_around (pre T post : string) :
  allChars ordinary pre = true -> allChars ordinary post = true ->
  unescape (pre ++ escapedLt T ++ post) = pre ++ T ++ post.
Proof.
  intros Hpre Hpost.
  assert (Hpre' := WrapFacts.allChars_impl _ _ _ ordinary_notLt Hpre).
  assert (Hpost' := WrapFacts.allChars_impl _ _ _ ordinary_notLt Hpost).
  unfold unescape.
  rewrite (guarded_no_pair _ "x")
    by (apply guarded_app; [exact Hpre' | intros p; now apply guarded_escapedLt]).
  rewrite replaceAll_ordinary by exact Hpre.
  now rewrite replaceAll_escapedLt.
Qed.

Lemma codeChar_ordinary (c : ascii) : codeChar c = true -> ordinary c = true.
Proof.
  unfold ordinary.
  destruct (Ascii.eqb_spec c Js.lt) as [-> | _]; [discriminate |].
  destruct (Ascii.eqb_spec c Js.backslash) as [-> | _]; [discriminate | reflexivity].
Qed.

Lemma unescape_apply (s : OutputFormatterStyle.t) (T : string) :
  unescape (OutputFormatterStyle.apply s (escapedLt T)) = OutputFormatterStyle.apply s T.
Proof.
  unfold OutputFormatterStyle.apply.
  destruct (OutputFormatterStyle.setCodes s) as [| c codes] eqn:E.
  - rewrite <- (append_nil_r (escapedLt T)), <- (append_nil_l (escapedLt T ++ "")).
    rewrite unescape_around by reflexivity.
    now rewrite append_nil_l, append_nil_r.
  - rewrite <- E.
    set (on := Js.join ";" (List.map Js.ofNat (OutputFormatterStyle.setCodes s))).
    set (off := Js.join ";" (List.map Js.ofNat (OutputFormatterStyle.unsetCodes s))).
    assert (Hon : allChars ordinary (Js.str1 Js.esc ++ "[" ++ on ++ "m") = true).
    { subst on. rewrite !AnsiFacts.allChars_app.
      now rewrite (WrapFacts.allChars_impl _ _ _ codeChar_ordinary (AnsiFacts.codeChar_join _)). }
    assert (Hoff : allChars ordinary (Js.str1 Js.esc ++ "[" ++ off ++ "m") = true).
    { subst off. rewrite !AnsiFacts.allChars_app.
      now rewrite (WrapFacts.allChars_impl _ _ _ codeChar_ordinary (AnsiFacts.codeChar_join _)). }
    pose proof (unescape_around _ T _ Hon Hoff) as H.
    rewrite !append_assoc in H. exact H.
Qed.

Lemma format_escape (T : string) (f : OutputFormatter.t) :
  Js.includes "<<" T = false -> Js.lastChar T <> Some Js.backslash ->
  format (escape T) f = (Ok (applyCurrentStyle T f), f).
Proof.
  intros Hno Hlast. rewrite (escape_escapedLt T Hno Hlast).
  rewrite format_guarded.
  2:{ rewrite <- (append_nil_r (escapedLt T)). now apply guarded_escapedLt. }
  f_equal. f_equal. unfold applyCurrentStyle.
  assert (Hlen : (0 <? String.length (escapedLt T)) = (0 <? String.length T)).
  { destruct T as [| c T]; [reflexivity |]. cbn [escapedLt].
    destruct (Ascii.eqb c Js.lt); reflexivity. }
  rewrite Hlen.
  destruct (isDecorated f && (0 <? String.length T))%bool.
  - apply unescape_apply.
  - rewrite <- (append_nil_r (escapedLt T)), <- (append_nil_l (escapedLt T ++ "")).
    rewrite unescape_around by reflexivity.
    now rewrite append_nil_l, append_nil_r.
Qed.

End RoundTripFacts.

(** [escape] protects a text from [format]: for every text without the
    pair [<<] that does not end in a backslash, formatting the escaped
    text gives the text itself back, tags included, in the current style
    as for any untagged text, and leaves the formatter as it was. *)
Theorem escaped_text_is_given_back (T : string) (f : OutputFormatter.t) :
  Js.includes "<<" T = false ->
  Js.lastChar T <> Some Js.backslash ->
  OutputFormatter.format (OutputFormatter.escape T) f
  = (Ok (OutputFormatter.applyCurrentStyle T f), f).
Proof. apply RoundTripFacts.format_escape. Qed.

Lemma escaped_text_is_given_back_witness :
  Js.includes "<<" "a <info>b</info>" = false
  /\ Js.lastChar "a <info>b</info>" <> Some Js.backslash
  /\ OutputFormatter.format (OutputFormatter.escape "a <info>b</info>") Samples.plain
     = (Ok "a <info>b</info>", Samples.plain).
Proof.
  assert (H1 : Js.includes "<<" "a <info>b</info>" = false) by reflexivity.
  assert (H2 : Js.lastChar "a <info>b</info>" <> Some Js.backslash) by discriminate.
  repeat (split; [assumption |]).
  exact (escaped_text_is_given_back "a <info>b</info>" Samples.plain H1 H2).
Defined.
